(** * The dubbing API client of UniframeStudioWebUI

    A shallow embedding of the API client that ships with the landing page
    ([ApiClientError], [request], [prepareUpload], [uploadFile],
    [startPipeline], [getPipelineStatus], [pollPipelineStatus]) and the
    properties the specification states about it.

    What the browser does (the network, the clock, XHR events) is an input
    of the model; what the client does with it is computed. *)

From Stdlib Require Import ZArith List String Ascii Bool Lia.
From Stdlib Require Import DecimalString.
From Stdlib Require Import QArith Qround Qpower Lqa.
From Stdlib Require Import Sorted.
From Stdlib Require PrimFloat FloatOps SpecFloat Uint63.
Import ListNotations.

Local Open Scope string_scope.
Local Open Scope Z_scope.

(** ** JavaScript values the client handles *)

(** [${n}] for an integral number. *)
Definition Number_toString (n : Z) : string :=
  NilZero.string_of_int (Z.to_int n).

(** A value that [JSON.parse], and so [response.json()], gives.  A number is
    given by the string that [String(n)] makes of it; an object by its own
    properties. *)
#[warnings="-register-all"] Inductive Json : Type :=
| Json_null
| Json_bool (b : bool)
| Json_number (rendering : string)
| Json_string (s : string)
| Json_array (items : list Json)
| Json_object (properties : list (string * Json)).

(** What reading a property gives: [undefined], or a value. *)
Inductive JsValue : Type :=
| undefined
| json_value (j : Json).

(** A string of the script, as a value. *)
Definition str (s : string) : JsValue := json_value (Json_string s).
Coercion str : string >-> JsValue.

(** [String(j)]: an array joins its items with commas, [null] among them
    giving nothing. *)
Fixpoint String_of (j : Json) : string :=
  match j with
  | Json_null => "null"
  | Json_bool b => if b then "true" else "false"
  | Json_number rendering => rendering
  | Json_string s => s
  | Json_array items =>
      String.concat "," (map (fun item => match item with
                                          | Json_null => ""
                                          | _ => String_of item
                                          end) items)
  | Json_object _ => "[object Object]"
  end.

(** [export class ApiClientError extends Error]: [code] is the parameter
    property [public code], which holds whatever the constructor was given;
    [message] is the field of [Error] set by [super(message)], always a
    string; [status] is optional. *)
Record ApiClientError : Type := new_ApiClientError {
  code : JsValue;
  message : string;
  status : option Z
}.

(** The [message] that [super(message)] sets: [Error] leaves the empty
    message of its prototype for [undefined] and converts anything else to a
    string. *)
Definition Error_message (message : JsValue) : string :=
  match message with
  | undefined => ""
  | json_value j => String_of j
  end.

Definition ApiClientError_name : string := "ApiClientError".

(** What a [catch] clause can receive.  The client only distinguishes
    [instanceof ApiClientError], [instanceof Error] (with its [name] and
    [message]) and everything else. *)
Inductive Thrown : Type :=
| Thrown_ApiClientError (e : ApiClientError)
| Thrown_Error (name msg : string)
| Thrown_value.

(** Completion of a call (or of an awaited promise): a value, or a throw. *)
Inductive Completion (A : Type) : Type :=
| Normal (a : A)
| Throws (e : Thrown).
Arguments Normal {A} a.
Arguments Throws {A} e.

Definition bind {A B} (m : Completion A) (k : A -> Completion B) : Completion B :=
  match m with
  | Normal a => k a
  | Throws e => Throws e
  end.

(** [try { m } catch (error) { h error }] *)
Definition try_catch {A} (m : Completion A) (h : Thrown -> Completion A) : Completion A :=
  match m with
  | Normal a => Normal a
  | Throws e => h e
  end.

Notation "x <- m ;; k" := (bind m (fun x => k))
  (at level 61, m at next level, right associativity).

(** [j[name]] on a value that is not [null]: the own property of an object,
    [undefined] when it has none; a boolean, a number, a string and an array
    have no property [code] or [message], the two that the client reads. *)
Fixpoint own_property (properties : list (string * Json)) (name : string) : JsValue :=
  match properties with
  | [] => undefined
  | (k, v) :: rest => if String.eqb k name then json_value v else own_property rest name
  end.

Definition property (j : Json) (name : string) : JsValue :=
  match j with
  | Json_object properties => own_property properties name
  | _ => undefined
  end.

(** [j.name]: reading a property of [null] throws a [TypeError] (the text of
    its message is the one of V8). *)
Definition read (j : Json) (name : string) : Completion JsValue :=
  match j with
  | Json_null =>
      Throws (Thrown_Error "TypeError"
                ("Cannot read properties of null (reading '" ++ name ++ "')"))
  | _ => Normal (property j name)
  end.

(** ** Types of [$lib/types/api_types] *)

Module api_types.

(** Modelled from the spec: the declaration of [DubbingPipelineStatus] is in
    [$lib/types/api_types]; the spec lists an opaque pipeline id, a status
    label and an optional error message, the client reads the fields
    [status] and [error_message]. *)
Record DubbingPipelineStatus : Type := {
  pipeline_id : string;
  status : string;
  error_message : option string
}.

End api_types.

Abbreviation DubbingPipelineStatus := api_types.DubbingPipelineStatus.

(** ** The network as the client sees it *)

Definition Headers := list (string * string).

(** [{ ...a, ...b }] on header objects: the keys of [a] in their order, with
    the values of [b] where [b] has the key, then the other keys of [b]. *)
Fixpoint lookup_header (k : string) (h : Headers) : option string :=
  match h with
  | [] => None
  | (k', v) :: h' => if String.eqb k k' then Some v else lookup_header k h'
  end.

Definition spread (a b : Headers) : Headers :=
  (map (fun kv => match lookup_header (fst kv) b with
                  | Some v => (fst kv, v)
                  | None => kv
                  end) a
   ++ filter (fun kv => match lookup_header (fst kv) a with
                        | Some _ => false
                        | None => true
                        end) b)%list.

Record RequestInit : Type := {
  method : option string;
  body : option string;
  headers : Headers
}.

(** A response whose [ok] is true carries a body of the expected type [T];
    the body of one whose [ok] is false is any JSON value: the annotation
    [ApiErrorType] of the script does not check it.  [json] is the
    completion of [response.json()], which throws when the body is missing
    or is not JSON. *)
Inductive Response (T : Type) : Type :=
| Response_ok (status : Z) (statusText : string) (json : Completion T)
| Response_not_ok (status : Z) (statusText : string) (json : Completion Json).
Arguments Response_ok {T} status statusText json.
Arguments Response_not_ok {T} status statusText json.

Definition ok {T} (r : Response T) : bool :=
  match r with
  | Response_ok _ _ _ => true
  | Response_not_ok _ _ _ => false
  end.

(** What one [fetch] does when left alone: after [settles_after] milliseconds
    it settles with [settles_with]. *)
Record Fetch (T : Type) : Type := {
  settles_after : Z;
  settles_with : Completion (Response T)
}.
Arguments settles_after {T} f.
Arguments settles_with {T} f.

Definition Network (T : Type) : Type := string -> RequestInit -> Fetch T.

(** The rejection of a fetch whose signal was aborted. *)
Definition AbortError : Thrown :=
  Thrown_Error "AbortError" "signal is aborted without reason".

(** [await fetch(url, config)] with [config.signal] aborted by a timer
    [setTimeout(() => controller.abort(), timeout)]: the timer runs when the
    fetch has not settled after [timeout] milliseconds, and the fetch then
    rejects with [AbortError]. *)
Definition fetch {T} (net : Network T) (url : string) (config : RequestInit)
    (timeout : Z) : Completion (Response T) :=
  let f := net url config in
  if timeout <? settles_after f then Throws AbortError else settles_with f.

(** ** The client *)

Definition API_BASE_URL : string := "https://api.blacksmith-lab.com".
Definition API_TIMEOUT : Z := 30000.

Record ApiClient : Type := new_ApiClient { baseUrl : string }.

Definition apiClient : ApiClient := new_ApiClient API_BASE_URL.

(** [`${this.baseUrl}${endpoint}`] *)
Definition request_url (this : ApiClient) (endpoint : string) : string :=
  baseUrl this ++ endpoint.

(** [{ ...options, headers: { 'Content-Type': 'application/json', ...options.headers } }] *)
Definition request_config (options : RequestInit) : RequestInit :=
  {| method := method options;
     body := body options;
     headers := spread [("Content-Type", "application/json")] (headers options) |}.

Definition request {T} (this : ApiClient) (net : Network T)
    (endpoint : string) (options : RequestInit) : Completion T :=
  let url := request_url this endpoint in
  let config := request_config options in
  try_catch
    (response <- fetch net url config API_TIMEOUT ;;
     match response with
     | Response_not_ok response_status response_statusText json =>
         let errorData :=
           match json with
           | Normal data => data
           | Throws _ =>
               Json_object
                 [("code", Json_string "UNKNOWN_ERROR");
                  ("message",
                   Json_string ("HTTP " ++ Number_toString response_status ++ ": "
                                        ++ response_statusText))]
           end in
         errorData_code <- read errorData "code" ;;
         errorData_message <- read errorData "message" ;;
         Throws (Thrown_ApiClientError
                   (new_ApiClientError errorData_code
                                       (Error_message errorData_message)
                                       (Some response_status)))
     | Response_ok _ _ json => json
     end)
    (fun error =>
       match error with
       | Thrown_ApiClientError _ => Throws error
       | Thrown_Error name msg =>
           if String.eqb name "AbortError"
           then Throws (Thrown_ApiClientError
                          (new_ApiClientError "TIMEOUT" "Request timeout" None))
           else Throws (Thrown_ApiClientError
                          (new_ApiClientError "NETWORK_ERROR"
                                              ("Network error: " ++ msg) None))
       | Thrown_value =>
           Throws (Thrown_ApiClientError
                     (new_ApiClientError "UNKNOWN_ERROR" "Unknown error occurred" None))
       end).

Definition GET : RequestInit := {| method := None; body := None; headers := [] |}.

Definition POST (payload : string) : RequestInit :=
  {| method := Some "POST"; body := Some payload; headers := [] |}.

Section Endpoints.

(** The request and response types of [$lib/types/api_types] that the
    client only passes through, with [JSON.stringify] on the requests. *)
Variables PrepareUploadRequest PrepareUploadResponse : Type.
Variables DubbingPipelineRequest DubbingPipelineResponse : Type.
Variable stringify_prepare : PrepareUploadRequest -> string.
Variable stringify_start : DubbingPipelineRequest -> string.

(** The [console.log] of the request is not part of the model. *)
Definition prepareUpload (this : ApiClient) (net : Network PrepareUploadResponse)
    (req : PrepareUploadRequest) : Completion PrepareUploadResponse :=
  request this net "/api/uniframe/dubbing/prepare" (POST (stringify_prepare req)).

Definition startPipeline (this : ApiClient) (net : Network DubbingPipelineResponse)
    (req : DubbingPipelineRequest) : Completion DubbingPipelineResponse :=
  request this net "/api/uniframe/dubbing/start" (POST (stringify_start req)).

End Endpoints.

Definition getPipelineStatus (this : ApiClient) (net : Network DubbingPipelineStatus)
    (pipelineId : string) : Completion DubbingPipelineStatus :=
  request this net ("/api/uniframe/dubbing/" ++ pipelineId ++ "/status") GET.

(** ** Numbers: the arithmetic of the upload percentage

    [Math.round((event.loaded / event.total) * 100)] is computed on IEEE 754
    binary64 numbers: the quotient is rounded to the nearest double, so is the
    product, and [Math.round] is exact.  Doubles are modelled by the
    rationals they denote. *)

Definition pow2 (z : Z) : Q := (2 ^ z)%Q.

(** The binary exponent of a positive rational: [pow2 e <= x < pow2 (e + 1)]. *)
Definition ilog2 (x : Q) : Z :=
  let k := Z.log2 (Qnum x) - Z.log2 (Z.pos (Qden x)) in
  if Qle_bool (pow2 k) x then k else k - 1.

(** The integer nearest to [q], a tie going to the even one. *)
Definition round_half_even (q : Q) : Z :=
  let f := Qfloor q in
  match (q - inject_Z f ?= 1 # 2)%Q with
  | Lt => f
  | Gt => f + 1
  | Eq => if Z.even f then f else f + 1
  end.

(** The nearest number with a 53 bit significand (ties to even) of a positive
    rational.  The exponent is not bounded: the quotients and products below
    are far inside the range of normal doubles. *)
Definition binary64_pos (x : Q) : Q :=
  let ulp := pow2 (ilog2 x - 52) in
  (inject_Z (round_half_even (x / ulp)) * ulp)%Q.

Definition binary64 (x : Q) : Q :=
  match (x ?= 0)%Q with
  | Eq => 0%Q
  | Gt => binary64_pos x
  | Lt => (- binary64_pos (- x))%Q
  end.

(** [a / b] and [a * b] on doubles: the exact result, rounded. *)
Definition double_div (a b : Q) : Q := binary64 (a / b).
Definition double_mul (a b : Q) : Q := binary64 (a * b).

(** [Math.round]: the nearest integer, a tie going up. *)
Definition Math_round (x : Q) : Z := Qfloor (x + (1 # 2))%Q.

(** The numbers the progress callback can receive. *)
Inductive Number : Type :=
| Num (n : Z)
| NaN
| Infinity
| NegInfinity.

(** [Math.round((loaded / total) * 100)] for integral [loaded] and [total]. *)
Definition percentage (loaded total : Z) : Number :=
  if total =? 0 then
    match loaded ?= 0 with
    | Eq => NaN
    | Gt => Infinity
    | Lt => NegInfinity
    end
  else
    Num (Math_round (double_mul (double_div (inject_Z loaded) (inject_Z total)) 100)).

(** ** [uploadFile] *)

Record File : Type := { type : string; size : Z }.

Record XMLHttpRequest : Type := {
  xhr_method : string;
  xhr_url : string;
  xhr_content_type : string;
  xhr_timeout : Z
}.

(** [event.lengthComputable], [event.loaded] and [event.total] of a progress
    event. *)
Record ProgressEvent : Type := {
  lengthComputable : bool;
  loaded : Z;
  total : Z
}.

(** The events the handlers of [uploadFile] are attached to. *)
Inductive XhrEvent : Type :=
| progress (event : ProgressEvent)
| load (xhr_status : Z) (statusText : string)
| error
| timeout
| abort.

(** How a transfer ends when no time limit stops it. *)
Inductive Ending : Type :=
| ends_load (xhr_status : Z) (statusText : string)
| ends_error
| ends_abort.

Definition ending_event (e : Ending) : XhrEvent :=
  match e with
  | ends_load xhr_status statusText => load xhr_status statusText
  | ends_error => error
  | ends_abort => abort
  end.

(** What the transfer does when left alone: it reports progress, and after
    [finishes_after] milliseconds it ends with [finishes_with]. *)
Record Upload : Type := {
  reports : list ProgressEvent;
  finishes_after : Z;
  finishes_with : Ending
}.

(** The events a request with [xhr.timeout] set dispatches: a transfer that
    has not ended after [xhr.timeout] milliseconds is terminated with a
    [timeout] event ([xhr.timeout = 0] means no time limit). *)
Definition dispatched (xhr : XMLHttpRequest) (u : Upload) : list XhrEvent :=
  (map progress (reports u) ++
   [if (0 <? xhr_timeout xhr) && (xhr_timeout xhr <? finishes_after u)
    then timeout else ending_event (finishes_with u)])%list.

(** The calls of [onProgress] so far and the state of the promise. *)
Record UploadRun : Type := {
  progress_calls : list Number;
  settled : option (Completion unit)
}.

Definition settle (c : Completion unit) (r : UploadRun) : UploadRun :=
  {| progress_calls := progress_calls r;
     settled := match settled r with
                | Some c0 => Some c0
                | None => Some c
                end |}.

(** One event, through [xhr.upload.onprogress], [xhr.onload], [xhr.onerror]
    and [xhr.ontimeout]; [onProgress] tells whether the optional callback was
    passed. *)
Definition handle (onProgress : bool) (r : UploadRun) (ev : XhrEvent) : UploadRun :=
  match ev with
  | progress event =>
      if lengthComputable event && onProgress
      then {| progress_calls :=
                (progress_calls r ++ [percentage (loaded event) (total event)])%list;
              settled := settled r |}
      else r
  | load xhr_status statusText =>
      if (200 <=? xhr_status) && (xhr_status <? 300)
      then settle (Normal tt) r
      else settle (Throws (Thrown_ApiClientError
                     (new_ApiClientError "UPLOAD_FAILED"
                        ("Upload failed: " ++ statusText) None))) r
  | error =>
      settle (Throws (Thrown_ApiClientError
                (new_ApiClientError "UPLOAD_ERROR" "Upload network error" None))) r
  | timeout =>
      settle (Throws (Thrown_ApiClientError
                (new_ApiClientError "UPLOAD_TIMEOUT" "Upload timeout" None))) r
  | abort => r
  end.

(** The upload once [xhr.open('PUT', uploadUrl)] has returned: the request
    is sent and its events go to the handlers. *)
Definition uploadFile (uploadUrl : string) (file : File) (onProgress : bool)
    (u : Upload) : UploadRun :=
  let xhr := {| xhr_method := "PUT";
                xhr_url := uploadUrl;
                xhr_content_type := type file;
                xhr_timeout := 600000 |} in
  fold_left (handle onProgress) (dispatched xhr u)
            {| progress_calls := []; settled := None |}.



(** ** [pollPipelineStatus] *)

(** The three callbacks of the caller.  They are called inside the [try]
    block of [poll], so whether they return or throw matters to the run. *)
Record Callbacks : Type := {
  onUpdate : DubbingPipelineStatus -> Completion unit;
  onComplete : DubbingPipelineStatus -> Completion unit;
  onError : string -> Completion unit
}.

(** What a run does that can be seen from outside. *)
Inductive Event : Type :=
| CallGetPipelineStatus (pipelineId : string)
| CallOnUpdate (s : DubbingPipelineStatus)
| CallOnComplete (s : DubbingPipelineStatus)
| CallOnError (msg : string)
| ConsoleWarn (consecutiveErrors maxConsecutiveErrors : Z)
| SetTimeout (delay : Z).

(** The variable [consecutiveErrors] of the closure, and the delay of the
    timer that will call [poll] next, if one is set. *)
Record PollState : Type := {
  consecutiveErrors : Z;
  next_poll : option Z
}.

(** How a block of [poll] ends: it falls through, it executes [return], or
    it throws. *)
Inductive Flow (A : Type) : Type :=
| Next (a : A)
| Return
| Raise (e : Thrown).
Arguments Next {A} a.
Arguments Return {A}.
Arguments Raise {A} e.

Definition Poll (A : Type) : Type := PollState -> list Event * PollState * Flow A.

Definition pure {A} (a : A) : Poll A := fun st => ([], st, Next a).

Definition then_ {A B} (m : Poll A) (k : A -> Poll B) : Poll B :=
  fun st =>
    let '(t1, st1, f) := m st in
    match f with
    | Next a => let '(t2, st2, f2) := k a st1 in ((t1 ++ t2)%list, st2, f2)
    | Return => (t1, st1, Return)
    | Raise e => (t1, st1, Raise e)
    end.

Notation "x <~ m ; k" := (then_ m (fun x => k))
  (at level 62, m at next level, right associativity).
Notation "m ;; k" := (then_ m (fun _ => k))
  (at level 62, right associativity).

Definition try_ {A} (m : Poll A) (h : Thrown -> Poll A) : Poll A :=
  fun st =>
    let '(t1, st1, f) := m st in
    match f with
    | Raise e => let '(t2, st2, f2) := h e st1 in ((t1 ++ t2)%list, st2, f2)
    | _ => (t1, st1, f)
    end.

Definition log (ev : Event) : Poll unit := fun st => ([ev], st, Next tt).

Definition return_ {A} : Poll A := fun st => ([], st, Return).

(** A call that is logged and whose completion is awaited. *)
Definition call {A} (ev : Event) (c : Completion A) : Poll A :=
  fun st => ([ev], st, match c with Normal a => Next a | Throws e => Raise e end).

Definition get_consecutiveErrors : Poll Z :=
  fun st => ([], st, Next (consecutiveErrors st)).

Definition set_consecutiveErrors (n : Z) : Poll unit :=
  fun st => ([], {| consecutiveErrors := n; next_poll := next_poll st |}, Next tt).

(** [setTimeout(poll, delay)] *)
Definition setTimeout_poll (delay : Z) : Poll unit :=
  fun st => ([SetTimeout delay],
             {| consecutiveErrors := consecutiveErrors st; next_poll := Some delay |},
             Next tt).

Definition when (b : bool) (m : Poll unit) : Poll unit :=
  if b then m else pure tt.

(** A string is truthy when it is present and not empty. *)
Definition truthy (s : option string) : bool :=
  match s with
  | Some s => negb (String.eqb s "")
  | None => false
  end.

(** [s || d] *)
Definition or_else (s : option string) (d : string) : string :=
  match s with
  | Some s => if String.eqb s "" then d else s
  | None => d
  end.

Definition pollInterval : Z := 3000.
Definition maxConsecutiveErrors : Z := 10.
Definition maxDuration : Z := 24 * 60 * 60 * 1000.

(** What the browser gives to one call of [poll]: the reading of
    [Date.now()] and the network at that time. *)
Record Cycle : Type := {
  now : Z;
  net : Network DubbingPipelineStatus
}.

Section Polling.

Variable this : ApiClient.
Variable pipelineId : string.
Variable callbacks : Callbacks.
Variable startTime : Z.

(** The closure [poll], called once per cycle. *)
Definition poll (cy : Cycle) : Poll unit :=
  when (maxDuration <? now cy - startTime)
    (call (CallOnError "Pipeline timeout - maximum duration exceeded (24 hours)")
          (onError callbacks "Pipeline timeout - maximum duration exceeded (24 hours)") ;;
     return_) ;;
  try_
    (status <~ call (CallGetPipelineStatus pipelineId)
                    (getPipelineStatus this (net cy) pipelineId) ;
     set_consecutiveErrors 0 ;;
     call (CallOnUpdate status) (onUpdate callbacks status) ;;
     when (String.eqb (api_types.status status) "completed")
       (call (CallOnComplete status) (onComplete callbacks status) ;;
        return_) ;;
     when (String.eqb (api_types.status status) "failed"
           || truthy (api_types.error_message status))
       (call (CallOnError (or_else (api_types.error_message status) "Pipeline failed"))
             (onError callbacks
                (or_else (api_types.error_message status) "Pipeline failed")) ;;
        return_) ;;
     setTimeout_poll pollInterval)
    (fun error =>
       n <~ get_consecutiveErrors ;
       set_consecutiveErrors (n + 1) ;;
       consecutiveErrors <~ get_consecutiveErrors ;
       when (maxConsecutiveErrors <=? consecutiveErrors)
         (match error with
          | Thrown_ApiClientError e =>
              call (CallOnError ("Too many consecutive errors: " ++ message e))
                   (onError callbacks ("Too many consecutive errors: " ++ message e))
          | _ =>
              call (CallOnError "Too many consecutive errors while checking pipeline status")
                   (onError callbacks
                      "Too many consecutive errors while checking pipeline status")
          end ;;
          return_) ;;
       log (ConsoleWarn consecutiveErrors maxConsecutiveErrors) ;;
       setTimeout_poll (Z.min (pollInterval * consecutiveErrors) 30000)).

(** The calls of [poll] one after the other: a call happens when one is
    due and the browser has a cycle for it; the timer that made it due is
    spent by the call. *)
Fixpoint poll_loop (st : PollState) (env : list Cycle) : list Event * PollState :=
  match next_poll st, env with
  | Some _, cy :: env' =>
      let '(t1, st1, _) :=
        poll cy {| consecutiveErrors := consecutiveErrors st; next_poll := None |} in
      let '(t2, st2) := poll_loop st1 env' in
      ((t1 ++ t2)%list, st2)
  | _, _ => ([], st)
  end.

(** [pollPipelineStatus]: [consecutiveErrors] starts at [0] and the first
    call of [poll] is due at once ([await poll()]). *)
Definition pollPipelineStatus (env : list Cycle) : list Event * PollState :=
  poll_loop {| consecutiveErrors := 0; next_poll := Some 0 |} env.

End Polling.


(** ** Notions the properties are stated with *)

(** [sub] occurs in [s]. *)
Definition contains (s sub : string) : Prop :=
  exists before after, s = before ++ sub ++ after.

Definition is_ApiClientError (e : Thrown) : Prop :=
  exists a, e = Thrown_ApiClientError a.

(** The percentages of the progress events that [uploadFile] passes on. *)
Definition reported (onProgress : bool) (evs : list ProgressEvent) : list Number :=
  if onProgress
  then map (fun ev => percentage (loaded ev) (total ev)) (filter lengthComputable evs)
  else [].

(** An integer between 0 and 100. *)
Definition is_percentage (x : Number) : Prop :=
  exists n, x = Num n /\ 0 <= n <= 100.

Definition Number_le (x y : Number) : Prop :=
  match x, y with
  | Num a, Num b => a <= b
  | _, _ => False
  end.

(** The callbacks return to the poller instead of throwing. *)
Definition returns_normally (callbacks : Callbacks) : Prop :=
  (forall s, onUpdate callbacks s = Normal tt)
  /\ (forall s, onComplete callbacks s = Normal tt)
  /\ (forall msg, onError callbacks msg = Normal tt).

(** The cycle starts no later than 24 hours after [startTime]. *)
Definition within_time (startTime : Z) (cy : Cycle) : Prop :=
  now cy - startTime <= maxDuration.


Definition is_CallGetPipelineStatus (ev : Event) : bool :=
  match ev with CallGetPipelineStatus _ => true | _ => false end.

Definition is_CallOnUpdate (ev : Event) : bool :=
  match ev with CallOnUpdate _ => true | _ => false end.

Definition is_CallOnComplete (ev : Event) : bool :=
  match ev with CallOnComplete _ => true | _ => false end.

Definition is_CallOnError (ev : Event) : bool :=
  match ev with CallOnError _ => true | _ => false end.

(** How many events of a trace are of a kind. *)
Definition count (kind : Event -> bool) (trace : list Event) : nat :=
  List.length (filter kind trace).

Definition describes_exhausted_retries (msg : string) : Prop :=
  String.prefix "Too many consecutive errors" msg = true.

Definition describes_timeout (msg : string) : Prop :=
  contains msg "timeout" /\ contains msg "24 hours".

(** The events of [k] failed status checks in a row that are retried, the
    first of them with [consecutiveErrors] at [c]. *)
Fixpoint failed_rounds (pipelineId : string) (c : Z) (k : nat) : list Event :=
  match k with
  | O => []
  | S k' =>
      CallGetPipelineStatus pipelineId
      :: ConsoleWarn (c + 1) maxConsecutiveErrors
      :: SetTimeout (Z.min (3000 * (c + 1)) 30000)
      :: failed_rounds pipelineId (c + 1) k'
  end.

(** The state of the poller after [k] retried status checks in a row. *)
Definition after_failures (st : PollState) (k : nat) : PollState :=
  match k with
  | O => st
  | S _ =>
      {| consecutiveErrors := consecutiveErrors st + Z.of_nat k;
         next_poll := Some (Z.min (3000 * (consecutiveErrors st + Z.of_nat k)) 30000) |}
  end.

(** The same product on the floating-point numbers of the machine, for
    [0 <= loaded, total < 2^53]: the value of
    [(loaded / total) * 100] as a rational, when it is finite. *)
Definition hardware_product (loaded total : Z) : option Q :=
  let double := fun n => PrimFloat.of_uint63 (Uint63.of_Z n) in
  match FloatOps.Prim2SF
          (PrimFloat.mul (PrimFloat.div (double loaded) (double total)) (double 100)) with
  | SpecFloat.S754_zero _ => Some 0%Q
  | SpecFloat.S754_finite sign m e =>
      Some ((if sign then -1 else 1) * inject_Z (Z.pos m) * pow2 e)%Q
  | _ => None
  end.

Definition agrees_with_hardware (loaded total : Z) : bool :=
  match hardware_product loaded total with
  | Some q => Qeq_bool q (double_mul (double_div (inject_Z loaded) (inject_Z total)) 100)
  | None => false
  end.

(** ** Concrete inputs *)

Definition a_status (label : string) (error_message : option string)
  : DubbingPipelineStatus :=
  {| api_types.pipeline_id := "pipeline-1";
     api_types.status := label;
     api_types.error_message := error_message |}.

(** A network that answers every request with [200 OK] and the status [s]
    after 120 milliseconds. *)
Definition answers (s : DubbingPipelineStatus) : Network DubbingPipelineStatus :=
  fun _ _ =>
    {| settles_after := 120;
       settles_with := Normal (Response_ok 200 "OK" (Normal s)) |}.

(** A network on which every fetch fails at once. *)
Definition unreachable : Network DubbingPipelineStatus :=
  fun _ _ =>
    {| settles_after := 5;
       settles_with := Throws (Thrown_Error "TypeError" "Failed to fetch") |}.

(** A network that answers with the given status code and an error body. *)
Definition refuses (T : Type) (response_status : Z) (statusText : string)
    (json : Completion Json) : Network T :=
  fun _ _ =>
    {| settles_after := 80;
       settles_with := Normal (Response_not_ok response_status statusText json) |}.


(** A network that answers after 45 seconds. *)
Definition slow (s : DubbingPipelineStatus) : Network DubbingPipelineStatus :=
  fun _ _ =>
    {| settles_after := 45000;
       settles_with := Normal (Response_ok 200 "OK" (Normal s)) |}.

(** Callbacks that return. *)
Definition quiet : Callbacks :=
  {| onUpdate := fun _ => Normal tt;
     onComplete := fun _ => Normal tt;
     onError := fun _ => Normal tt |}.

(** Callbacks of which [onComplete] throws. *)
Definition failing_onComplete : Callbacks :=
  {| onUpdate := fun _ => Normal tt;
     onComplete := fun _ => Throws (Thrown_Error "TypeError" "view is gone");
     onError := fun _ => Normal tt |}.

(** Callbacks of which [onUpdate] throws. *)
Definition failing_onUpdate : Callbacks :=
  {| onUpdate := fun _ => Throws (Thrown_Error "TypeError" "view is gone");
     onComplete := fun _ => Normal tt;
     onError := fun _ => Normal tt |}.

Definition at_ (time : Z) (network : Network DubbingPipelineStatus) : Cycle :=
  {| now := time; net := network |}.

Definition a_file : File := {| type := "video/mp4"; size := 3000 |}.

Definition report (bytes size : Z) : ProgressEvent :=
  {| lengthComputable := true; loaded := bytes; total := size |}.

(** An upload of 3000 bytes that is reported three times and succeeds. *)
Definition a_transfer : Upload :=
  {| reports := [report 0 3000; report 435 3000; report 3000 3000];
     finishes_after := 9000;
     finishes_with := ends_load 200 "OK" |}.

(** An upload that would need eleven minutes. *)
Definition a_long_transfer : Upload :=
  {| reports := [report 1000 3000];
     finishes_after := 660000;
     finishes_with := ends_load 200 "OK" |}.

(** ** Tactics for the poller *)

(** Unfolds one call of [poll] down to its tests and calls. *)
Ltac run_poll :=
  unfold poll, when, then_, try_, call, return_, log, pure,
    set_consecutiveErrors, get_consecutiveErrors, setTimeout_poll;
  cbn -[Z.mul Z.add Z.sub Z.min Z.ltb Z.leb].

(** Splits on every test and call that decides the course of a cycle. *)
Ltac split_cases :=
  repeat (cbn -[Z.mul Z.add Z.sub Z.min Z.ltb Z.leb];
          match goal with
          | |- context [match ?x with _ => _ end] =>
              match type of x with
              | bool => destruct x eqn:?
              | Completion _ => destruct x eqn:?
              | Thrown => destruct x eqn:?
              end
          end).

(** ** Notions for further properties of the poller *)

(** A status that is neither [completed] nor [failed] and carries no error
    message, whatever its label. *)
Definition is_in_progress (s : DubbingPipelineStatus) : Prop :=
  api_types.status s <> "completed" /\ api_types.status s <> "failed"
  /\ truthy (api_types.error_message s) = false.

(** The events of cycles that fetch the given statuses, one after the other,
    when each of them keeps the run polling. *)
Definition in_progress_rounds (pipelineId : string)
    (statuses : list DubbingPipelineStatus) : list Event :=
  flat_map (fun s => [CallGetPipelineStatus pipelineId; CallOnUpdate s; SetTimeout 3000])
           statuses.

(** One of the callbacks that [poll] calls for the status [s] inside its
    [try] block throws. *)
Definition throws_in_try (callbacks : Callbacks) (s : DubbingPipelineStatus) : Prop :=
  (exists e, onUpdate callbacks s = Throws e)
  \/ (onUpdate callbacks s = Normal tt /\ api_types.status s = "completed"
      /\ exists e, onComplete callbacks s = Throws e)
  \/ (onUpdate callbacks s = Normal tt /\ api_types.status s <> "completed"
      /\ (api_types.status s = "failed" \/ truthy (api_types.error_message s) = true)
      /\ exists e, onError callbacks
                     (or_else (api_types.error_message s) "Pipeline failed") = Throws e).

(** A call of [onComplete] or of [onError]. *)
Definition is_report (ev : Event) : bool :=
  is_CallOnComplete ev || is_CallOnError ev.

(** ** The page: its variables, its timers and its handlers

    The variables of the script of the page, the timers it sets and the
    handlers it attaches.  The browser is a clock and a list of pending
    timers, in the order in which they were set.  A timer runs when it is
    due, and the clock is then at its due time: no timer runs late, and of
    two timers the one that is due first runs first.  An interval is set
    again one period after its due time.  What the visitor does happens at
    any time at which no timer is overdue. *)

Definition leftFullText : string := "AI-powered video dubbing system".
Definition rightFullText : string := "Cutting-edge lip-sync technology".

Record Page : Type := {
  leftHovered : bool;
  rightHovered : bool;
  showComingSoon : bool;
  isLoaded : bool;
  leftTypedText : string;
  rightTypedText : string;
  leftTypingInterval : option nat;
  rightTypingInterval : option nat;
  logoFlickering : bool
}.

Definition initial_page : Page :=
  {| leftHovered := false; rightHovered := false; showComingSoon := false;
     isLoaded := false; leftTypedText := ""; rightTypedText := "";
     leftTypingInterval := None; rightTypingInterval := None;
     logoFlickering := false |}.

Definition with_leftHovered (v : bool) (p : Page) : Page :=
  {| leftHovered := v; rightHovered := rightHovered p;
     showComingSoon := showComingSoon p; isLoaded := isLoaded p;
     leftTypedText := leftTypedText p; rightTypedText := rightTypedText p;
     leftTypingInterval := leftTypingInterval p;
     rightTypingInterval := rightTypingInterval p;
     logoFlickering := logoFlickering p |}.

Definition with_rightHovered (v : bool) (p : Page) : Page :=
  {| leftHovered := leftHovered p; rightHovered := v;
     showComingSoon := showComingSoon p; isLoaded := isLoaded p;
     leftTypedText := leftTypedText p; rightTypedText := rightTypedText p;
     leftTypingInterval := leftTypingInterval p;
     rightTypingInterval := rightTypingInterval p;
     logoFlickering := logoFlickering p |}.

Definition with_showComingSoon (v : bool) (p : Page) : Page :=
  {| leftHovered := leftHovered p; rightHovered := rightHovered p;
     showComingSoon := v; isLoaded := isLoaded p;
     leftTypedText := leftTypedText p; rightTypedText := rightTypedText p;
     leftTypingInterval := leftTypingInterval p;
     rightTypingInterval := rightTypingInterval p;
     logoFlickering := logoFlickering p |}.

Definition with_isLoaded (v : bool) (p : Page) : Page :=
  {| leftHovered := leftHovered p; rightHovered := rightHovered p;
     showComingSoon := showComingSoon p; isLoaded := v;
     leftTypedText := leftTypedText p; rightTypedText := rightTypedText p;
     leftTypingInterval := leftTypingInterval p;
     rightTypingInterval := rightTypingInterval p;
     logoFlickering := logoFlickering p |}.

Definition with_leftTypedText (v : string) (p : Page) : Page :=
  {| leftHovered := leftHovered p; rightHovered := rightHovered p;
     showComingSoon := showComingSoon p; isLoaded := isLoaded p;
     leftTypedText := v; rightTypedText := rightTypedText p;
     leftTypingInterval := leftTypingInterval p;
     rightTypingInterval := rightTypingInterval p;
     logoFlickering := logoFlickering p |}.

Definition with_rightTypedText (v : string) (p : Page) : Page :=
  {| leftHovered := leftHovered p; rightHovered := rightHovered p;
     showComingSoon := showComingSoon p; isLoaded := isLoaded p;
     leftTypedText := leftTypedText p; rightTypedText := v;
     leftTypingInterval := leftTypingInterval p;
     rightTypingInterval := rightTypingInterval p;
     logoFlickering := logoFlickering p |}.

Definition with_leftTypingInterval (v : option nat) (p : Page) : Page :=
  {| leftHovered := leftHovered p; rightHovered := rightHovered p;
     showComingSoon := showComingSoon p; isLoaded := isLoaded p;
     leftTypedText := leftTypedText p; rightTypedText := rightTypedText p;
     leftTypingInterval := v;
     rightTypingInterval := rightTypingInterval p;
     logoFlickering := logoFlickering p |}.

Definition with_rightTypingInterval (v : option nat) (p : Page) : Page :=
  {| leftHovered := leftHovered p; rightHovered := rightHovered p;
     showComingSoon := showComingSoon p; isLoaded := isLoaded p;
     leftTypedText := leftTypedText p; rightTypedText := rightTypedText p;
     leftTypingInterval := leftTypingInterval p;
     rightTypingInterval := v;
     logoFlickering := logoFlickering p |}.

Definition with_logoFlickering (v : bool) (p : Page) : Page :=
  {| leftHovered := leftHovered p; rightHovered := rightHovered p;
     showComingSoon := showComingSoon p; isLoaded := isLoaded p;
     leftTypedText := leftTypedText p; rightTypedText := rightTypedText p;
     leftTypingInterval := leftTypingInterval p;
     rightTypingInterval := rightTypingInterval p;
     logoFlickering := v |}.

(** The functions the script passes to [setTimeout] and [setInterval].  The
    callback of a typing interval is a closure: it holds the side it types
    on, its [text] and its variable [currentIndex]. *)
Inductive Callback : Type :=
| mount_loaded      (* () => { isLoaded = true; setTimeout(..., 2000) } *)
| auto_typing       (* () => { startAutoTyping() } *)
| mount_flicker     (* () => { startLogoFlickering() } *)
| flicker_off       (* () => { logoFlickering = false } *)
| coming_soon_off   (* () => { showComingSoon = false } *)
| type_right        (* () => { startTypingText(false) } *)
| typing (isLeft : bool) (text : string) (currentIndex : nat).

Record Timer : Type := {
  timer_handle : nat;
  timer_due : Z;
  timer_repeat : option Z;
  timer_callback : Callback
}.

Record Browser : Type := {
  page : Page;
  timers : list Timer;
  clock : Z;
  next_handle : nat;
  visited : list string
}.

Definition set_page (f : Page -> Page) (b : Browser) : Browser :=
  {| page := f (page b); timers := timers b; clock := clock b;
     next_handle := next_handle b; visited := visited b |}.

Definition set_timers (f : list Timer -> list Timer) (b : Browser) : Browser :=
  {| page := page b; timers := f (timers b); clock := clock b;
     next_handle := next_handle b; visited := visited b |}.

(** [setTimeout(cb, delay)] and [setInterval(cb, delay)]: a new timer with a
    new handle, due [delay] milliseconds from now. *)
Definition add_timer (period : option Z) (cb : Callback) (delay : Z) (b : Browser)
  : Browser :=
  {| page := page b;
     timers := (timers b ++ [{| timer_handle := next_handle b;
                                timer_due := clock b + delay;
                                timer_repeat := period;
                                timer_callback := cb |}])%list;
     clock := clock b;
     next_handle := S (next_handle b);
     visited := visited b |}.

Definition setTimeout (cb : Callback) (delay : Z) (b : Browser) : Browser :=
  add_timer None cb delay b.

Definition setInterval (cb : Callback) (delay : Z) (b : Browser) : Browser :=
  add_timer (Some delay) cb delay b.

Definition clearInterval (h : nat) (b : Browser) : Browser :=
  set_timers (filter (fun t => negb (Nat.eqb (timer_handle t) h))) b.

(** [goto(path)] *)
Definition goto (path : string) (b : Browser) : Browser :=
  {| page := page b; timers := timers b; clock := clock b;
     next_handle := next_handle b; visited := (visited b ++ [path])%list |}.

(** [text[currentIndex]] as a string. *)
Definition char_at (text : string) (currentIndex : nat) : string :=
  match String.get currentIndex text with
  | Some c => String c EmptyString
  | None => "undefined"
  end.

Definition startLogoFlickering (b : Browser) : Browser :=
  setTimeout flicker_off 3000 (set_page (with_logoFlickering true) b).

Definition handleDubClick (b : Browser) : Browser := goto "/dubbing" b.

Definition handleSyncClick (b : Browser) : Browser :=
  setTimeout coming_soon_off 5000 (set_page (with_showComingSoon true) b).

Definition startTypingText (isLeft : bool) (b : Browser) : Browser :=
  let text := if isLeft then leftFullText else rightFullText in
  let speed := 50 in
  if isLeft then
    let b1 := match leftTypingInterval (page b) with
              | Some h => clearInterval h b
              | None => b
              end in
    let b2 := set_page (with_leftTypedText "") b1 in
    set_page (with_leftTypingInterval (Some (next_handle b2)))
             (setInterval (typing true text 0) speed b2)
  else
    let b1 := match rightTypingInterval (page b) with
              | Some h => clearInterval h b
              | None => b
              end in
    let b2 := set_page (with_rightTypedText "") b1 in
    set_page (with_rightTypingInterval (Some (next_handle b2)))
             (setInterval (typing false text 0) speed b2).

Definition startAutoTyping (b : Browser) : Browser :=
  setTimeout type_right 500 (startTypingText true b).

(** One call of the callback of a typing interval: the browser after it and
    the closure with its [currentIndex] after it. *)
Definition typing_tick (isLeft : bool) (text : string) (currentIndex : nat)
    (b : Browser) : Browser * Callback :=
  if isLeft then
    if (currentIndex <? String.length text)%nat then
      (set_page (fun p => with_leftTypedText
                            (leftTypedText p ++ char_at text currentIndex) p) b,
       typing true text (S currentIndex))
    else
      let b1 := match leftTypingInterval (page b) with
                | Some h => clearInterval h b
                | None => b
                end in
      (set_page (with_leftTypingInterval None) b1, typing true text currentIndex)
  else
    if (currentIndex <? String.length text)%nat then
      (set_page (fun p => with_rightTypedText
                            (rightTypedText p ++ char_at text currentIndex) p) b,
       typing false text (S currentIndex))
    else
      let b1 := match rightTypingInterval (page b) with
                | Some h => clearInterval h b
                | None => b
                end in
      (set_page (with_rightTypingInterval None) b1, typing false text currentIndex).

Definition run_callback (cb : Callback) (b : Browser) : Browser * Callback :=
  match cb with
  | mount_loaded => (setTimeout auto_typing 2000 (set_page (with_isLoaded true) b), cb)
  | auto_typing => (startAutoTyping b, cb)
  | mount_flicker => (startLogoFlickering b, cb)
  | flicker_off => (set_page (with_logoFlickering false) b, cb)
  | coming_soon_off => (set_page (with_showComingSoon false) b, cb)
  | type_right => (startTypingText false b, cb)
  | typing isLeft text currentIndex => typing_tick isLeft text currentIndex b
  end.

(** The two [onMount] callbacks, in their order. *)
Definition onMount (b : Browser) : Browser :=
  setTimeout mount_flicker 1000 (setTimeout mount_loaded 500 b).

(** The page when it has just been mounted at time [t0]. *)
Definition opened (t0 : Z) : Browser :=
  onMount {| page := initial_page; timers := []; clock := t0;
             next_handle := 1; visited := [] |}.

(** Which of two timers runs first: the one that is due first, and when both
    are due at the same time the one that was set, or set again, first: the
    list of the timers is in that order. *)
Definition runs_before (a b : Timer) : bool := timer_due a <=? timer_due b.

Fixpoint earliest (ts : list Timer) : option Timer :=
  match ts with
  | [] => None
  | t :: ts' =>
      match earliest ts' with
      | None => Some t
      | Some u => if runs_before t u then Some t else Some u
      end
  end.

(** The first part of the run of the timer [t]: the clock is at its due time,
    a timeout is spent and an interval is set again one period later. *)
Definition rearm (t : Timer) (b : Browser) : Browser :=
  let others := filter (fun u => negb (Nat.eqb (timer_handle u) (timer_handle t)))
                       (timers b) in
  {| page := page b;
     timers := match timer_repeat t with
               | Some period =>
                   (others ++ [{| timer_handle := timer_handle t;
                                  timer_due := timer_due t + period;
                                  timer_repeat := timer_repeat t;
                                  timer_callback := timer_callback t |}])%list
               | None => others
               end;
     clock := Z.max (clock b) (timer_due t);
     next_handle := next_handle b;
     visited := visited b |}.

(** The closure of the interval with the handle [h] keeps its variables. *)
Definition keep_closure (h : nat) (closure : Callback) (b : Browser) : Browser :=
  set_timers (map (fun u => if Nat.eqb (timer_handle u) h
                            then {| timer_handle := timer_handle u;
                                    timer_due := timer_due u;
                                    timer_repeat := timer_repeat u;
                                    timer_callback := closure |}
                            else u)) b.

(** The timer [t] runs: it is set again or spent, then its callback runs (it
    may clear its own interval). *)
Definition fire (t : Timer) (b : Browser) : Browser :=
  let '(b2, closure) := run_callback (timer_callback t) (rearm t b) in
  keep_closure (timer_handle t) closure b2.

(** What the visitor does on the two halves of the page. *)
Inductive UserEvent : Type :=
| mouseenter_left
| mouseleave_left
| click_left
| keydown_left (key : string)
| mouseenter_right
| mouseleave_right
| click_right
| keydown_right (key : string).

Definition dispatch (ev : UserEvent) (b : Browser) : Browser :=
  match ev with
  | mouseenter_left => set_page (with_leftHovered true) b
  | mouseleave_left => set_page (with_leftHovered false) b
  | click_left => handleDubClick b
  | keydown_left key => if String.eqb key "Enter" then handleDubClick b else b
  | mouseenter_right => set_page (with_rightHovered true) b
  | mouseleave_right => set_page (with_rightHovered false) b
  | click_right => handleSyncClick b
  | keydown_right key => if String.eqb key "Enter" then handleSyncClick b else b
  end.

Definition at_time (time : Z) (b : Browser) : Browser :=
  {| page := page b; timers := timers b; clock := time;
     next_handle := next_handle b; visited := visited b |}.

(** The timer [t] may run next: no pending timer is due before it. *)
Definition runs_first (t : Timer) (b : Browser) : Prop :=
  In t (timers b) /\ forall u, In u (timers b) -> timer_due t <= timer_due u.

(** One step of the page: a timer that is due first runs, or the visitor
    does something at a time at which no timer is overdue. *)
Inductive page_step : Browser -> Browser -> Prop :=
| step_timer (b : Browser) (t : Timer) :
    runs_first t b -> page_step b (fire t b)
| step_user (b : Browser) (ev : UserEvent) (time : Z) :
    clock b <= time ->
    Forall (fun t => time <= timer_due t) (timers b) ->
    page_step b (dispatch ev (at_time time b)).

(** The states of a page that was mounted at [t0]. *)
Inductive page_reaches (t0 : Z) : Browser -> Prop :=
| reaches_opened : page_reaches t0 (opened t0)
| reaches_step (b b' : Browser) :
    page_reaches t0 b -> page_step b b' -> page_reaches t0 b'.

(** The timers run one after the other, [n] of them at most. *)
Fixpoint run_timers (n : nat) (b : Browser) : Browser :=
  match n with
  | O => b
  | S n' =>
      match earliest (timers b) with
      | Some t => run_timers n' (fire t b)
      | None => b
      end
  end.

(** The typed text, the interval and the full text of a side of the page. *)
Definition typedText (isLeft : bool) (p : Page) : string :=
  if isLeft then leftTypedText p else rightTypedText p.

Definition typingInterval (isLeft : bool) (p : Page) : option nat :=
  if isLeft then leftTypingInterval p else rightTypingInterval p.

Definition fullText (isLeft : bool) : string :=
  if isLeft then leftFullText else rightFullText.

(** The callback of an interval called [k] times, the closure keeping its
    variables from one call to the next. *)
Fixpoint ticks (k : nat) (cb : Callback) (b : Browser) : Browser * Callback :=
  match k with
  | O => (b, cb)
  | S k' => let '(b', cb') := ticks k' cb b in run_callback cb' b'
  end.

(** A timer set by the script is not overdue, has a handle that was given
    out, and when it is a typing interval it is the one that the variable of
    its side holds, it types the text of its side, it repeats every 50
    milliseconds and what it has typed so far is what the page shows; the
    other timers are timeouts. *)
Definition timer_ok (b : Browser) (t : Timer) : Prop :=
  clock b <= timer_due t
  /\ (timer_handle t < next_handle b)%nat
  /\ match timer_callback t with
     | typing isLeft text currentIndex =>
         typingInterval isLeft (page b) = Some (timer_handle t)
         /\ text = fullText isLeft
         /\ (currentIndex <= String.length text)%nat
         /\ typedText isLeft (page b) = substring 0 currentIndex text
         /\ timer_repeat t = Some 50
     | _ => timer_repeat t = None
     end.

(** A timer with the callback [cb] is pending and due within [bound]
    milliseconds. *)
Definition pending (cb : Callback) (bound : Z) (b : Browser) : Prop :=
  exists t, In t (timers b) /\ timer_callback t = cb /\ timer_due t <= clock b + bound.

(** What the timers and the variables of the page have to do with each
    other: every timer is valid, no two timers have the same handle, the
    interval that a side holds is pending, and what a side shows is the
    beginning of its text. *)
Definition timers_ok (b : Browser) : Prop :=
  Forall (timer_ok b) (timers b)
  /\ NoDup (map timer_handle (timers b))
  /\ (forall isLeft h,
         typingInterval isLeft (page b) = Some h ->
         exists t currentIndex,
           In t (timers b) /\ timer_handle t = h
           /\ timer_callback t = typing isLeft (fullText isLeft) currentIndex)
  /\ (forall isLeft,
         exists n, (n <= String.length (fullText isLeft))%nat
                   /\ typedText isLeft (page b) = substring 0 n (fullText isLeft)).

Definition page_invariant (b : Browser) : Prop :=
  timers_ok b
  /\ (showComingSoon (page b) = true -> pending coming_soon_off 5000 b)
  /\ (logoFlickering (page b) = true -> pending flicker_off 3000 b).

(** No pending timer has the handle [h], and [h] was given out. *)
Definition handle_spent (h : nat) (b : Browser) : Prop :=
  Forall (fun u => timer_handle u <> h) (timers b) /\ (h < next_handle b)%nat.

Definition is_typing (cb : Callback) : bool :=
  match cb with
  | typing _ _ _ => true
  | _ => false
  end.

(** The timers without the one that the handle [h] names, if it names
    one. *)
Definition without (h : option nat) (ts : list Timer) : list Timer :=
  match h with
  | Some h => filter (fun u => negb (Nat.eqb (timer_handle u) h)) ts
  | None => ts
  end.

(** ** What the page does when: notions for the timeline

    The timers that the script has pending, by their callbacks, and how far
    the two chains of timers that [onMount] starts have got. *)

(** No pending timer has the callback [c]. *)
Definition lacks (c : Callback) (b : Browser) : Prop :=
  forall u, In u (timers b) -> timer_callback u <> c.

(** One pending timer has the callback [c], and it is due at [due]. *)
Definition only (c : Callback) (due : Z) (b : Browser) : Prop :=
  exists t, In t (timers b) /\ timer_callback t = c /\ timer_due t = due
            /\ forall u, In u (timers b) -> timer_callback u = c -> u = t.

(** The timers with a callback of the kind [K] are the same in [b] and in
    [b']. *)
Definition keeps (K : Callback -> Prop) (b b' : Browser) : Prop :=
  forall u, K (timer_callback u) -> (In u (timers b') <-> In u (timers b)).

(** The timer that [setTimeout] or [setInterval] makes. *)
Definition new_timer (h : nat) (due : Z) (period : option Z) (cb : Callback) : Timer :=
  {| timer_handle := h; timer_due := due; timer_repeat := period; timer_callback := cb |}.

(** The timers of [b'] are those of [b] without [t], and the new ones. *)
Definition replaced (t : Timer) (new : Timer -> Prop) (b b' : Browser) : Prop :=
  forall u, In u (timers b') <-> (In u (timers b) /\ u <> t) \/ new u.

(** A side on which nothing has been typed yet. *)
Definition not_started (isLeft : bool) (b : Browser) : Prop :=
  typingInterval isLeft (page b) = None /\ typedText isLeft (page b) = "".

(** A side on which the typing started at [start]: its interval has typed
    [i] characters and is due for the next one, or it is done. *)
Definition types (start : Z) (isLeft : bool) (b : Browser) : Prop :=
  (exists t i, In t (timers b)
               /\ timer_callback t = typing isLeft (fullText isLeft) i
               /\ timer_due t = start + 50 * (Z.of_nat i + 1)
               /\ start + 50 * Z.of_nat i <= clock b)
  \/ (typingInterval isLeft (page b) = None
      /\ typedText isLeft (page b) = fullText isLeft
      /\ start + 50 * (Z.of_nat (String.length (fullText isLeft)) + 1) <= clock b).

(** Where the first [onMount] callback and what it sets off have got to. *)
Definition loading (t0 : Z) (b : Browser) : Prop :=
  (only mount_loaded (t0 + 500) b /\ lacks auto_typing b /\ lacks type_right b
   /\ isLoaded (page b) = false /\ not_started true b /\ not_started false b)
  \/ (lacks mount_loaded b /\ only auto_typing (t0 + 2500) b /\ lacks type_right b
      /\ isLoaded (page b) = true /\ not_started true b /\ not_started false b
      /\ t0 + 500 <= clock b)
  \/ (lacks mount_loaded b /\ lacks auto_typing b /\ isLoaded (page b) = true
      /\ t0 + 2500 <= clock b /\ types (t0 + 2500) true b
      /\ ((only type_right (t0 + 3000) b /\ not_started false b)
          \/ (lacks type_right b /\ t0 + 3000 <= clock b
              /\ types (t0 + 3000) false b))).

(** Where the second [onMount] callback and what it sets off have got to. *)
Definition flickering (t0 : Z) (b : Browser) : Prop :=
  (only mount_flicker (t0 + 1000) b /\ lacks flicker_off b
   /\ logoFlickering (page b) = false)
  \/ (lacks mount_flicker b /\ only flicker_off (t0 + 4000) b
      /\ logoFlickering (page b) = true /\ t0 + 1000 <= clock b)
  \/ (lacks mount_flicker b /\ lacks flicker_off b
      /\ logoFlickering (page b) = false /\ t0 + 4000 <= clock b).

(** The callback of a typing interval of a side. *)
Definition on_side (isLeft : bool) (k : Callback) : Prop :=
  exists text i, k = typing isLeft text i.

(** The callbacks of the timers that the two chains of [onMount] set. *)
Definition in_loading (k : Callback) : Prop :=
  k = mount_loaded \/ k = auto_typing \/ k = type_right \/ is_typing k = true.

Definition in_flickering (k : Callback) : Prop :=
  k = mount_flicker \/ k = flicker_off.

(** When the typing starts on a side of a page that was mounted at [t0]:
    500 + 2000 milliseconds later on the left, 500 more on the right. *)
Definition typing_starts (t0 : Z) (isLeft : bool) : Z :=
  if isLeft then t0 + 2500 else t0 + 3000.

(** A callback that is not of the kind in question. *)
Ltac other_kind :=
  cbn [new_timer timer_callback];
  unfold in_loading, in_flickering, on_side, is_typing;
  repeat match goal with
         | |- ~ _ => intros ?
         | H : _ \/ _ |- _ => destruct H
         | H : exists _, _ |- _ => destruct H
         end;
  try discriminate; try congruence.

(** ** Concrete inputs for the further properties *)

(** A network that answers [200 OK] with a body that is not JSON. *)
Definition garbled : Network DubbingPipelineStatus :=
  fun _ _ =>
    {| settles_after := 150;
       settles_with := Normal (Response_ok 200 "OK"
                                 (Throws (Thrown_Error "SyntaxError"
                                            "Unexpected end of JSON input"))) |}.

(** An upload that the storage refuses. *)
Definition a_refused_transfer : Upload :=
  {| reports := [report 1000 3000];
     finishes_after := 700;
     finishes_with := ends_load 403 "Forbidden" |}.

(** An upload on a connection that breaks. *)
Definition a_broken_transfer : Upload :=
  {| reports := [];
     finishes_after := 2000;
     finishes_with := ends_error |}.

(** A page that was mounted at 0 and on which the visitor moves the mouse
    over the left half after 2730 milliseconds, when seven timers have
    run. *)
Definition a_page_while_typing : Browser :=
  dispatch mouseenter_left (at_time 2730 (run_timers 7 (opened 0))).

(** A page that was mounted at 0 and whose right half is clicked after 6
    seconds, when all its timers have run. *)
Definition a_page_after_a_click : Browser :=
  dispatch click_right (at_time 6000 (run_timers 70 (opened 0))).

(** A page that was mounted at 0 and whose left half is clicked after 100
    milliseconds. *)
Definition a_page_left_for_dubbing : Browser :=
  dispatch click_left (at_time 100 (opened 0)).

(** ** Tactics for the further properties *)

Ltac last_event :=
  match goal with
  | |- exists t ev, [?a; ?b; ?c] = _ /\ _ => exists [a; b], c
  | |- exists t ev, [?a; ?b] = _ /\ _ => exists [a], b
  | |- exists t ev, [?a] = _ /\ _ => exists [], a
  end.

(** A fact about both sides of the page, by cases. *)
Ltac sides := intros side; destruct side; reflexivity.

(** An event of the visitor at [time] is a step of a page on which no timer
    is due before [time]. *)
Ltac user_step :=
  apply step_user;
  [vm_compute; discriminate
  | vm_compute; repeat (apply Forall_cons; [discriminate|]); apply Forall_nil].
(** * Properties *)

(** ** The request helper *)

Lemma prepareUpload_request (Req Resp : Type) (stringify : Req -> string)
    (this : ApiClient) (net : Network Resp) (req : Req) :
  prepareUpload Req Resp stringify this net req
  = request this net "/api/uniframe/dubbing/prepare" (POST (stringify req)).
Proof. reflexivity. Qed.

Lemma startPipeline_request (Req Resp : Type) (stringify : Req -> string)
    (this : ApiClient) (net : Network Resp) (req : Req) :
  startPipeline Req Resp stringify this net req
  = request this net "/api/uniframe/dubbing/start" (POST (stringify req)).
Proof. reflexivity. Qed.

Lemma getPipelineStatus_request (this : ApiClient)
    (net : Network DubbingPipelineStatus) (pipelineId : string) :
  getPipelineStatus this net pipelineId
  = request this net ("/api/uniframe/dubbing/" ++ pipelineId ++ "/status") GET.
Proof. reflexivity. Qed.

(** The request helper, by what [fetch] gave it. *)
Lemma request_received {T} (this : ApiClient) (net : Network T)
    (endpoint : string) (options : RequestInit) (response : Response T) :
  fetch net (request_url this endpoint) (request_config options) API_TIMEOUT
    = Normal response ->
  request this net endpoint options =
  match response with
  | Response_ok _ _ (Normal v) => Normal v
  | Response_ok _ _ (Throws (Thrown_ApiClientError a)) =>
      Throws (Thrown_ApiClientError a)
  | Response_ok _ _ (Throws (Thrown_Error name msg)) =>
      if String.eqb name "AbortError"
      then Throws (Thrown_ApiClientError
                     (new_ApiClientError "TIMEOUT" "Request timeout" None))
      else Throws (Thrown_ApiClientError
                     (new_ApiClientError "NETWORK_ERROR" ("Network error: " ++ msg) None))
  | Response_ok _ _ (Throws Thrown_value) =>
      Throws (Thrown_ApiClientError
                (new_ApiClientError "UNKNOWN_ERROR" "Unknown error occurred" None))
  | Response_not_ok st txt (Throws _) =>
      Throws (Thrown_ApiClientError
                (new_ApiClientError "UNKNOWN_ERROR"
                   ("HTTP " ++ Number_toString st ++ ": " ++ txt) (Some st)))
  | Response_not_ok _ _ (Normal Json_null) =>
      Throws (Thrown_ApiClientError
                (new_ApiClientError "NETWORK_ERROR"
                   ("Network error: " ++ "Cannot read properties of null (reading 'code')")
                   None))
  | Response_not_ok st _ (Normal data) =>
      Throws (Thrown_ApiClientError
                (new_ApiClientError (property data "code")
                                    (Error_message (property data "message"))
                                    (Some st)))
  end.
Proof.
  intros Hfetch. unfold request. rewrite Hfetch. simpl.
  destruct response as [st txt [v | [a | name msg | ]] | st txt [[] | e]];
    reflexivity.
Qed.

(** C5: a non-success response with a well-formed [{code, message}] body, a
    value whose properties [code] and [message] are strings, is surfaced
    with exactly that code and message (and the HTTP status); one whose body
    cannot be read as JSON is surfaced as [UNKNOWN_ERROR] with a message that
    contains the numeric status. *)
Theorem request_non_success_response {T} (this : ApiClient) (net : Network T)
    (endpoint : string) (options : RequestInit)
    (response_status : Z) (statusText : string) (json : Completion Json) :
  fetch net (request_url this endpoint) (request_config options) API_TIMEOUT
    = Normal (Response_not_ok response_status statusText json) ->
  (forall j c m,
      json = Normal j -> property j "code" = str c -> property j "message" = str m ->
      request this net endpoint options
      = Throws (Thrown_ApiClientError (new_ApiClientError c m (Some response_status))))
  /\
  (forall e,
      json = Throws e ->
      exists msg,
        request this net endpoint options
        = Throws (Thrown_ApiClientError
                    (new_ApiClientError "UNKNOWN_ERROR" msg (Some response_status)))
        /\ contains msg (Number_toString response_status)).
Proof.
  intros Hfetch. split.
  - intros j c m -> Hc Hm. rewrite (request_received _ _ _ _ _ Hfetch).
    destruct j; try discriminate Hc. rewrite Hc, Hm. reflexivity.
  - intros e ->. rewrite (request_received _ _ _ _ _ Hfetch).
    eexists. split; [reflexivity|].
    exists "HTTP ", (": " ++ statusText). reflexivity.
Qed.

(** A fetch that is still pending when the timer runs is surfaced as
    [TIMEOUT]. *)
Lemma request_timeout {T} (this : ApiClient) (net : Network T)
    (endpoint : string) (options : RequestInit) :
  API_TIMEOUT < settles_after (net (request_url this endpoint) (request_config options)) ->
  request this net endpoint options
  = Throws (Thrown_ApiClientError (new_ApiClientError "TIMEOUT" "Request timeout" None)).
Proof.
  intros Hlate. unfold request, fetch.
  apply Z.ltb_lt in Hlate. rewrite Hlate. reflexivity.
Qed.

(** Whatever [fetch] does, the request helper returns a value or throws an
    [ApiClientError]. *)
Lemma request_throws_ApiClientError {T} (this : ApiClient) (net : Network T)
    (endpoint : string) (options : RequestInit) (e : Thrown) :
  request this net endpoint options = Throws e -> is_ApiClientError e.
Proof.
  unfold request.
  destruct (fetch net (request_url this endpoint) (request_config options) API_TIMEOUT)
    as [[st txt [v | e0] | st txt [j | e0]] | e0]; simpl.
  - discriminate.
  - destruct e0 as [a | name msg | ]; [| destruct (String.eqb name "AbortError") | ];
      intros [= <-]; eexists; reflexivity.
  - destruct j; simpl; intros [= <-]; eexists; reflexivity.
  - intros [= <-]; eexists; reflexivity.
  - destruct e0 as [a | name msg | ]; [| destruct (String.eqb name "AbortError") | ];
      intros [= <-]; eexists; reflexivity.
Qed.

(** ** [uploadFile] *)

Lemma fold_progress (onProgress : bool) (evs : list ProgressEvent) (r : UploadRun) :
  fold_left (handle onProgress) (map progress evs) r
  = {| progress_calls := (progress_calls r ++ reported onProgress evs)%list;
       settled := settled r |}.
Proof.
  revert r. induction evs as [| ev evs IH]; intros [calls st]; simpl.
  - unfold reported. destruct onProgress; simpl; rewrite app_nil_r; reflexivity.
  - rewrite IH. unfold reported. simpl.
    destruct (lengthComputable ev), onProgress; simpl;
      rewrite <- ?app_assoc, ?app_nil_r; reflexivity.
Qed.

(** [uploadFile] passes on the progress reports, then handles the event that
    ends the transfer. *)
Lemma uploadFile_run (uploadUrl : string) (file : File) (onProgress : bool) (u : Upload) :
  uploadFile uploadUrl file onProgress u
  = handle onProgress
      {| progress_calls := reported onProgress (reports u); settled := None |}
      (if 600000 <? finishes_after u then timeout else ending_event (finishes_with u)).
Proof.
  unfold uploadFile, dispatched. rewrite fold_left_app, fold_progress. reflexivity.
Qed.

Lemma uploadFile_progress_calls (uploadUrl : string) (file : File) (onProgress : bool)
    (u : Upload) :
  progress_calls (uploadFile uploadUrl file onProgress u)
  = reported onProgress (reports u).
Proof.
  rewrite uploadFile_run.
  destruct (600000 <? finishes_after u); [reflexivity|].
  destruct (finishes_with u) as [st txt | | ]; simpl; try reflexivity.
  destruct ((200 <=? st) && (st <? 300)); reflexivity.
Qed.

(** C6: a call that exceeds its time budget (30 seconds for a call through
    the request helper, which [prepareUpload], [startPipeline] and
    [getPipelineStatus] are; 10 minutes for [uploadFile]) fails with code
    [TIMEOUT], respectively [UPLOAD_TIMEOUT], not with [NETWORK_ERROR] or
    [UPLOAD_ERROR]. *)
Theorem timeout_is_surfaced_as_timeout :
  (forall (T : Type) (this : ApiClient) (net : Network T)
          (endpoint : string) (options : RequestInit),
      30000 < settles_after (net (request_url this endpoint) (request_config options)) ->
      exists a,
        request this net endpoint options = Throws (Thrown_ApiClientError a)
        /\ code a = "TIMEOUT" /\ code a <> "NETWORK_ERROR")
  /\
  (forall (uploadUrl : string) (file : File) (onProgress : bool) (u : Upload),
      600000 < finishes_after u ->
      exists a,
        settled (uploadFile uploadUrl file onProgress u)
        = Some (Throws (Thrown_ApiClientError a))
        /\ code a = "UPLOAD_TIMEOUT" /\ code a <> "UPLOAD_ERROR").
Proof.
  split.
  - intros T this net endpoint options Hlate.
    eexists. split; [apply request_timeout; exact Hlate|].
    split; [reflexivity | discriminate].
  - intros uploadUrl file onProgress u Hlate.
    rewrite uploadFile_run. apply Z.ltb_lt in Hlate. rewrite Hlate.
    eexists. split; [reflexivity|]. split; [reflexivity | discriminate].
Qed.


(** ** The arithmetic of the percentage *)

Section Doubles.

Local Open Scope Q_scope.

Lemma pow2_pos z : 0 < pow2 z.
Proof. apply Qpower_0_lt. reflexivity. Qed.

Lemma pow2_add a b : pow2 (a + b) == pow2 a * pow2 b.
Proof. apply Qpower_plus. discriminate. Qed.

Lemma pow2_le a b : (a <= b)%Z -> pow2 a <= pow2 b.
Proof. intros H. apply Qpower_le_compat_l; [exact H | discriminate]. Qed.

Lemma pow2_lt_inv a b : pow2 a < pow2 b -> (a < b)%Z.
Proof. intros H. apply (Qpower_lt_compat_l_inv 2); [exact H | reflexivity]. Qed.

Lemma pow2_Z n : (0 <= n)%Z -> pow2 n == inject_Z (2 ^ n).
Proof. intros H. unfold pow2. rewrite Zpower_Qpower by exact H. reflexivity. Qed.

Lemma ilog2_spec x : 0 < x -> pow2 (ilog2 x) <= x /\ x < pow2 (ilog2 x + 1).
Proof.
intros Hx. destruct x as [n d]. 
assert (Hn : (0 < n)%Z) by (unfold Qlt in Hx; simpl in Hx; lia).
unfold ilog2. simpl Qnum. simpl Qden.
set (a := Z.log2 n). set (b := Z.log2 (Z.pos d)).
destruct (Z.log2_spec n Hn) as [Ha1 Ha2]. fold a in Ha1, Ha2.
destruct (Z.log2_spec (Z.pos d) eq_refl) as [Hb1 Hb2]. fold b in Hb1, Hb2.
assert (Ha0 : (0 <= a)%Z) by apply Z.log2_nonneg.
assert (Hb0 : (0 <= b)%Z) by apply Z.log2_nonneg.
assert (Hd : 0 < inject_Z (Z.pos d)) by reflexivity.
assert (Hx' : n # d == inject_Z n / inject_Z (Z.pos d)) by apply Qmake_Qdiv.
assert (Hup : n # d < pow2 (a - b + 1)).
{ rewrite Hx'. apply Qlt_shift_div_r; [exact Hd|].
  apply Qlt_le_trans with (pow2 (a + 1)).
  - rewrite pow2_Z by lia. rewrite <- Zlt_Qlt. replace (a + 1)%Z with (Z.succ a) by lia. exact Ha2.
  - replace (a + 1)%Z with ((a - b + 1) + b)%Z by lia. rewrite pow2_add.
    apply Qmult_le_l; [apply pow2_pos|]. rewrite pow2_Z by lia. rewrite <- Zle_Qle. exact Hb1. }
assert (Hlow : pow2 (a - b - 1) <= n # d).
{ rewrite Hx'. apply Qle_shift_div_l; [exact Hd|].
  apply Qle_trans with (pow2 a).
  - replace a with ((a - b - 1) + (b + 1))%Z at 2 by lia. rewrite pow2_add.
    apply Qmult_le_l; [apply pow2_pos|]. rewrite pow2_Z by lia. rewrite <- Zle_Qle.
    replace (b + 1)%Z with (Z.succ b) by lia. lia.
  - rewrite pow2_Z by lia. rewrite <- Zle_Qle. exact Ha1. }
destruct (Qle_bool (pow2 (a - b)) (n # d)) eqn:E.
- apply Qle_bool_iff in E. split; assumption.
- split; [exact Hlow|]. replace (a - b - 1 + 1)%Z with (a - b)%Z by lia.
  apply Qnot_le_lt. intros H. apply Qle_bool_iff in H. congruence.
Qed.

Lemma ilog2_mono x y : 0 < x -> x <= y -> (ilog2 x <= ilog2 y)%Z.
Proof.
intros Hx Hxy.
assert (Hy : 0 < y) by (apply Qlt_le_trans with x; assumption).
destruct (ilog2_spec x Hx) as [Hx1 _]. destruct (ilog2_spec y Hy) as [_ Hy2].
assert (H : pow2 (ilog2 x) < pow2 (ilog2 y + 1)).
{ apply Qle_lt_trans with x; [exact Hx1|]. apply Qle_lt_trans with y; assumption. }
apply pow2_lt_inv in H. lia.
Qed.

Lemma round_half_even_floor q :
(Qfloor q <= round_half_even q <= Qfloor q + 1)%Z.
Proof.
unfold round_half_even.
destruct (q - inject_Z (Qfloor q) ?= 1 # 2); [destruct (Z.even (Qfloor q))| |]; lia.
Qed.

Lemma round_half_even_Z n : round_half_even (inject_Z n) = n.
Proof.
unfold round_half_even. rewrite Qfloor_Z.
destruct (Qcompare_spec (inject_Z n - inject_Z n) (1 # 2)) as [H | H | H].
- exfalso. lra.
- reflexivity.
- exfalso. lra.
Qed.

Lemma round_half_even_mono p q : p <= q -> (round_half_even p <= round_half_even q)%Z.
Proof.
intros Hpq.
pose proof (Qfloor_resp_le _ _ Hpq) as Hf.
destruct (Z.eq_dec (Qfloor p) (Qfloor q)) as [E | NE].
- unfold round_half_even. rewrite E.
  destruct (Qcompare_spec (p - inject_Z (Qfloor q)) (1 # 2)) as [H1 | H1 | H1];
    destruct (Qcompare_spec (q - inject_Z (Qfloor q)) (1 # 2)) as [H2 | H2 | H2];
    try destruct (Z.even (Qfloor q)); try lia; exfalso; lra.
- pose proof (round_half_even_floor p). pose proof (round_half_even_floor q). lia.
Qed.

Lemma binary64_pos_scaled x :
0 < x ->
inject_Z (2 ^ 52) <= x / pow2 (ilog2 x - 52) /\ x / pow2 (ilog2 x - 52) <= inject_Z (2 ^ 53).
Proof.
intros Hx. destruct (ilog2_spec x Hx) as [H1 H2].
pose proof (pow2_pos (ilog2 x - 52)) as Hu.
split.
- apply Qle_shift_div_l; [exact Hu|].
  rewrite <- pow2_Z by lia. rewrite <- pow2_add.
  replace (52 + (ilog2 x - 52))%Z with (ilog2 x) by lia. exact H1.
- apply Qle_shift_div_r; [exact Hu|].
  rewrite <- pow2_Z by lia. rewrite <- pow2_add.
  replace (53 + (ilog2 x - 52))%Z with (ilog2 x + 1)%Z by lia. apply Qlt_le_weak, H2.
Qed.

Lemma binary64_pos_bounds x :
0 < x -> pow2 (ilog2 x) <= binary64_pos x /\ binary64_pos x <= pow2 (ilog2 x + 1).
Proof.
intros Hx. destruct (binary64_pos_scaled x Hx) as [H1 H2].
pose proof (pow2_pos (ilog2 x - 52)) as Hu.
apply round_half_even_mono in H1, H2. rewrite round_half_even_Z in H1, H2.
unfold binary64_pos. split.
- replace (ilog2 x) with (52 + (ilog2 x - 52))%Z at 1 by lia.
  rewrite pow2_add. apply Qmult_le_compat_r; [|apply Qlt_le_weak, Hu].
  rewrite (pow2_Z 52) by lia. rewrite <- Zle_Qle. exact H1.
- replace (ilog2 x + 1)%Z with (53 + (ilog2 x - 52))%Z by lia.
  rewrite pow2_add. apply Qmult_le_compat_r; [|apply Qlt_le_weak, Hu].
  rewrite (pow2_Z 53) by lia. rewrite <- Zle_Qle. exact H2.
Qed.

Lemma binary64_pos_mono x y : 0 < x -> x <= y -> binary64_pos x <= binary64_pos y.
Proof.
intros Hx Hxy.
assert (Hy : 0 < y) by (apply Qlt_le_trans with x; assumption).
pose proof (ilog2_mono x y Hx Hxy) as He.
destruct (Z.eq_dec (ilog2 x) (ilog2 y)) as [E | NE].
- unfold binary64_pos. rewrite E.
  pose proof (pow2_pos (ilog2 y - 52)) as Hu.
  apply Qmult_le_compat_r; [|apply Qlt_le_weak, Hu].
  rewrite <- Zle_Qle. apply round_half_even_mono.
  apply Qmult_le_compat_r; [exact Hxy|]. apply Qlt_le_weak, Qinv_lt_0_compat, Hu.
- apply Qle_trans with (pow2 (ilog2 x + 1)); [apply binary64_pos_bounds, Hx|].
  apply Qle_trans with (pow2 (ilog2 y)); [|apply binary64_pos_bounds, Hy].
  apply pow2_le. lia.
Qed.

Lemma binary64_nonneg x : 0 <= x -> 0 <= binary64 x.
Proof.
intros Hx. unfold binary64.
destruct (Qcompare_spec x 0) as [H | H | H].
- apply Qle_refl.
- exfalso. lra.
- apply Qle_trans with (pow2 (ilog2 x)); [apply Qlt_le_weak, pow2_pos|].
  apply binary64_pos_bounds, H.
Qed.

Lemma binary64_mono x y : 0 <= x -> x <= y -> binary64 x <= binary64 y.
Proof.
intros Hx Hxy. unfold binary64 at 1.
destruct (Qcompare_spec x 0) as [H | H | H].
- apply binary64_nonneg. lra.
- exfalso. lra.
- unfold binary64. destruct (Qcompare_spec y 0) as [H' | H' | H']; try (exfalso; lra).
  apply binary64_pos_mono; assumption.
Qed.

Lemma binary64_1 : binary64 1 == 1.
Proof. vm_compute. reflexivity. Qed.

Lemma binary64_100 : binary64 100 == 100.
Proof. vm_compute. reflexivity. Qed.

Lemma Math_round_mono x y : x <= y -> (Math_round x <= Math_round y)%Z.
Proof. intros H. apply Qfloor_resp_le. lra. Qed.

Lemma quotient_bounds l t :
(0 <= l <= t)%Z -> (0 < t)%Z -> 0 <= inject_Z l / inject_Z t /\ inject_Z l / inject_Z t <= 1.
Proof.
intros [H0 H1] Ht.
assert (HtQ : 0 < inject_Z t) by (rewrite <- (Zlt_Qlt 0); exact Ht).
split.
- apply Qle_shift_div_l; [exact HtQ|]. rewrite Qmult_0_l. rewrite <- (Zle_Qle 0). exact H0.
- apply Qle_shift_div_r; [exact HtQ|]. rewrite Qmult_1_l. rewrite <- Zle_Qle. exact H1.
Qed.

Lemma quotient_mono l1 l2 t :
(l1 <= l2)%Z -> (0 < t)%Z -> inject_Z l1 / inject_Z t <= inject_Z l2 / inject_Z t.
Proof.
intros H Ht.
assert (HtQ : 0 < inject_Z t) by (rewrite <- (Zlt_Qlt 0); exact Ht).
apply Qmult_le_compat_r; [rewrite <- Zle_Qle; exact H|].
apply Qlt_le_weak, Qinv_lt_0_compat, HtQ.
Qed.

Lemma product_bounds l t : (0 <= l <= t)%Z -> (0 < t)%Z -> 0 <= double_mul (double_div (inject_Z l) (inject_Z t)) 100 /\ double_mul (double_div (inject_Z l) (inject_Z t)) 100 <= 100.
Proof.
intros Hl Ht. destruct (quotient_bounds l t Hl Ht) as [H0 H1].
pose proof (binary64_nonneg _ H0) as Hq0.
pose proof (binary64_mono _ _ H0 H1) as Hq1. rewrite binary64_1 in Hq1.
unfold double_mul, double_div. split.
- apply binary64_nonneg. lra.
- apply Qle_trans with (binary64 100); [apply binary64_mono; lra|].
  rewrite binary64_100. apply Qle_refl.
Qed.

Lemma product_mono l1 l2 t :
(0 <= l1 <= l2)%Z -> (0 < t)%Z -> double_mul (double_div (inject_Z l1) (inject_Z t)) 100 <= double_mul (double_div (inject_Z l2) (inject_Z t)) 100.
Proof.
intros [H0 H] Ht. unfold double_mul, double_div.
assert (Hq0 : 0 <= inject_Z l1 / inject_Z t).
{ assert (HtQ : 0 < inject_Z t) by (rewrite <- (Zlt_Qlt 0); exact Ht).
  apply Qle_shift_div_l; [exact HtQ|]. rewrite Qmult_0_l. rewrite <- (Zle_Qle 0). exact H0. }
pose proof (binary64_nonneg _ Hq0) as Hb0.
pose proof (binary64_mono _ _ Hq0 (quotient_mono l1 l2 t H Ht)) as Hb.
apply binary64_mono; lra.
Qed.

Lemma percentage_value l t :
(0 < t)%Z -> percentage l t = Num (Math_round (double_mul (double_div (inject_Z l) (inject_Z t)) 100)).
Proof.
intros Ht. unfold percentage. destruct (Z.eqb_spec t 0); [lia | reflexivity].
Qed.

Lemma Math_round_bounds x : 0 <= x -> x <= 100 -> (0 <= Math_round x <= 100)%Z.
Proof.
intros H0 H1. split.
- change 0%Z with (Math_round 0). apply Math_round_mono, H0.
- change 100%Z with (Math_round 100). apply Math_round_mono, H1.
Qed.

End Doubles.

(** ** The percentage: how far the doubles are from the exact value *)

Section DoublesError.

Local Open Scope Q_scope.

Lemma binary64_eq x y : 0 <= x -> x == y -> binary64 x == binary64 y.
Proof.
  intros Hx Hxy. apply Qle_antisym; apply binary64_mono; lra.
Qed.

Lemma round_half_even_error q :
  q - (1 # 2) <= inject_Z (round_half_even q) /\ inject_Z (round_half_even q) <= q + (1 # 2).
Proof.
  pose proof (Qfloor_le q) as Hlo. pose proof (Qlt_floor q) as Hhi.
  rewrite inject_Z_plus in Hhi. change (inject_Z 1) with 1 in Hhi.
  unfold round_half_even.
  destruct (Qcompare_spec (q - inject_Z (Qfloor q)) (1 # 2)) as [H | H | H].
  - destruct (Z.even (Qfloor q));
      [|rewrite inject_Z_plus; change (inject_Z 1) with 1]; split; lra.
  - split; lra.
  - rewrite inject_Z_plus. change (inject_Z 1) with 1. split; lra.
Qed.

Lemma binary64_pos_error x :
  0 < x -> x - x * (1 # 9007199254740992) <= binary64_pos x
           /\ binary64_pos x <= x + x * (1 # 9007199254740992).
Proof.
  intros Hx. destruct (ilog2_spec x Hx) as [He _].
  pose proof (pow2_pos (ilog2 x - 52)) as Hu.
  assert (Hux : pow2 (ilog2 x - 52) <= x * (1 # 4503599627370496)).
  { replace (ilog2 x - 52)%Z with (ilog2 x + -52)%Z by lia. rewrite pow2_add.
    assert (H52 : pow2 (-52) == 1 # 4503599627370496) by reflexivity.
    rewrite H52. apply Qmult_le_compat_r; [exact He | discriminate]. }
  destruct (round_half_even_error (x / pow2 (ilog2 x - 52))) as [Hlo Hhi].
  unfold binary64_pos.
  set (u := pow2 (ilog2 x - 52)) in *. set (r := inject_Z (round_half_even (x / u))) in *.
  assert (Hq : x / u * u == x) by (field; lra).
  assert (H1 : (x / u - (1 # 2)) * u <= r * u)
    by (apply Qmult_le_compat_r; [exact Hlo | lra]).
  assert (H2 : r * u <= (x / u + (1 # 2)) * u)
    by (apply Qmult_le_compat_r; [exact Hhi | lra]).
  assert (E1 : (x / u - (1 # 2)) * u == x - (1 # 2) * u) by (rewrite <- Hq at 2; ring).
  assert (E2 : (x / u + (1 # 2)) * u == x + (1 # 2) * u) by (rewrite <- Hq at 2; ring).
  rewrite E1 in H1. rewrite E2 in H2. split; lra.
Qed.

Lemma binary64_error x :
  0 <= x -> x - x * (1 # 9007199254740992) <= binary64 x
            /\ binary64 x <= x + x * (1 # 9007199254740992).
Proof.
  intros Hx. unfold binary64.
  destruct (Qcompare_spec x 0) as [H | H | H].
  - split; lra.
  - exfalso. lra.
  - apply binary64_pos_error, H.
Qed.

Lemma product_error l t :
  (0 <= l <= t)%Z -> (0 < t)%Z ->
  let exact := 100 * (inject_Z l / inject_Z t) in
  exact - (200 # 9007199254740992)
  <= double_mul (double_div (inject_Z l) (inject_Z t)) 100
  /\ double_mul (double_div (inject_Z l) (inject_Z t)) 100
     <= exact + (200 # 9007199254740992).
Proof.
  intros Hl Ht exact. subst exact.
  destruct (quotient_bounds l t Hl Ht) as [H0 H1].
  unfold double_mul, double_div.
  set (X := inject_Z l / inject_Z t) in *.
  destruct (binary64_error X H0) as [Ha1 Ha2].
  pose proof (binary64_nonneg X H0) as Ha0.
  pose proof (binary64_mono X 1 H0 H1) as Hale. rewrite binary64_1 in Hale.
  set (a := binary64 X) in *.
  assert (Hp0 : 0 <= a * 100) by lra.
  destruct (binary64_error (a * 100) Hp0) as [Hy1 Hy2].
  split; lra.
Qed.

Lemma Math_round_error x :
  inject_Z (Math_round x) <= x + (1 # 2) /\ x - (1 # 2) < inject_Z (Math_round x).
Proof.
  unfold Math_round.
  pose proof (Qfloor_le (x + (1 # 2))) as Hlo. pose proof (Qlt_floor (x + (1 # 2))) as Hhi.
  rewrite inject_Z_plus in Hhi. change (inject_Z 1) with 1 in Hhi. split; lra.
Qed.

End DoublesError.

(** For a total below 2^44 the two roundings of the doubles do not move the
    percentage away from an integer nearest to the exact one. *)
Lemma percentage_within_half (l t : Z) :
  0 <= l <= t -> 0 < t < 2 ^ 44 ->
  forall p, percentage l t = Num p -> Z.abs (2 * (p * t - 100 * l)) <= t.
Proof.
  intros Hl [Ht Hsmall] p Hp. rewrite percentage_value in Hp by exact Ht.
  injection Hp as Hp. revert Hp.
  set (y := double_mul (double_div (inject_Z l) (inject_Z t)) 100).
  destruct (product_error l t Hl Ht) as [Hy1 Hy2]. fold y in Hy1, Hy2.
  destruct (Math_round_error y) as [Hp1 Hp2].
  intros <-.
  set (p := Math_round y) in *.
  assert (HtQ : (0 < inject_Z t)%Q) by (rewrite <- (Zlt_Qlt 0); exact Ht).
  assert (HsQ : (inject_Z t < inject_Z (2 ^ 44))%Q) by (rewrite <- Zlt_Qlt; exact Hsmall).
  assert (Hx : (inject_Z l / inject_Z t * inject_Z t == inject_Z l)%Q) by (field; lra).
  set (X := (inject_Z l / inject_Z t)%Q) in *.
  assert (Hup : (inject_Z p * inject_Z t
                 <= (100 * X + (1 # 2) + (200 # 9007199254740992)) * inject_Z t)%Q)
    by (apply Qmult_le_compat_r; lra).
  assert (Hdn : ((100 * X - (1 # 2) - (200 # 9007199254740992)) * inject_Z t
                 <= inject_Z p * inject_Z t)%Q)
    by (apply Qmult_le_compat_r; lra).
  assert (E1 : ((100 * X + (1 # 2) + (200 # 9007199254740992)) * inject_Z t
                == 100 * inject_Z l + ((1 # 2) + (200 # 9007199254740992)) * inject_Z t)%Q)
    by (rewrite <- Hx; ring).
  assert (E2 : ((100 * X - (1 # 2) - (200 # 9007199254740992)) * inject_Z t
                == 100 * inject_Z l - ((1 # 2) + (200 # 9007199254740992)) * inject_Z t)%Q)
    by (rewrite <- Hx; ring).
  rewrite E1 in Hup. rewrite E2 in Hdn.
  change (inject_Z (2 ^ 44)) with (17592186044416 # 1)%Q in HsQ.
  assert (H1 : (inject_Z (2 * (p * t - 100 * l) - t) < inject_Z 1)%Q).
  { unfold Z.sub. rewrite ?inject_Z_plus, ?inject_Z_opp, ?inject_Z_mult,
      ?inject_Z_plus, ?inject_Z_opp, ?inject_Z_mult.
    change (inject_Z 2) with 2%Q. change (inject_Z 100) with 100%Q.
    change (inject_Z 1) with 1%Q. lra. }
  assert (H2 : (inject_Z (- (2 * (p * t - 100 * l)) - t) < inject_Z 1)%Q).
  { unfold Z.sub. rewrite ?inject_Z_plus, ?inject_Z_opp, ?inject_Z_mult,
      ?inject_Z_plus, ?inject_Z_opp, ?inject_Z_mult.
    change (inject_Z 2) with 2%Q. change (inject_Z 100) with 100%Q.
    change (inject_Z 1) with 1%Q. lra. }
  rewrite <- Zlt_Qlt in H1, H2. lia.
Qed.

(** ** Upload progress *)

Lemma percentage_is_percentage (l t : Z) :
  0 <= l <= t -> 0 < t -> is_percentage (percentage l t).
Proof.
  intros Hl Ht. rewrite percentage_value by exact Ht.
  destruct (product_bounds l t Hl Ht) as [H0 H1].
  eexists. split; [reflexivity|]. apply Math_round_bounds; assumption.
Qed.

Lemma percentage_mono (l1 l2 t : Z) :
  0 <= l1 <= l2 -> 0 < t -> Number_le (percentage l1 t) (percentage l2 t).
Proof.
  intros Hl Ht. rewrite !percentage_value by exact Ht. simpl.
  apply Math_round_mono, product_mono; assumption.
Qed.

Lemma StronglySorted_filter {A} (R : A -> A -> Prop) (p : A -> bool) (l : list A) :
  StronglySorted R l -> StronglySorted R (filter p l).
Proof.
  induction 1 as [| a l Hl IH Ha]; simpl.
  - constructor.
  - destruct (p a); [|exact IH].
    constructor; [exact IH|].
    rewrite Forall_forall in *. intros x Hx.
    apply filter_In in Hx. apply Ha, Hx.
Qed.

(** The percentages of reports of one transfer of [size] bytes, in which the
    bytes loaded never go down, never go down. *)
Lemma reported_sorted (size : Z) (evs : list ProgressEvent) :
  0 < size ->
  Forall (fun ev => total ev = size /\ 0 <= loaded ev <= size) evs ->
  StronglySorted (fun a b => loaded a <= loaded b) evs ->
  StronglySorted Number_le (map (fun ev => percentage (loaded ev) (total ev)) evs).
Proof.
  intros Hsize Hall Hsorted.
  induction Hsorted as [| a l Hl IH Ha]; simpl.
  - constructor.
  - inversion Hall as [| ? ? [Hta Hla] Hall']; subst.
    constructor; [apply IH, Hall'|].
    rewrite Forall_forall in *. intros x Hx.
    apply in_map_iff in Hx. destruct Hx as [b [<- Hb]].
    destruct (Hall' b Hb) as [Htb Hlb]. rewrite Htb.
    apply percentage_mono; [|exact Hsize].
    specialize (Ha b Hb). simpl in Ha. lia.
Qed.

(** What the callback receives for one event of a transfer of [size] bytes:
    an integer between 0 and 100, which for a size below 2^44 is an integer
    nearest to the exact percentage of the bytes loaded. *)
Lemma percentage_of_event (size : Z) (ev : ProgressEvent) :
  0 < size -> total ev = size -> 0 <= loaded ev <= size ->
  exists p, percentage (loaded ev) (total ev) = Num p
            /\ 0 <= p <= 100
            /\ (size < 2 ^ 44 -> Z.abs (2 * (p * size - 100 * loaded ev)) <= size).
Proof.
  intros Hsize Ht Hl. rewrite Ht.
  destruct (percentage_is_percentage (loaded ev) size Hl Hsize) as [p [Hp Hrange]].
  exists p. split; [exact Hp|]. split; [exact Hrange|].
  intros Hsmall. apply percentage_within_half; [exact Hl | lia | exact Hp].
Qed.

Lemma percentages_of_events (size : Z) (evs : list ProgressEvent) :
  0 < size ->
  Forall (fun ev => total ev = size /\ 0 <= loaded ev <= size) evs ->
  exists ps,
    map (fun ev => percentage (loaded ev) (total ev)) evs = map Num ps
    /\ Forall2 (fun ev p =>
                  0 <= p <= 100
                  /\ (size < 2 ^ 44 -> Z.abs (2 * (p * size - 100 * loaded ev)) <= size))
               evs ps.
Proof.
  intros Hsize Hall. induction Hall as [| ev evs [Ht Hl] _ [ps [Hps Hall2]]].
  - exists []. split; constructor.
  - destruct (percentage_of_event size ev Hsize Ht Hl) as [p [Hp Hev]].
    exists (p :: ps). split; [simpl; rewrite Hp, Hps; reflexivity|].
    constructor; assumption.
Qed.

Lemma StronglySorted_Num (ps : list Z) :
  StronglySorted Number_le (map Num ps) -> StronglySorted Z.le ps.
Proof.
  induction ps as [| p ps IH]; intros H; [constructor|].
  inversion H as [| ? ? Hs Hf]; subst. constructor; [apply IH, Hs|].
  rewrite Forall_forall in *. intros q Hq. apply (Hf (Num q)), in_map, Hq.
Qed.

(** C8: when every progress event of an upload reports [loaded] bytes out of
    the same positive [total], with [0 <= loaded <= total] and [loaded] never
    going down from one event to the next, the progress callback is called
    once for each event whose length is computable, in their order, with an
    integer between 0 and 100; these integers never go down, and each of
    them is the percentage of its event: for a total below 2^44 bytes it is
    an integer nearest to [100 * loaded / total].  Without a callback
    nothing is called. *)
Theorem upload_progress_percentages (uploadUrl : string) (file : File)
    (u : Upload) (size : Z) :
  0 < size ->
  Forall (fun ev => total ev = size /\ 0 <= loaded ev <= size) (reports u) ->
  Sorted (fun a b => loaded a <= loaded b) (reports u) ->
  (exists ps : list Z,
      progress_calls (uploadFile uploadUrl file true u) = map Num ps
      /\ Forall2 (fun ev p =>
                    0 <= p <= 100
                    /\ (size < 2 ^ 44 ->
                        Z.abs (2 * (p * size - 100 * loaded ev)) <= size))
                 (filter lengthComputable (reports u)) ps
      /\ StronglySorted Z.le ps)
  /\ progress_calls (uploadFile uploadUrl file false u) = [].
Proof.
  intros Hsize Hall Hsorted.
  rewrite !uploadFile_progress_calls. unfold reported.
  split; [|reflexivity].
  assert (Hss : StronglySorted (fun a b => loaded a <= loaded b) (reports u)).
  { apply Sorted_StronglySorted; [|exact Hsorted]. intros x y z. lia. }
  assert (Hall' : Forall (fun ev => total ev = size /\ 0 <= loaded ev <= size)
                         (filter lengthComputable (reports u))).
  { rewrite Forall_forall in *. intros x Hx. apply filter_In in Hx. apply Hall, Hx. }
  destruct (percentages_of_events size _ Hsize Hall') as [ps [Hps Hall2]].
  exists ps. split; [exact Hps|]. split; [exact Hall2|].
  apply StronglySorted_Num. rewrite <- Hps.
  apply (reported_sorted size); [exact Hsize | exact Hall' |].
  apply StronglySorted_filter, Hss.
Qed.

(** ** The poller: one cycle *)

Section PollCycle.

Variable this : ApiClient.
Variable pipelineId : string.
Variable callbacks : Callbacks.
Variable startTime : Z.

Local Abbreviation poll := (poll this pipelineId callbacks startTime).
Local Abbreviation poll_loop := (poll_loop this pipelineId callbacks startTime).

Lemma within_time_check (cy : Cycle) :
  within_time startTime cy -> (maxDuration <? now cy - startTime) = false.
Proof. unfold within_time. intros H. apply Z.ltb_ge. exact H. Qed.

(** Past the 24 hours, [poll] reports the timeout and does nothing else. *)
Lemma poll_past_maxDuration (cy : Cycle) (st : PollState) :
  maxDuration < now cy - startTime ->
  exists flow,
    poll cy st
    = ([CallOnError "Pipeline timeout - maximum duration exceeded (24 hours)"], st, flow).
Proof.
  intros Hlate. apply Z.ltb_lt in Hlate.
  run_poll. rewrite Hlate. simpl.
  destruct (onError callbacks _); eexists; reflexivity.
Qed.

(** A status [completed]: [onUpdate], then [onComplete], then [return]. *)
Lemma poll_completed (cy : Cycle) (st : PollState) (s : DubbingPipelineStatus) :
  within_time startTime cy ->
  getPipelineStatus this (net cy) pipelineId = Normal s ->
  onUpdate callbacks s = Normal tt ->
  onComplete callbacks s = Normal tt ->
  api_types.status s = "completed" ->
  poll cy st
  = ([CallGetPipelineStatus pipelineId; CallOnUpdate s; CallOnComplete s],
     {| consecutiveErrors := 0; next_poll := next_poll st |}, Return).
Proof.
  intros Htime Hget Hupd Hcomp Hs.
  run_poll.
  rewrite (within_time_check _ Htime), Hget, Hupd, Hs, Hcomp. reflexivity.
Qed.

(** A status [completed] whose [onComplete] throws: the throw is caught, the
    cycle counts as a failure and [poll] is called again 3 seconds later. *)
Lemma poll_completed_throws (cy : Cycle) (st : PollState) (s : DubbingPipelineStatus)
    (e : Thrown) :
  within_time startTime cy ->
  getPipelineStatus this (net cy) pipelineId = Normal s ->
  onUpdate callbacks s = Normal tt ->
  onComplete callbacks s = Throws e ->
  api_types.status s = "completed" ->
  poll cy st
  = ([CallGetPipelineStatus pipelineId; CallOnUpdate s; CallOnComplete s;
      ConsoleWarn 1 10; SetTimeout 3000],
     {| consecutiveErrors := 1; next_poll := Some 3000 |}, Next tt).
Proof.
  intros Htime Hget Hupd Hcomp Hs.
  run_poll.
  rewrite (within_time_check _ Htime), Hget, Hupd, Hs, Hcomp. reflexivity.
Qed.

(** A status that is not [completed] and is [failed] or carries an error
    message: [onUpdate], then [onError], then [return]. *)
Lemma poll_failed (cy : Cycle) (st : PollState) (s : DubbingPipelineStatus) :
  within_time startTime cy ->
  getPipelineStatus this (net cy) pipelineId = Normal s ->
  onUpdate callbacks s = Normal tt ->
  onError callbacks (or_else (api_types.error_message s) "Pipeline failed") = Normal tt ->
  api_types.status s <> "completed" ->
  api_types.status s = "failed" \/ truthy (api_types.error_message s) = true ->
  poll cy st
  = ([CallGetPipelineStatus pipelineId; CallOnUpdate s;
      CallOnError (or_else (api_types.error_message s) "Pipeline failed")],
     {| consecutiveErrors := 0; next_poll := next_poll st |}, Return).
Proof.
  intros Htime Hget Hupd Herr Hnc Hf.
  run_poll.
  rewrite (within_time_check _ Htime), Hget, Hupd.
  apply String.eqb_neq in Hnc. rewrite Hnc. simpl.
  assert (Hcond : String.eqb (api_types.status s) "failed"
                  || truthy (api_types.error_message s) = true).
  { destruct Hf as [-> | ->]; [reflexivity | apply orb_true_r]. }
  rewrite Hcond, Herr. reflexivity.
Qed.

(** Any other status: [onUpdate], then the next call in 3 seconds. *)
Lemma poll_in_progress (cy : Cycle) (st : PollState) (s : DubbingPipelineStatus) :
  within_time startTime cy ->
  getPipelineStatus this (net cy) pipelineId = Normal s ->
  onUpdate callbacks s = Normal tt ->
  api_types.status s <> "completed" ->
  api_types.status s <> "failed" ->
  truthy (api_types.error_message s) = false ->
  poll cy st
  = ([CallGetPipelineStatus pipelineId; CallOnUpdate s; SetTimeout 3000],
     {| consecutiveErrors := 0; next_poll := Some 3000 |}, Next tt).
Proof.
  intros Htime Hget Hupd Hnc Hnf Hne.
  run_poll.
  rewrite (within_time_check _ Htime), Hget, Hupd.
  apply String.eqb_neq in Hnc, Hnf. rewrite Hnc, Hnf, Hne. reflexivity.
Qed.

(** A failed status check that is retried. *)
Lemma poll_retry (cy : Cycle) (st : PollState) (e : Thrown) :
  within_time startTime cy ->
  getPipelineStatus this (net cy) pipelineId = Throws e ->
  consecutiveErrors st + 1 < maxConsecutiveErrors ->
  poll cy st
  = ([CallGetPipelineStatus pipelineId;
      ConsoleWarn (consecutiveErrors st + 1) maxConsecutiveErrors;
      SetTimeout (Z.min (3000 * (consecutiveErrors st + 1)) 30000)],
     {| consecutiveErrors := consecutiveErrors st + 1;
        next_poll := Some (Z.min (3000 * (consecutiveErrors st + 1)) 30000) |},
     Next tt).
Proof.
  intros Htime Hget Hlt.
  run_poll.
  rewrite (within_time_check _ Htime), Hget.
  apply Z.leb_gt in Hlt. rewrite Hlt. reflexivity.
Qed.

(** A failed status check that exhausts the retries. *)
Lemma poll_give_up (cy : Cycle) (st : PollState) (e : Thrown) :
  within_time startTime cy ->
  getPipelineStatus this (net cy) pipelineId = Throws e ->
  maxConsecutiveErrors <= consecutiveErrors st + 1 ->
  exists a flow,
    e = Thrown_ApiClientError a /\
    poll cy st
    = ([CallGetPipelineStatus pipelineId;
        CallOnError ("Too many consecutive errors: " ++ message a)],
       {| consecutiveErrors := consecutiveErrors st + 1; next_poll := next_poll st |},
       flow).
Proof.
  intros Htime Hget Hge.
  destruct (request_throws_ApiClientError _ _ _ _ _ Hget) as [a ->].
  exists a.
  run_poll.
  rewrite (within_time_check _ Htime), Hget.
  apply Z.leb_le in Hge. rewrite Hge. simpl.
  destruct (onError callbacks _); eexists; (split; [reflexivity|]); reflexivity.
Qed.

End PollCycle.

(** ** The poller: runs *)

Lemma count_app (kind : Event -> bool) (t1 t2 : list Event) :
  count kind (t1 ++ t2) = (count kind t1 + count kind t2)%nat.
Proof. unfold count. rewrite filter_app, length_app. reflexivity. Qed.

Section PollRun.

Variable this : ApiClient.
Variable pipelineId : string.
Variable callbacks : Callbacks.
Variable startTime : Z.

Local Abbreviation poll := (poll this pipelineId callbacks startTime).
Local Abbreviation poll_loop := (poll_loop this pipelineId callbacks startTime).

Lemma poll_loop_nil (st : PollState) : poll_loop st [] = ([], st).
Proof. simpl. destruct (next_poll st); reflexivity. Qed.

(** Once no call of [poll] is due, nothing happens any more. *)
Lemma poll_loop_stopped (st : PollState) (env : list Cycle) :
  next_poll st = None -> poll_loop st env = ([], st).
Proof. intros H. destruct env; simpl; rewrite H; reflexivity. Qed.

Lemma poll_loop_cons (st : PollState) (cy : Cycle) (env : list Cycle) :
  next_poll st <> None ->
  poll_loop st (cy :: env)
  = (let r := poll cy {| consecutiveErrors := consecutiveErrors st; next_poll := None |} in
     (fst (fst r) ++ fst (poll_loop (snd (fst r)) env),
      snd (poll_loop (snd (fst r)) env)))%list.
Proof.
  intros H. simpl.
  destruct (next_poll st); [|contradiction].
  destruct (poll cy _) as [[t1 st1] f]. simpl.
  destruct (poll_loop st1 env). reflexivity.
Qed.

(** A run that is still polling after [pre] goes on with what follows. *)
Lemma poll_loop_app (pre post : list Cycle) (st : PollState) :
  next_poll (snd (poll_loop st pre)) <> None ->
  poll_loop st (pre ++ post)
  = ((fst (poll_loop st pre) ++ fst (poll_loop (snd (poll_loop st pre)) post))%list,
     snd (poll_loop (snd (poll_loop st pre)) post)).
Proof.
  revert st. induction pre as [| cy pre IH]; intros st Hlive.
  - rewrite poll_loop_nil. simpl. destruct (poll_loop st post); reflexivity.
  - destruct (next_poll st) eqn:Hdue.
    + assert (Hd : next_poll st <> None) by congruence.
      rewrite poll_loop_cons in Hlive by exact Hd. simpl in Hlive.
      rewrite <- app_comm_cons. rewrite !poll_loop_cons by exact Hd. simpl.
      rewrite IH by exact Hlive. simpl. rewrite app_assoc. reflexivity.
    + rewrite poll_loop_stopped in Hlive by exact Hdue. simpl in Hlive. contradiction.
Qed.

(** When [onError] returns, a cycle that calls it is the last one. *)
Lemma poll_onError_stops (cy : Cycle) (c : Z) :
  (forall msg, onError callbacks msg = Normal tt) ->
  let r := poll cy {| consecutiveErrors := c; next_poll := None |} in
  next_poll (snd (fst r)) <> None -> count is_CallOnError (fst (fst r)) = 0%nat.
Proof.
  intros Herr. run_poll.
  split_cases; simpl; try congruence; try reflexivity.
Qed.

Lemma no_onError_while_polling (env : list Cycle) (st : PollState) :
  (forall msg, onError callbacks msg = Normal tt) ->
  next_poll (snd (poll_loop st env)) <> None ->
  count is_CallOnError (fst (poll_loop st env)) = 0%nat.
Proof.
  intros Herr. revert st. induction env as [| cy env IH]; intros st Hlive.
  - rewrite poll_loop_nil. reflexivity.
  - destruct (next_poll st) eqn:Hdue.
    + assert (Hd : next_poll st <> None) by congruence.
      rewrite poll_loop_cons in * by exact Hd. simpl in *.
      rewrite count_app. rewrite IH by exact Hlive.
      rewrite poll_onError_stops; [reflexivity | exact Herr |].
      intros Hstop. rewrite poll_loop_stopped in Hlive by exact Hstop. simpl in Hlive.
      contradiction.
    + rewrite poll_loop_stopped by exact Hdue. reflexivity.
Qed.


Lemma after_failures_succ (st : PollState) (k : nat) :
  after_failures
    {| consecutiveErrors := consecutiveErrors st + 1;
       next_poll := Some (Z.min (3000 * (consecutiveErrors st + 1)) 30000) |} k
  = after_failures st (S k).
Proof.
  destruct k as [| k]; unfold after_failures; cbn [consecutiveErrors].
  - f_equal.
  - rewrite !Nat2Z.inj_succ.
    replace (consecutiveErrors st + 1 + Z.succ (Z.of_nat k))
      with (consecutiveErrors st + Z.succ (Z.succ (Z.of_nat k))) by lia.
    reflexivity.
Qed.

(** Status checks that fail in a row and are retried, from a state in which
    a call of [poll] is due. *)
Lemma poll_loop_failed_rounds (fails rest : list Cycle) (st : PollState) :
  next_poll st <> None ->
  consecutiveErrors st + Z.of_nat (List.length fails) < maxConsecutiveErrors ->
  Forall (fun cy => within_time startTime cy /\
                    exists e, getPipelineStatus this (net cy) pipelineId = Throws e) fails ->
  poll_loop st (fails ++ rest)
  = ((failed_rounds pipelineId (consecutiveErrors st) (List.length fails)
      ++ fst (poll_loop (after_failures st (List.length fails)) rest))%list,
     snd (poll_loop (after_failures st (List.length fails)) rest)).
Proof.
  revert st. induction fails as [| cy fails IH]; intros st Hdue Hlt Hall.
  - simpl. destruct (poll_loop st rest); reflexivity.
  - inversion Hall as [| ? ? [Htime [e He]] Hall']; subst.
    cbn [List.length] in *. rewrite Nat2Z.inj_succ in Hlt.
    rewrite <- app_comm_cons. rewrite poll_loop_cons by exact Hdue.
    rewrite (poll_retry this pipelineId callbacks startTime cy _ e Htime He)
      by (simpl; lia).
    cbn [fst snd consecutiveErrors].
    rewrite IH; [| simpl; congruence | simpl; lia | exact Hall'].
    cbn [consecutiveErrors]. rewrite after_failures_succ. reflexivity.
Qed.

End PollRun.

(** ** The poller: what the specification states *)

Lemma pollPipelineStatus_poll_loop (this : ApiClient) (pipelineId : string)
    (callbacks : Callbacks) (startTime : Z) (env : list Cycle) :
  pollPipelineStatus this pipelineId callbacks startTime env
  = poll_loop this pipelineId callbacks startTime
      {| consecutiveErrors := 0; next_poll := Some 0 |} env.
Proof. reflexivity. Qed.

Section PollProperties.

Variable this : ApiClient.
Variable pipelineId : string.
Variable callbacks : Callbacks.
Variable startTime : Z.

Local Abbreviation poll_loop := (poll_loop this pipelineId callbacks startTime).
Local Abbreviation pollPipelineStatus := (pollPipelineStatus this pipelineId callbacks startTime).



Lemma or_else_truthy (s : option string) (d : string) :
  (forall m, s = Some m -> m <> "" -> or_else s d = m)
  /\ (truthy s = false -> or_else s d = d).
Proof.
  split.
  - intros m -> Hm. simpl. apply String.eqb_neq in Hm. rewrite Hm. reflexivity.
  - destruct s as [m |]; simpl; [|reflexivity].
    destruct (String.eqb m ""); [reflexivity | discriminate].
Qed.

(** C2, as the code has it: in a run in which [onError] returns, when a
    status that is not [completed] is fetched, it is [failed] or carries a
    non-empty error message, and [onUpdate] returns for it, [onError] is
    called with that message, or with ["Pipeline failed"] when there is none,
    it is the only call of [onError] in the run, and [getPipelineStatus] is
    not called again. *)
Theorem failed_status_reports_error (pre : list Cycle) (cy : Cycle) (rest : list Cycle)
    (s : DubbingPipelineStatus) :
  (forall msg, onError callbacks msg = Normal tt) ->
  next_poll (snd (pollPipelineStatus pre)) <> None ->
  within_time startTime cy ->
  getPipelineStatus this (net cy) pipelineId = Normal s ->
  onUpdate callbacks s = Normal tt ->
  api_types.status s <> "completed" ->
  api_types.status s = "failed" \/ truthy (api_types.error_message s) = true ->
  let run := pollPipelineStatus (pre ++ cy :: rest) in
  let msg := or_else (api_types.error_message s) "Pipeline failed" in
  fst run = (fst (pollPipelineStatus pre)
             ++ [CallGetPipelineStatus pipelineId; CallOnUpdate s; CallOnError msg])%list
  /\ (forall m, api_types.error_message s = Some m -> m <> "" -> msg = m)
  /\ (truthy (api_types.error_message s) = false -> msg = "Pipeline failed")
  /\ count is_CallOnError (fst run) = 1%nat
  /\ next_poll (snd run) = None.
Proof.
  intros Herr Hlive Htime Hget Hupd Hnc Hf run msg.
  assert (Hrun : run
                 = ((fst (pollPipelineStatus pre)
                     ++ [CallGetPipelineStatus pipelineId; CallOnUpdate s; CallOnError msg])%list,
                    {| consecutiveErrors := 0; next_poll := None |})).
  { subst run. rewrite pollPipelineStatus_poll_loop in *.
    rewrite poll_loop_app by exact Hlive.
    rewrite (poll_loop_cons _ _ _ _ _ cy rest Hlive).
    rewrite (poll_failed _ _ _ _ cy _ s Htime Hget Hupd (Herr _) Hnc Hf).
    cbn [fst snd consecutiveErrors next_poll].
    rewrite (poll_loop_stopped _ _ _ _ {| consecutiveErrors := 0; next_poll := None |})
      by reflexivity.
    cbn [fst snd]. rewrite app_nil_r.
    reflexivity. }
  rewrite Hrun. cbn [fst snd next_poll].
  destruct (or_else_truthy (api_types.error_message s) "Pipeline failed") as [Hm Hd].
  repeat split; try assumption.
  rewrite count_app. rewrite pollPipelineStatus_poll_loop in *.
  rewrite (no_onError_while_polling _ _ _ _ pre _ Herr Hlive). reflexivity.
Qed.

(** C9, as the code has it: when a status [completed] that also carries a
    non-empty error message is fetched and [onUpdate] returns for it, the
    cycle calls [onComplete] after [onUpdate] and does not call [onError],
    whatever else it does; when [onComplete] returns too, the cycle is these
    three events and the run ends with it. *)
Theorem completed_takes_precedence (pre : list Cycle) (cy : Cycle) (rest : list Cycle)
    (s : DubbingPipelineStatus) :
  next_poll (snd (pollPipelineStatus pre)) <> None ->
  within_time startTime cy ->
  getPipelineStatus this (net cy) pipelineId = Normal s ->
  api_types.status s = "completed" ->
  truthy (api_types.error_message s) = true ->
  onUpdate callbacks s = Normal tt ->
  exists after,
    fst (pollPipelineStatus (pre ++ [cy]))
    = (fst (pollPipelineStatus pre)
       ++ [CallGetPipelineStatus pipelineId; CallOnUpdate s; CallOnComplete s]
       ++ after)%list
    /\ count is_CallOnError after = 0%nat
    /\ (onComplete callbacks s = Normal tt ->
        after = []
        /\ fst (pollPipelineStatus (pre ++ cy :: rest))
           = (fst (pollPipelineStatus pre)
              ++ [CallGetPipelineStatus pipelineId; CallOnUpdate s; CallOnComplete s])%list
        /\ next_poll (snd (pollPipelineStatus (pre ++ cy :: rest))) = None).
Proof.
  intros Hlive Htime Hget Hs Hmsg Hupd.
  rewrite !pollPipelineStatus_poll_loop in *.
  rewrite !poll_loop_app by exact Hlive.
  rewrite !(poll_loop_cons _ _ _ _ _ cy _ Hlive).
  destruct (onComplete callbacks s) as [[] | e] eqn:Hcomp.
  - rewrite (poll_completed _ _ _ _ cy _ s Htime Hget Hupd Hcomp Hs).
    cbn [fst snd consecutiveErrors next_poll].
    rewrite !(poll_loop_stopped _ _ _ _ {| consecutiveErrors := 0; next_poll := None |})
      by reflexivity.
    cbn [fst snd]. rewrite app_nil_r.
    exists []. rewrite app_nil_r. repeat split.
  - rewrite (poll_completed_throws _ _ _ _ cy _ s e Htime Hget Hupd Hcomp Hs).
    cbn [fst snd consecutiveErrors next_poll].
    rewrite poll_loop_nil. cbn [fst snd]. rewrite app_nil_r.
    exists [ConsoleWarn 1 10; SetTimeout 3000].
    split; [reflexivity|]. split; [reflexivity|]. discriminate.
Qed.

(** C4: when a cycle starts more than 24 hours after the start of the run
    and the run has not ended before, [onError] is called with the timeout
    message and nothing happens after that: no [onComplete], no
    [getPipelineStatus], whatever the browser would still provide. *)
Theorem timeout_after_24_hours (pre : list Cycle) (cy : Cycle) (rest : list Cycle) :
  next_poll (snd (pollPipelineStatus pre)) <> None ->
  24 * 60 * 60 * 1000 < now cy - startTime ->
  let run := pollPipelineStatus (pre ++ cy :: rest) in
  let msg := "Pipeline timeout - maximum duration exceeded (24 hours)" in
  fst run = (fst (pollPipelineStatus pre) ++ [CallOnError msg])%list
  /\ describes_timeout msg
  /\ next_poll (snd run) = None.
Proof.
  intros Hlive Hlate run msg.
  subst run. rewrite pollPipelineStatus_poll_loop in *.
  rewrite poll_loop_app by exact Hlive.
  rewrite (poll_loop_cons _ _ _ _ _ cy rest Hlive).
  destruct (poll_past_maxDuration this pipelineId callbacks startTime cy
              {| consecutiveErrors :=
                   consecutiveErrors
                     (snd (poll_loop {| consecutiveErrors := 0; next_poll := Some 0 |} pre));
                 next_poll := None |} Hlate) as [flow ->].
  cbn [fst snd].
  rewrite (poll_loop_stopped _ _ _ _
             {| consecutiveErrors :=
                  consecutiveErrors
                    (snd (poll_loop {| consecutiveErrors := 0; next_poll := Some 0 |} pre));
                next_poll := None |}) by reflexivity.
  cbn [fst snd next_poll].
  rewrite app_nil_r. repeat split.
  - exists "Pipeline ", " - maximum duration exceeded (24 hours)". reflexivity.
  - exists "Pipeline timeout - maximum duration exceeded (", ")". reflexivity.
Qed.


Lemma Forall_prefix {A} (P : A -> Prop) (n : nat) (l : list A) :
  Forall P l -> Forall P (firstn n l).
Proof.
  intros H. revert n. induction H as [| a l Ha Hl IH]; intros [| n]; simpl;
    constructor; auto.
Qed.

Lemma failed_rounds_no_onError (c : Z) (k : nat) :
  count is_CallOnError (failed_rounds pipelineId c k) = 0%nat.
Proof.
  revert c. induction k as [| k IH]; intros c; [reflexivity|].
  simpl. unfold count in *. simpl. apply IH.
Qed.

(** C3: from a point of a run at which a call of [poll] is due and no
    failure is counted (the start of a run is one), ten status checks that
    fail in a row make one call of [onError], with a message that tells of
    the exhausted retries, and end the run; after the [n]-th of them, for
    [n] from 1 to 9, the next call of [poll] is set [min(3000 * n, 30000)]
    milliseconds later. *)
Theorem ten_consecutive_failures (st : PollState) (fails rest : list Cycle) :
  consecutiveErrors st = 0 ->
  next_poll st <> None ->
  List.length fails = 10%nat ->
  Forall (fun cy => within_time startTime cy /\
                    exists e, getPipelineStatus this (net cy) pipelineId = Throws e) fails ->
  (forall n : nat,
      (1 <= n <= 9)%nat ->
      poll_loop st (firstn n fails)
      = (failed_rounds pipelineId 0 n,
         {| consecutiveErrors := Z.of_nat n;
            next_poll := Some (Z.min (3000 * Z.of_nat n) 30000) |}))
  /\
  (exists msg,
      poll_loop st (fails ++ rest)
      = ((failed_rounds pipelineId 0 9
          ++ [CallGetPipelineStatus pipelineId; CallOnError msg])%list,
         {| consecutiveErrors := 10; next_poll := None |})
      /\ describes_exhausted_retries msg
      /\ count is_CallOnError (fst (poll_loop st (fails ++ rest))) = 1%nat).
Proof.
  intros Hc Hdue Hlen Hall. split.
  - intros n Hn.
    assert (Hlen' : List.length (firstn n fails) = n)
      by (rewrite length_firstn; lia).
    pose proof (poll_loop_failed_rounds this pipelineId callbacks startTime
                  (firstn n fails) [] st Hdue) as Hrun.
    rewrite app_nil_r, Hlen', Hc in Hrun.
    rewrite Hrun.
    + rewrite poll_loop_nil. cbn [fst snd]. rewrite app_nil_r.
      destruct n as [| n]; [lia|]. unfold after_failures. rewrite Hc. reflexivity.
    + unfold maxConsecutiveErrors. lia.
    + apply Forall_prefix, Hall.
  - do 10 (destruct fails as [| ? fails]; [discriminate Hlen|]).
    destruct fails; [|discriminate Hlen].
    match goal with
    | |- context [poll_loop st ([?c1; ?c2; ?c3; ?c4; ?c5; ?c6; ?c7; ?c8; ?c9; ?c10] ++ rest)] =>
        change ([c1; c2; c3; c4; c5; c6; c7; c8; c9; c10] ++ rest)%list
          with ([c1; c2; c3; c4; c5; c6; c7; c8; c9] ++ c10 :: rest)%list;
        assert (Hnine : Forall (fun cy => within_time startTime cy /\
                           exists e, getPipelineStatus this (net cy) pipelineId = Throws e)
                          [c1; c2; c3; c4; c5; c6; c7; c8; c9])
          by (repeat (inversion Hall as [| ? ? ? Hall']; subst; clear Hall;
                      rename Hall' into Hall; try (constructor; [assumption|]));
              constructor);
        assert (Hlast : within_time startTime c10 /\
                        exists e, getPipelineStatus this (net c10) pipelineId = Throws e)
          by (rewrite Forall_forall in Hall; apply Hall; simpl; tauto)
    end.
    destruct Hlast as [Htime [e He]].
    rewrite (poll_loop_failed_rounds this pipelineId callbacks startTime _ _ st Hdue);
      [| rewrite Hc; unfold maxConsecutiveErrors; simpl; lia | exact Hnine].
    cbn [List.length after_failures]. rewrite Hc.
    rewrite poll_loop_cons by discriminate.
    destruct (poll_give_up this pipelineId callbacks startTime _
                {| consecutiveErrors := 0 + Z.of_nat 9; next_poll := None |} e Htime He)
      as [a [flow [-> Hpoll]]]; [unfold maxConsecutiveErrors; simpl; lia|].
    cbn [consecutiveErrors] in *. rewrite Hpoll. cbn [fst snd next_poll].
    rewrite (poll_loop_stopped _ _ _ _
               {| consecutiveErrors := 0 + Z.of_nat 9 + 1; next_poll := None |})
      by reflexivity.
    cbn [fst snd]. rewrite app_nil_r.
    exists ("Too many consecutive errors: " ++ message a).
    split; [reflexivity|]. split; [reflexivity|].
    cbn [fst]. rewrite count_app, failed_rounds_no_onError. reflexivity.
Qed.

(** One cycle, for the delays: with [consecutiveErrors] between 0 and 9 at
    its start, every timer it sets has one of the delays 3000, 6000, ...,
    27000, and if it sets one, [consecutiveErrors] is between 0 and 9 at its
    end. *)
Lemma poll_delays (cy : Cycle) (c : Z) :
  0 <= c <= 9 ->
  let r := poll this pipelineId callbacks startTime cy
             {| consecutiveErrors := c; next_poll := None |} in
  (forall d, In (SetTimeout d) (fst (fst r)) -> exists n, 1 <= n <= 9 /\ d = 3000 * n)
  /\ (next_poll (snd (fst r)) <> None -> 0 <= consecutiveErrors (snd (fst r)) <= 9).
Proof.
  intros Hc. run_poll. unfold maxConsecutiveErrors, pollInterval.
  split_cases; cbn -[Z.mul Z.add Z.sub Z.min Z.ltb Z.leb]; split;
    try congruence; try lia;
    intros d Hin; cbn -[Z.mul Z.add Z.sub Z.min Z.ltb Z.leb] in Hin;

    repeat match goal with
           | H : _ \/ _ |- _ => destruct H
           | H : False |- _ => contradiction
           | H : SetTimeout ?a = SetTimeout ?b |- _ =>
               assert (a = b) by congruence; clear H; subst b
           | H : _ = SetTimeout _ |- _ => discriminate H
           end.
  all: repeat match goal with
             | H : (_ <=? _) = false |- _ => apply Z.leb_gt in H
             | H : (_ <=? _) = true |- _ => apply Z.leb_le in H
             end.
  all: try (exists 1; lia).
  all: exists (c + 1); lia.
Qed.

Lemma poll_loop_delays (env : list Cycle) (st : PollState) (d : Z) :
  0 <= consecutiveErrors st <= 9 ->
  In (SetTimeout d) (fst (poll_loop st env)) ->
  exists n, 1 <= n <= 9 /\ d = 3000 * n.
Proof.
  revert st. induction env as [| cy env IH]; intros st Hc Hin.
  - rewrite poll_loop_nil in Hin. contradiction.
  - destruct (next_poll st) eqn:Hdue.
    + assert (Hd : next_poll st <> None) by congruence.
      rewrite poll_loop_cons in Hin by exact Hd. cbn [fst snd] in Hin.
      destruct (poll_delays cy (consecutiveErrors st) Hc) as [Hcycle Hnext].
      apply in_app_or in Hin. destruct Hin as [Hin | Hin].
      * apply Hcycle, Hin.
      * match type of Hin with
        | In _ (fst (poll_loop ?st1 env)) =>
            destruct (next_poll st1) eqn:Hdue1
        end.
        -- apply (IH _ (Hnext ltac:(congruence)) Hin).
        -- rewrite poll_loop_stopped in Hin by exact Hdue1. contradiction.
    + rewrite poll_loop_stopped in Hin by exact Hdue. contradiction.
Qed.

(** C10: every timer a run sets has a delay of [3000 * n] milliseconds for
    some [n] from 1 to 9; so does the backoff delay after a failure, which is
    [min(3000 * n, 30000)] for the count [n] of failures in a row: a run is
    given up at the tenth before a timer is set.  No delay is above 27000
    milliseconds and the minimum is never the bound of 30000. *)
Theorem scheduled_delays (env : list Cycle) (d : Z) :
  In (SetTimeout d) (fst (pollPipelineStatus env)) ->
  exists n,
    1 <= n <= 9 /\ d = 3000 * n
    /\ Z.min (pollInterval * n) 30000 = d /\ pollInterval * n < 30000
    /\ d <= 27000.
Proof.
  intros Hin. rewrite pollPipelineStatus_poll_loop in Hin.
  assert (Hc : 0 <= consecutiveErrors {| consecutiveErrors := 0; next_poll := Some 0 |} <= 9)
    by (simpl; lia).
  destruct (poll_loop_delays env _ d Hc Hin) as [n [Hn Hd]].
  exists n. unfold pollInterval. lia.
Qed.

End PollProperties.

(** ** The properties at concrete inputs *)

Example completed_run :
  pollPipelineStatus apiClient "pipeline-1" quiet 1000
    [at_ 1000 (answers (a_status "pending" None));
     at_ 4200 (answers (a_status "processing" None));
     at_ 7300 (answers (a_status "completed" None));
     at_ 10400 (answers (a_status "completed" None))]
  = ([CallGetPipelineStatus "pipeline-1"; CallOnUpdate (a_status "pending" None);
      SetTimeout 3000;
      CallGetPipelineStatus "pipeline-1"; CallOnUpdate (a_status "processing" None);
      SetTimeout 3000;
      CallGetPipelineStatus "pipeline-1"; CallOnUpdate (a_status "completed" None);
      CallOnComplete (a_status "completed" None)],
     {| consecutiveErrors := 0; next_poll := None |}).
Proof. reflexivity. Qed.

(** A failure between two answers is retried after 3 seconds and the count
    of failures starts again at the next answer. *)
Example retried_run :
  pollPipelineStatus apiClient "pipeline-1" quiet 1000
    [at_ 1000 unreachable;
     at_ 4100 (answers (a_status "pending" None));
     at_ 7200 unreachable;
     at_ 10300 unreachable]
  = ([CallGetPipelineStatus "pipeline-1"; ConsoleWarn 1 10; SetTimeout 3000;
      CallGetPipelineStatus "pipeline-1"; CallOnUpdate (a_status "pending" None);
      SetTimeout 3000;
      CallGetPipelineStatus "pipeline-1"; ConsoleWarn 1 10; SetTimeout 3000;
      CallGetPipelineStatus "pipeline-1"; ConsoleWarn 2 10; SetTimeout 6000],
     {| consecutiveErrors := 2; next_poll := Some 6000 |}).
Proof. reflexivity. Qed.

(** The callbacks are called inside the [try] block: when [onComplete]
    throws, the cycle counts as a failed status check and is retried. *)
Example throwing_onComplete_is_retried :
  pollPipelineStatus apiClient "pipeline-1" failing_onComplete 1000
    [at_ 1000 (answers (a_status "completed" None))]
  = ([CallGetPipelineStatus "pipeline-1"; CallOnUpdate (a_status "completed" None);
      CallOnComplete (a_status "completed" None);
      ConsoleWarn 1 10; SetTimeout 3000],
     {| consecutiveErrors := 1; next_poll := Some 3000 |}).
Proof. reflexivity. Qed.

Example percentages_of_a_transfer :
  progress_calls (uploadFile "https://storage.example/upload" a_file true a_transfer)
  = [Num 0; Num 14; Num 100].
Proof. vm_compute. reflexivity. Qed.

(** [435 / 3000] is just below [0.145] as a double and the product just below
    [14.5]: the percentage is 14, the exact quotient would give 15. *)
Example percentage_is_rounded_twice :
  percentage 29 200 = Num 14
  /\ Math_round ((inject_Z 29 / inject_Z 200) * 100)%Q = 15.
Proof. split; vm_compute; reflexivity. Qed.

(** The model of the doubles against the floating-point unit, on every
    quotient [loaded / total] with [0 <= loaded <= total] for some totals. *)
Example doubles_agree_with_hardware :
  forallb (fun size =>
             forallb (fun bytes => agrees_with_hardware (Z.of_nat bytes) size)
                     (seq 0 (S (Z.to_nat (Z.min size 400)))))
          [1; 3; 7; 200; 1000; 3000; 4096; 123457; 1048576; 4294967296;
           9007199254740991]
  = true.
Proof. vm_compute. reflexivity. Qed.

Lemma quiet_returns_normally : returns_normally quiet.
Proof. repeat split. Qed.

Lemma within_time_at (startTime time : Z) (network : Network DubbingPipelineStatus) :
  time - startTime <= 86400000 -> within_time startTime (at_ time network).
Proof. intros H. exact H. Qed.



Lemma failed_status_reports_error_witness :
  let pre := [at_ 1000 (answers (a_status "pending" None))] in
  let cy := at_ 4200 (answers (a_status "failed" None)) in
  let run := pollPipelineStatus apiClient "pipeline-1" quiet 1000
               (pre ++ cy :: [at_ 7300 unreachable]) in
  next_poll (snd (pollPipelineStatus apiClient "pipeline-1" quiet 1000 pre)) <> None
  /\ within_time 1000 cy
  /\ fst run
     = (fst (pollPipelineStatus apiClient "pipeline-1" quiet 1000 pre)
        ++ [CallGetPipelineStatus "pipeline-1"; CallOnUpdate (a_status "failed" None);
            CallOnError "Pipeline failed"])%list
  /\ count is_CallOnError (fst run) = 1%nat
  /\ next_poll (snd run) = None.
Proof.
  intros pre cy run.
  assert (Hlive : next_poll (snd (pollPipelineStatus apiClient "pipeline-1" quiet 1000 pre))
                  <> None) by (simpl; discriminate).
  assert (Ht : within_time 1000 cy) by (apply within_time_at; lia).
  assert (Hnc : api_types.status (a_status "failed" None) <> "completed")
    by (simpl; discriminate).
  split; [exact Hlive|]. split; [exact Ht|].
  pose proof (failed_status_reports_error apiClient "pipeline-1" quiet 1000
                pre cy [at_ 7300 unreachable] (a_status "failed" None)
                (fun _ => eq_refl) Hlive Ht eq_refl eq_refl Hnc (or_introl eq_refl))
    as [Htrace [_ [_ [Hcount Hstop]]]].
  split; [exact Htrace|]. split; [exact Hcount | exact Hstop].
Defined.

(** C2 as it is stated does not hold: a status [completed] that carries an
    error message is a fetched status with a non-empty error message, and
    [onError] is not called for it. *)
Lemma failed_or_error_message_counterexample :
  ~ (forall (this : ApiClient) (pipelineId : string) (callbacks : Callbacks)
            (startTime : Z) (pre : list Cycle) (cy : Cycle) (rest : list Cycle)
            (s : DubbingPipelineStatus),
        returns_normally callbacks ->
        next_poll (snd (pollPipelineStatus this pipelineId callbacks startTime pre)) <> None ->
        within_time startTime cy ->
        getPipelineStatus this (net cy) pipelineId = Normal s ->
        api_types.status s = "failed" \/ truthy (api_types.error_message s) = true ->
        let run := pollPipelineStatus this pipelineId callbacks startTime
                     (pre ++ cy :: rest) in
        count is_CallOnError (fst run) = 1%nat /\ next_poll (snd run) = None).
Proof.
  intros claim.
  assert (Hlive : next_poll (snd (pollPipelineStatus apiClient "pipeline-1" quiet 1000 []))
                  <> None) by (simpl; discriminate).
  assert (Ht : within_time 1000
                 (at_ 1000 (answers (a_status "completed" (Some "audio track missing")))))
    by (apply within_time_at; lia).
  destruct (claim apiClient "pipeline-1" quiet 1000 []
              (at_ 1000 (answers (a_status "completed" (Some "audio track missing"))))
              [] (a_status "completed" (Some "audio track missing"))
              quiet_returns_normally Hlive Ht eq_refl (or_intror eq_refl))
    as [Hcount _].
  vm_compute in Hcount. discriminate Hcount.
Qed.

Lemma completed_takes_precedence_witness :
  let pre := [at_ 1000 (answers (a_status "pending" None))] in
  let s := a_status "completed" (Some "audio track missing") in
  let cy := at_ 4200 (answers s) in
  truthy (api_types.error_message s) = true
  /\ (exists after,
        fst (pollPipelineStatus apiClient "pipeline-1" quiet 1000 (pre ++ [cy]))
        = (fst (pollPipelineStatus apiClient "pipeline-1" quiet 1000 pre)
           ++ [CallGetPipelineStatus "pipeline-1"; CallOnUpdate s; CallOnComplete s]
           ++ after)%list
        /\ count is_CallOnError after = 0%nat)
  /\ (exists after,
        fst (pollPipelineStatus apiClient "pipeline-1" failing_onComplete 1000
               (pre ++ [cy]))
        = (fst (pollPipelineStatus apiClient "pipeline-1" failing_onComplete 1000 pre)
           ++ [CallGetPipelineStatus "pipeline-1"; CallOnUpdate s; CallOnComplete s]
           ++ after)%list
        /\ count is_CallOnError after = 0%nat).
Proof.
  intros pre s cy.
  assert (Ht : within_time 1000 cy) by (apply within_time_at; lia).
  split; [reflexivity|]. split.
  - destruct (completed_takes_precedence apiClient "pipeline-1" quiet 1000
                pre cy [at_ 7300 unreachable] s
                ltac:(simpl; discriminate) Ht eq_refl eq_refl eq_refl eq_refl)
      as [after [Htrace [Hnone _]]].
    exists after. split; [exact Htrace | exact Hnone].
  - destruct (completed_takes_precedence apiClient "pipeline-1" failing_onComplete 1000
                pre cy [at_ 7300 unreachable] s
                ltac:(simpl; discriminate) Ht eq_refl eq_refl eq_refl eq_refl)
      as [after [Htrace [Hnone _]]].
    exists after. split; [exact Htrace | exact Hnone].
Defined.

(** C9 as it is stated does not hold: [onUpdate] is called before the test
    of [completed], inside the [try] block, so when it throws the cycle ends
    in the [catch] and [onComplete] is not called. *)
Lemma completed_takes_precedence_counterexample :
  ~ (forall (this : ApiClient) (pipelineId : string) (callbacks : Callbacks)
            (startTime : Z) (pre : list Cycle) (cy : Cycle)
            (s : DubbingPipelineStatus),
        next_poll (snd (pollPipelineStatus this pipelineId callbacks startTime pre))
        <> None ->
        within_time startTime cy ->
        getPipelineStatus this (net cy) pipelineId = Normal s ->
        api_types.status s = "completed" ->
        truthy (api_types.error_message s) = true ->
        In (CallOnComplete s)
           (fst (pollPipelineStatus this pipelineId callbacks startTime (pre ++ [cy])))).
Proof.
  intros claim.
  assert (Ht : within_time 1000
                 (at_ 1000 (answers (a_status "completed" (Some "audio track missing")))))
    by (apply within_time_at; lia).
  pose proof (claim apiClient "pipeline-1" failing_onUpdate 1000 []
                (at_ 1000 (answers (a_status "completed" (Some "audio track missing"))))
                (a_status "completed" (Some "audio track missing"))
                ltac:(simpl; discriminate) Ht eq_refl eq_refl eq_refl) as Hin.
  vm_compute in Hin.
  repeat (destruct Hin as [Hin | Hin]; [discriminate Hin|]). exact Hin.
Qed.

Lemma timeout_after_24_hours_witness :
  let pre := [at_ 1000 (answers (a_status "pending" None))] in
  let cy := at_ 86401001 (answers (a_status "completed" None)) in
  let run := pollPipelineStatus apiClient "pipeline-1" quiet 1000
               (pre ++ cy :: [at_ 86404001 (answers (a_status "completed" None))]) in
  24 * 60 * 60 * 1000 < now cy - 1000
  /\ fst run
     = (fst (pollPipelineStatus apiClient "pipeline-1" quiet 1000 pre)
        ++ [CallOnError "Pipeline timeout - maximum duration exceeded (24 hours)"])%list
  /\ next_poll (snd run) = None.
Proof.
  intros pre cy run.
  assert (Hlive : next_poll (snd (pollPipelineStatus apiClient "pipeline-1" quiet 1000 pre))
                  <> None) by (simpl; discriminate).
  assert (Hlate : 24 * 60 * 60 * 1000 < now cy - 1000) by (simpl; lia).
  split; [exact Hlate|].
  pose proof (timeout_after_24_hours apiClient "pipeline-1" quiet 1000
                pre cy [at_ 86404001 (answers (a_status "completed" None))] Hlive Hlate)
    as [Htrace [_ Hstop]].
  split; [exact Htrace | exact Hstop].
Defined.

Lemma ten_consecutive_failures_witness :
  let st := {| consecutiveErrors := 0; next_poll := Some 0 |} in
  let fails := repeat (at_ 2000 unreachable) 10 in
  Forall (fun cy => within_time 1000 cy /\
                    exists e, getPipelineStatus apiClient (net cy) "pipeline-1" = Throws e)
         fails
  /\ poll_loop apiClient "pipeline-1" quiet 1000 st (firstn 4 fails)
     = (failed_rounds "pipeline-1" 0 4,
        {| consecutiveErrors := 4; next_poll := Some (Z.min (3000 * 4) 30000) |})
  /\ exists msg,
       poll_loop apiClient "pipeline-1" quiet 1000 st
         (fails ++ [at_ 2000 (answers (a_status "completed" None))])
       = ((failed_rounds "pipeline-1" 0 9
           ++ [CallGetPipelineStatus "pipeline-1"; CallOnError msg])%list,
          {| consecutiveErrors := 10; next_poll := None |})
       /\ describes_exhausted_retries msg.
Proof.
  intros st fails.
  assert (Hall : Forall (fun cy => within_time 1000 cy /\
                           exists e, getPipelineStatus apiClient (net cy) "pipeline-1"
                                     = Throws e) fails).
  { repeat constructor; try (apply within_time_at; lia);
      eexists; reflexivity. }
  assert (Hdue : next_poll st <> None) by (simpl; discriminate).
  pose proof (ten_consecutive_failures apiClient "pipeline-1" quiet 1000 st fails
                [at_ 2000 (answers (a_status "completed" None))]
                eq_refl Hdue eq_refl Hall) as [Hdelay [msg [Hrun [Hmsg _]]]].
  split; [exact Hall|]. split.
  - apply (Hdelay 4%nat). lia.
  - exists msg. split; [exact Hrun | exact Hmsg].
Defined.

Lemma scheduled_delays_witness :
  let run := pollPipelineStatus apiClient "pipeline-1" quiet 1000
               [at_ 1000 unreachable; at_ 4100 unreachable; at_ 10200 unreachable] in
  In (SetTimeout 6000) (fst run)
  /\ exists n, 1 <= n <= 9 /\ 6000 = 3000 * n
               /\ Z.min (pollInterval * n) 30000 = 6000 /\ pollInterval * n < 30000
               /\ 6000 <= 27000.
Proof.
  intros run.
  assert (Hin : In (SetTimeout 6000) (fst run)) by (simpl; tauto).
  split; [exact Hin|].
  exact (scheduled_delays apiClient "pipeline-1" quiet 1000 _ 6000 Hin).
Defined.

Lemma request_non_success_response_witness :
  let net := refuses DubbingPipelineStatus 404 "Not Found"
               (Normal (Json_object [("code", Json_string "PIPELINE_NOT_FOUND");
                                     ("message", Json_string "No such pipeline");
                                     ("retryable", Json_bool false)])) in
  let gateway := refuses DubbingPipelineStatus 502 "Bad Gateway"
                   (Throws (Thrown_Error "SyntaxError" "Unexpected token < in JSON")) in
  request apiClient net "/api/uniframe/dubbing/pipeline-1/status" GET
  = Throws (Thrown_ApiClientError
              (new_ApiClientError "PIPELINE_NOT_FOUND" "No such pipeline" (Some 404)))
  /\ exists msg,
       request apiClient gateway "/api/uniframe/dubbing/pipeline-1/status" GET
       = Throws (Thrown_ApiClientError (new_ApiClientError "UNKNOWN_ERROR" msg (Some 502)))
       /\ contains msg "502".
Proof.
  intros net gateway. split.
  - exact (proj1 (request_non_success_response apiClient net
                    "/api/uniframe/dubbing/pipeline-1/status" GET 404 "Not Found" _ eq_refl)
                 _ _ _ eq_refl eq_refl eq_refl).
  - exact (proj2 (request_non_success_response apiClient gateway
                    "/api/uniframe/dubbing/pipeline-1/status" GET 502 "Bad Gateway" _ eq_refl)
                 _ eq_refl).
Defined.

Lemma timeout_is_surfaced_as_timeout_witness :
  (30000 < settles_after
             (slow (a_status "pending" None)
                   (request_url apiClient "/api/uniframe/dubbing/pipeline-1/status")
                   (request_config GET))
   /\ exists a,
        request apiClient (slow (a_status "pending" None))
                "/api/uniframe/dubbing/pipeline-1/status" GET
        = Throws (Thrown_ApiClientError a)
        /\ code a = "TIMEOUT" /\ code a <> "NETWORK_ERROR")
  /\
  (600000 < finishes_after a_long_transfer
   /\ exists a,
        settled (uploadFile "https://storage.example/upload" a_file true a_long_transfer)
        = Some (Throws (Thrown_ApiClientError a))
        /\ code a = "UPLOAD_TIMEOUT" /\ code a <> "UPLOAD_ERROR").
Proof.
  assert (H1 : 30000 < settles_after
                         (slow (a_status "pending" None)
                               (request_url apiClient "/api/uniframe/dubbing/pipeline-1/status")
                               (request_config GET))) by (simpl; lia).
  assert (H2 : 600000 < finishes_after a_long_transfer) by (simpl; lia).
  split.
  - split; [exact H1|].
    exact (proj1 timeout_is_surfaced_as_timeout _ apiClient _ _ _ H1).
  - split; [exact H2|].
    exact (proj2 timeout_is_surfaced_as_timeout _ a_file true _ H2).
Defined.



Lemma upload_progress_percentages_witness :
  Forall (fun ev => total ev = 3000 /\ 0 <= loaded ev <= 3000) (reports a_transfer)
  /\ Sorted (fun a b => loaded a <= loaded b) (reports a_transfer)
  /\ exists ps : list Z,
       progress_calls (uploadFile "https://storage.example/upload" a_file true a_transfer)
       = map Num ps
       /\ Forall2 (fun ev p =>
                     0 <= p <= 100
                     /\ (3000 < 2 ^ 44 ->
                         Z.abs (2 * (p * 3000 - 100 * loaded ev)) <= 3000))
                  (filter lengthComputable (reports a_transfer)) ps
       /\ StronglySorted Z.le ps.
Proof.
  assert (Hall : Forall (fun ev => total ev = 3000 /\ 0 <= loaded ev <= 3000)
                        (reports a_transfer))
    by (repeat constructor; simpl; lia).
  assert (Hsorted : Sorted (fun a b => loaded a <= loaded b) (reports a_transfer))
    by (repeat constructor; simpl; lia).
  split; [exact Hall|]. split; [exact Hsorted|].
  apply (upload_progress_percentages "https://storage.example/upload" a_file
           a_transfer 3000); [lia | exact Hall | exact Hsorted].
Defined.

(** * Further properties of the code *)

(** ** The request helper: what it returns and how it names failures *)

(** X1: the request helper returns a value exactly when the fetch settled
    within the 30 seconds with a response that is ok and whose body could be
    read, and the value is that body. *)
Theorem request_returns_iff {T} (this : ApiClient) (net : Network T)
    (endpoint : string) (options : RequestInit) (v : T) :
  request this net endpoint options = Normal v
  <->
  settles_after (net (request_url this endpoint) (request_config options)) <= 30000
  /\ exists response_status statusText,
       settles_with (net (request_url this endpoint) (request_config options))
       = Normal (Response_ok response_status statusText (Normal v)).
Proof.
  unfold request, fetch, API_TIMEOUT.
  destruct (Z.ltb_spec 30000
              (settles_after (net (request_url this endpoint) (request_config options))))
    as [Hlate | Hintime].
  - simpl. split; [discriminate | intros [H _]; lia].
  - destruct (settles_with (net (request_url this endpoint) (request_config options)))
      as [[st txt [v0 | e0] | st txt [d | e0]] | e0]; simpl.
    + split.
      * intros [= ->]. split; [exact Hintime|]. exists st, txt. reflexivity.
      * intros [_ [st' [txt' [= _ _ ->]]]]. reflexivity.
    + split.
      * destruct e0 as [a | name msg |]; [| destruct (String.eqb name "AbortError") |];
          discriminate.
      * intros [_ [st' [txt' H]]]. discriminate H.
    + destruct d; simpl;
        (split; [discriminate | intros [_ [st' [txt' H]]]; discriminate H]).
    + split; [discriminate | intros [_ [st' [txt' H]]]; discriminate H].
    + split.
      * destruct e0 as [a | name msg |]; [| destruct (String.eqb name "AbortError") |];
          discriminate.
      * intros [_ [st' [txt' H]]]. discriminate H.
Qed.

(** X2: a fetch that is rejected within the 30 seconds with an [Error] whose
    name is not [AbortError] is surfaced as [NETWORK_ERROR], with the message
    of the error after ["Network error: "] and without a status; a rejection
    with a value that is not an [Error] is surfaced as [UNKNOWN_ERROR]. *)
Theorem request_rejected_fetch {T} (this : ApiClient) (net : Network T)
    (endpoint : string) (options : RequestInit) (e : Thrown) :
  settles_after (net (request_url this endpoint) (request_config options)) <= 30000 ->
  settles_with (net (request_url this endpoint) (request_config options)) = Throws e ->
  (forall name msg,
      e = Thrown_Error name msg -> name <> "AbortError" ->
      request this net endpoint options
      = Throws (Thrown_ApiClientError
                  (new_ApiClientError "NETWORK_ERROR" ("Network error: " ++ msg) None)))
  /\ (e = Thrown_value ->
      request this net endpoint options
      = Throws (Thrown_ApiClientError
                  (new_ApiClientError "UNKNOWN_ERROR" "Unknown error occurred" None))).
Proof.
  intros Hintime Hrej. unfold request, fetch, API_TIMEOUT.
  apply Z.ltb_ge in Hintime. rewrite Hintime, Hrej. simpl. split.
  - intros name msg -> Hname. apply String.eqb_neq in Hname. rewrite Hname. reflexivity.
  - intros ->. reflexivity.
Qed.

(** X3: a response that is ok but whose body cannot be read as JSON is not
    returned: the error of the parser is surfaced as [NETWORK_ERROR], without
    the HTTP status. *)
Theorem request_ok_with_unreadable_body {T} (this : ApiClient) (net : Network T)
    (endpoint : string) (options : RequestInit)
    (response_status : Z) (statusText name msg : string) :
  settles_after (net (request_url this endpoint) (request_config options)) <= 30000 ->
  settles_with (net (request_url this endpoint) (request_config options))
  = Normal (Response_ok response_status statusText (Throws (Thrown_Error name msg))) ->
  name <> "AbortError" ->
  request this net endpoint options
  = Throws (Thrown_ApiClientError
              (new_ApiClientError "NETWORK_ERROR" ("Network error: " ++ msg) None)).
Proof.
  intros Hintime Hres Hname. unfold request, fetch, API_TIMEOUT.
  apply Z.ltb_ge in Hintime. rewrite Hintime, Hres. simpl.
  apply String.eqb_neq in Hname. rewrite Hname. reflexivity.
Qed.


Lemma lookup_header_other_keys (k : string) (h : Headers) :
  k <> "Content-Type" ->
  lookup_header k
    (filter (fun kv => match lookup_header (fst kv) [("Content-Type", "application/json")] with
                       | Some _ => false
                       | None => true
                       end) h)
  = lookup_header k h.
Proof.
  intros Hk. induction h as [| [k' v] h IH]; [reflexivity|].
  simpl in *.
  destruct (String.eqb_spec k' "Content-Type") as [-> | Hk'].
  - apply String.eqb_neq in Hk. rewrite Hk. exact IH.
  - simpl. rewrite IH. reflexivity.
Qed.

(** X5: the headers the request helper sends: [Content-Type] is the one of
    the caller when the options have one and [application/json] otherwise;
    every other header of the caller is sent as it is, and no other header is
    added; method and body are those of the options. *)
Theorem request_config_headers (options : RequestInit) :
  lookup_header "Content-Type" (headers (request_config options))
  = Some (match lookup_header "Content-Type" (headers options) with
          | Some v => v
          | None => "application/json"
          end)
  /\ (forall k, k <> "Content-Type" ->
                lookup_header k (headers (request_config options))
                = lookup_header k (headers options))
  /\ method (request_config options) = method options
  /\ body (request_config options) = body options.
Proof.
  unfold request_config, spread. cbn [headers method body map app].
  split; [|split; [|split; reflexivity]].
  - cbn [fst].
    destruct (lookup_header "Content-Type" (headers options)); reflexivity.
  - intros k Hk.
    assert (Hne : String.eqb k "Content-Type" = false) by (apply String.eqb_neq, Hk).
    cbn [fst].
    destruct (lookup_header "Content-Type" (headers options));
      cbn [lookup_header]; rewrite Hne; apply lookup_header_other_keys, Hk.
Qed.

(** ** [uploadFile]: how an upload ends *)

(** X6: the promise of [uploadFile] resolves exactly when the transfer ends
    within the 10 minutes with a [load] event whose status is 2xx. *)
Theorem upload_resolves_iff (uploadUrl : string) (file : File) (onProgress : bool)
    (u : Upload) :
  settled (uploadFile uploadUrl file onProgress u) = Some (Normal tt)
  <->
  finishes_after u <= 600000
  /\ exists xhr_status statusText,
       finishes_with u = ends_load xhr_status statusText /\ 200 <= xhr_status < 300.
Proof.
  rewrite uploadFile_run.
  destruct (Z.ltb_spec 600000 (finishes_after u)) as [Hlate | Hintime].
  - simpl. split; [discriminate | intros [H _]; lia].
  - destruct (finishes_with u) as [st txt | | ]; simpl.
    + destruct (Z.leb_spec 200 st), (Z.ltb_spec st 300); simpl; split;
        try discriminate;
        try (intros _; split; [exact Hintime|]; exists st, txt; split; [reflexivity | lia]);
        try reflexivity;
        intros [_ [st' [txt' [[= <- _] Hst]]]]; lia.
    + split; [discriminate | intros [_ [st' [txt' [H _]]]]; discriminate H].
    + split; [discriminate | intros [_ [st' [txt' [H _]]]]; discriminate H].
Qed.

(** X7: a transfer that ends within the 10 minutes with a status that is not
    2xx rejects with [UPLOAD_FAILED] and the status text after
    ["Upload failed: "]; one that ends with a network error rejects with
    [UPLOAD_ERROR]. *)
Theorem upload_failure_codes (uploadUrl : string) (file : File) (onProgress : bool)
    (u : Upload) :
  finishes_after u <= 600000 ->
  (forall xhr_status statusText,
      finishes_with u = ends_load xhr_status statusText ->
      xhr_status < 200 \/ 300 <= xhr_status ->
      settled (uploadFile uploadUrl file onProgress u)
      = Some (Throws (Thrown_ApiClientError
                        (new_ApiClientError "UPLOAD_FAILED"
                                            ("Upload failed: " ++ statusText) None))))
  /\ (finishes_with u = ends_error ->
      settled (uploadFile uploadUrl file onProgress u)
      = Some (Throws (Thrown_ApiClientError
                        (new_ApiClientError "UPLOAD_ERROR" "Upload network error" None)))).
Proof.
  intros Hintime. rewrite uploadFile_run.
  apply Z.ltb_ge in Hintime. rewrite Hintime. split.
  - intros st txt -> Hst. simpl.
    destruct (Z.leb_spec 200 st), (Z.ltb_spec st 300); simpl; try reflexivity; lia.
  - intros ->. reflexivity.
Qed.

(** X8: [uploadFile] has no handler for [abort]: its promise stays pending
    for ever exactly when the transfer is aborted within the 10 minutes. *)
Theorem upload_pending_iff_aborted (uploadUrl : string) (file : File) (onProgress : bool)
    (u : Upload) :
  settled (uploadFile uploadUrl file onProgress u) = None
  <-> finishes_after u <= 600000 /\ finishes_with u = ends_abort.
Proof.
  rewrite uploadFile_run.
  destruct (Z.ltb_spec 600000 (finishes_after u)) as [Hlate | Hintime].
  - simpl. split; [discriminate | intros [H _]; lia].
  - destruct (finishes_with u) as [st txt | | ]; simpl.
    + destruct ((200 <=? st) && (st <? 300)); simpl;
        (split; [discriminate | intros [_ H]; discriminate H]).
    + split; [discriminate | intros [_ H]; discriminate H].
    + split; [intros _; split; [exact Hintime | reflexivity] | reflexivity].
Qed.

(** X9: the progress callback is called once for every progress event whose
    length is computable, in their order and with its percentage, however the
    upload ends; it is never called for the other events, and there is no
    call at all when no callback was passed. *)
Theorem upload_progress_calls (uploadUrl : string) (file : File) (u : Upload) :
  progress_calls (uploadFile uploadUrl file true u)
  = map (fun ev => percentage (loaded ev) (total ev))
        (filter lengthComputable (reports u))
  /\ progress_calls (uploadFile uploadUrl file false u) = [].
Proof.
  rewrite !uploadFile_progress_calls. split; reflexivity.
Qed.

(** ** The percentage: its ends and how near it is *)

(** X10: an event that reports all the bytes of a transfer gives 100, one
    that reports none gives 0. *)
Theorem percentage_endpoints (t : Z) :
  0 < t -> percentage t t = Num 100 /\ percentage 0 t = Num 0.
Proof.
  intros Ht. rewrite !percentage_value by exact Ht.
  assert (HtQ : (0 < inject_Z t)%Q) by (rewrite <- (Zlt_Qlt 0); exact Ht).
  unfold double_mul, double_div, Math_round. split; [|reflexivity]. f_equal.
  - assert (H1 : (binary64 (inject_Z t / inject_Z t) == 1)%Q).
    { apply Qeq_trans with (binary64 1); [|exact binary64_1]. apply binary64_eq.
      - apply Qle_shift_div_l; [exact HtQ | lra].
      - field. lra. }
    assert (H2 : (binary64 (binary64 (inject_Z t / inject_Z t) * 100) == 100)%Q).
    { apply Qeq_trans with (binary64 100); [|exact binary64_100].
      apply binary64_eq; rewrite H1; [lra | reflexivity]. }
    rewrite H2. reflexivity.
Qed.

(** X11: for a total below 2^44 bytes the percentage passed to the progress
    callback is an integer nearest to the exact percentage
    [100 * loaded / total]: it is off by at most one half. *)
Theorem percentage_nearest (l t : Z) :
  0 <= l <= t -> 0 < t < 2 ^ 44 ->
  exists p, percentage l t = Num p /\ Z.abs (2 * (p * t - 100 * l)) <= t.
Proof.
  intros Hl Ht. rewrite percentage_value by apply Ht.
  eexists. split; [reflexivity|].
  apply (percentage_within_half l t Hl Ht). apply percentage_value, Ht.
Qed.

(** ** The poller: bounds, invariants and what a throwing callback does *)

Section PollFurther.

Variable this : ApiClient.
Variable pipelineId : string.
Variable callbacks : Callbacks.
Variable startTime : Z.

Local Abbreviation poll := (poll this pipelineId callbacks startTime).
Local Abbreviation poll_loop := (poll_loop this pipelineId callbacks startTime).
Local Abbreviation pollPipelineStatus := (pollPipelineStatus this pipelineId callbacks startTime).

Lemma poll_starts_with_request (cy : Cycle) (st : PollState) :
  now cy - startTime <= 86400000 ->
  exists events, fst (fst (poll cy st)) = CallGetPipelineStatus pipelineId :: events.
Proof.
  intros Htime.
  assert (Hcheck : (maxDuration <? now cy - startTime) = false)
    by (apply Z.ltb_ge; exact Htime).
  run_poll. rewrite Hcheck. split_cases; eexists; reflexivity.
Qed.

(** X12: the limit of 24 hours is tested with [>]: a cycle that starts
    exactly 86400000 milliseconds after the start of the run, or earlier, in
    a run that is still polling, calls [getPipelineStatus]. *)
Theorem polls_until_24_hours (pre : list Cycle) (cy : Cycle) (rest : list Cycle) :
  next_poll (snd (pollPipelineStatus pre)) <> None ->
  now cy - startTime <= 86400000 ->
  exists events,
    fst (pollPipelineStatus (pre ++ cy :: rest))
    = (fst (pollPipelineStatus pre) ++ CallGetPipelineStatus pipelineId :: events)%list.
Proof.
  intros Hlive Htime. rewrite pollPipelineStatus_poll_loop in *.
  rewrite poll_loop_app by exact Hlive.
  rewrite (poll_loop_cons _ _ _ _ _ cy rest Hlive). cbn [fst snd].
  destruct (poll_starts_with_request cy
              {| consecutiveErrors :=
                   consecutiveErrors
                     (snd (poll_loop {| consecutiveErrors := 0; next_poll := Some 0 |} pre));
                 next_poll := None |} Htime) as [t ->].
  eexists. rewrite <- app_comm_cons. reflexivity.
Qed.

(** One cycle, with callbacks that return: it keeps the run polling and
    reports nothing, or it ends the run with one report as its last event. *)
Lemma poll_reports (cy : Cycle) (c : Z) :
  returns_normally callbacks ->
  let r := poll cy {| consecutiveErrors := c; next_poll := None |} in
  (next_poll (snd (fst r)) <> None /\ count is_report (fst (fst r)) = 0%nat)
  \/ (next_poll (snd (fst r)) = None
      /\ exists t ev, fst (fst r) = (t ++ [ev])%list /\ is_report ev = true
                      /\ count is_report t = 0%nat).
Proof.
  intros [Hupd [Hcomp Herr]]. run_poll.
  split_cases; try congruence; cbn -[Z.mul Z.add Z.sub Z.min Z.ltb Z.leb];
    first [ left; split; [discriminate | reflexivity]
          | right; split; [reflexivity|]; last_event; repeat split ].
Qed.

Lemma poll_loop_reports (env : list Cycle) (st : PollState) :
  returns_normally callbacks ->
  let r := poll_loop st env in
  count is_report (fst r) = 0%nat
  \/ (count is_report (fst r) = 1%nat /\ next_poll (snd r) = None
      /\ exists t ev, fst r = (t ++ [ev])%list /\ is_report ev = true).
Proof.
  intros Hret. revert st. induction env as [| cy env IH]; intros st.
  - rewrite poll_loop_nil. left. reflexivity.
  - destruct (next_poll st) eqn:Hdue.
    + assert (Hd : next_poll st <> None) by congruence.
      rewrite poll_loop_cons by exact Hd. cbn [fst snd].
      destruct (poll_reports cy (consecutiveErrors st) Hret)
        as [[Hlive Hnone] | [Hstop [t [ev [Ht [Hev Hnone]]]]]].
      * rewrite count_app, Hnone.
        destruct (IH (snd (fst (poll cy {| consecutiveErrors := consecutiveErrors st;
                                           next_poll := None |}))))
          as [H0 | [H1 [Hs [t [ev [Ht Hev]]]]]].
        -- left. exact H0.
        -- right. split; [exact H1|]. split; [exact Hs|].
           eexists _, ev. rewrite Ht, app_assoc. split; [reflexivity | exact Hev].
      * rewrite (poll_loop_stopped _ _ _ _ _ env Hstop). cbn [fst snd].
        rewrite app_nil_r. right. split; [|split; [exact Hstop|]].
        -- rewrite Ht, count_app, Hnone. unfold count. simpl. rewrite Hev. reflexivity.
        -- exists t, ev. split; [exact Ht | exact Hev].
    + rewrite poll_loop_stopped by exact Hdue. left. reflexivity.
Qed.

(** X14: with callbacks that return, a run reports at most once: the calls
    of [onComplete] and [onError] together are at most one, and when there is
    one it is the last event of the run and no further call of [poll] is
    due. *)
Theorem reports_at_most_once (env : list Cycle) :
  returns_normally callbacks ->
  let run := pollPipelineStatus env in
  (count is_report (fst run) <= 1)%nat
  /\ (count is_report (fst run) = 1%nat ->
      next_poll (snd run) = None
      /\ exists t ev, fst run = (t ++ [ev])%list /\ is_report ev = true).
Proof.
  intros Hret run. subst run. rewrite pollPipelineStatus_poll_loop.
  destruct (poll_loop_reports env {| consecutiveErrors := 0; next_poll := Some 0 |} Hret)
    as [H0 | [H1 [Hs Hlast]]].
  - rewrite H0. split; [lia | discriminate].
  - rewrite H1. split; [lia|]. intros _. split; [exact Hs | exact Hlast].
Qed.

(** One cycle in which a callback throws inside the [try] block: the throw is
    caught as if the status check had failed, after [consecutiveErrors] was
    set to 0. *)
Lemma poll_callback_throws (cy : Cycle) (st : PollState) (s : DubbingPipelineStatus) :
  within_time startTime cy ->
  getPipelineStatus this (net cy) pipelineId = Normal s ->
  throws_in_try callbacks s ->
  let r := poll cy st in
  snd (fst r) = {| consecutiveErrors := 1; next_poll := Some 3000 |}
  /\ count is_CallGetPipelineStatus (fst (fst r)) = 1%nat
  /\ count is_CallOnUpdate (fst (fst r)) = 1%nat
  /\ exists events,
       fst (fst r)
       = (CallGetPipelineStatus pipelineId :: CallOnUpdate s :: events
          ++ [ConsoleWarn 1 10; SetTimeout 3000])%list.
Proof.
  intros Htime Hget Hthrows. run_poll.
  rewrite (within_time_check _ _ Htime), Hget.
  destruct Hthrows as [[e He] | [[Hu [Hs [e He]]] | [Hu [Hnc [Hf [e He]]]]]].
  - rewrite He. cbn. repeat split. exists []. reflexivity.
  - rewrite Hu, Hs, He. cbn. repeat split. exists [CallOnComplete s]. reflexivity.
  - rewrite Hu. apply String.eqb_neq in Hnc. rewrite Hnc.
    assert (Hcond : String.eqb (api_types.status s) "failed"
                    || truthy (api_types.error_message s) = true)
      by (destruct Hf as [-> | ->]; [reflexivity | apply orb_true_r]).
    cbn. rewrite Hcond, He. cbn. repeat split.
    exists [CallOnError (or_else (api_types.error_message s) "Pipeline failed")].
    reflexivity.
Qed.

(** X15: a callback that throws inside the [try] block of [poll] does not
    end the run, not even for a status [completed] or [failed]: after any
    number of cycles in a row whose status was fetched and whose callback
    threw, the run is still polling, the next call is due in 3000
    milliseconds and [consecutiveErrors] is 1, so the limit of ten failures
    is never reached this way; every one of these cycles has fetched the
    status and called [onUpdate] once. *)
Theorem throwing_callback_keeps_polling (cycles : list Cycle) (st : PollState) :
  next_poll st <> None ->
  cycles <> [] ->
  Forall (fun cy => within_time startTime cy /\
                    exists s, getPipelineStatus this (net cy) pipelineId = Normal s
                              /\ throws_in_try callbacks s) cycles ->
  let r := poll_loop st cycles in
  snd r = {| consecutiveErrors := 1; next_poll := Some 3000 |}
  /\ count is_CallGetPipelineStatus (fst r) = List.length cycles
  /\ count is_CallOnUpdate (fst r) = List.length cycles.
Proof.
  intros Hdue Hne Hall. revert st Hdue.
  induction Hall as [| cy cycles [Htime [s [Hget Hthrows]]] Hall IH]; [contradiction|].
  intros st Hdue. cbn zeta. rewrite poll_loop_cons by exact Hdue. cbn [fst snd].
  destruct (poll_callback_throws cy
              {| consecutiveErrors := consecutiveErrors st; next_poll := None |}
              s Htime Hget Hthrows) as [Hst [Hg [Hu _]]].
  rewrite Hst, !count_app, Hg, Hu.
  destruct cycles as [| cy' cycles'].
  - rewrite poll_loop_nil. repeat split.
  - destruct (IH ltac:(discriminate)
                 {| consecutiveErrors := 1; next_poll := Some 3000 |}
                 ltac:(simpl; discriminate)) as [Hst' [Hg' Hu']].
    rewrite Hst', Hg', Hu'. repeat split.
Qed.

Lemma after_failures_polling (st : PollState) (k : nat) :
  next_poll st <> None -> next_poll (after_failures st k) <> None.
Proof. intros H. destruct k; simpl; [exact H | discriminate]. Qed.

(** X16: failures are counted in a row only: up to nine failed status
    checks, an answered status that keeps the run polling, and up to nine
    failed status checks again do not end the run, and the delays after the
    answer start at 3000 milliseconds again. *)
Theorem failures_do_not_add_up (fails1 fails2 : list Cycle) (cy : Cycle)
    (s : DubbingPipelineStatus) (st : PollState) :
  consecutiveErrors st = 0 ->
  next_poll st <> None ->
  (List.length fails1 <= 9)%nat -> (List.length fails2 <= 9)%nat ->
  Forall (fun cy => within_time startTime cy /\
                    exists e, getPipelineStatus this (net cy) pipelineId = Throws e)
         (fails1 ++ fails2) ->
  within_time startTime cy ->
  getPipelineStatus this (net cy) pipelineId = Normal s ->
  is_in_progress s ->
  onUpdate callbacks s = Normal tt ->
  poll_loop st (fails1 ++ cy :: fails2)
  = ((failed_rounds pipelineId 0 (List.length fails1)
      ++ [CallGetPipelineStatus pipelineId; CallOnUpdate s; SetTimeout 3000]
      ++ failed_rounds pipelineId 0 (List.length fails2))%list,
     after_failures {| consecutiveErrors := 0; next_poll := Some 3000 |}
                    (List.length fails2)).
Proof.
  intros Hc Hdue Hn1 Hn2 Hall Htime Hget [Hnc [Hnf Hne]] Hupd.
  apply Forall_app in Hall. destruct Hall as [Hall1 Hall2].
  rewrite (poll_loop_failed_rounds this pipelineId callbacks startTime fails1 _ st Hdue);
    [| rewrite Hc; unfold maxConsecutiveErrors; lia | exact Hall1].
  rewrite Hc.
  rewrite poll_loop_cons by (apply after_failures_polling, Hdue).
  rewrite (poll_in_progress this pipelineId callbacks startTime cy _ s
             Htime Hget Hupd Hnc Hnf Hne).
  cbn [fst snd].
  pose proof (poll_loop_failed_rounds this pipelineId callbacks startTime fails2 []
                {| consecutiveErrors := 0; next_poll := Some 3000 |}) as Hrun.
  rewrite app_nil_r in Hrun. rewrite Hrun;
    [| simpl; discriminate | unfold maxConsecutiveErrors; simpl; lia | exact Hall2].
  rewrite poll_loop_nil. cbn [fst snd consecutiveErrors]. rewrite app_nil_r.
  reflexivity.
Qed.

(** Cycles that fetch statuses that keep the run polling. *)
Lemma poll_loop_in_progress (cycles : list Cycle) (statuses : list DubbingPipelineStatus)
    (rest : list Cycle) (st : PollState) :
  next_poll st <> None ->
  cycles <> [] ->
  Forall2 (fun cy s => within_time startTime cy
                       /\ getPipelineStatus this (net cy) pipelineId = Normal s
                       /\ is_in_progress s
                       /\ onUpdate callbacks s = Normal tt) cycles statuses ->
  poll_loop st (cycles ++ rest)
  = ((in_progress_rounds pipelineId statuses
      ++ fst (poll_loop {| consecutiveErrors := 0; next_poll := Some 3000 |} rest))%list,
     snd (poll_loop {| consecutiveErrors := 0; next_poll := Some 3000 |} rest)).
Proof.
  intros Hdue Hne Hall. revert st Hdue.
  induction Hall as [| cy s cycles statuses [Htime [Hget [[Hnc [Hnf Hnm]] Hupd]]] Hall IH];
    [contradiction|].
  intros st Hdue. rewrite <- app_comm_cons. rewrite poll_loop_cons by exact Hdue.
  rewrite (poll_in_progress this pipelineId callbacks startTime cy _ s
             Htime Hget Hupd Hnc Hnf Hnm).
  cbn [fst snd]. unfold in_progress_rounds. cbn [flat_map].
  destruct cycles as [| cy' cycles'].
  - inversion Hall; subst. cbn [flat_map app].
    destruct (poll_loop _ rest); reflexivity.
  - rewrite (IH ltac:(discriminate) {| consecutiveErrors := 0; next_poll := Some 3000 |}
               ltac:(simpl; discriminate)).
    cbn [fst snd]. unfold in_progress_rounds. rewrite <- !app_assoc. reflexivity.
Qed.

(** X17: a status that is neither [completed] nor [failed] and carries no
    error message keeps the run polling, whatever its label: while such
    statuses are fetched (and [onUpdate] returns), every cycle fetches the
    status, passes it to [onUpdate] and sets the next call 3000 milliseconds
    later; no other callback is called and [consecutiveErrors] is 0. *)
Theorem in_progress_keeps_polling (cycles : list Cycle)
    (statuses : list DubbingPipelineStatus) (st : PollState) :
  next_poll st <> None ->
  cycles <> [] ->
  Forall2 (fun cy s => within_time startTime cy
                       /\ getPipelineStatus this (net cy) pipelineId = Normal s
                       /\ is_in_progress s
                       /\ onUpdate callbacks s = Normal tt) cycles statuses ->
  poll_loop st cycles
  = (in_progress_rounds pipelineId statuses,
     {| consecutiveErrors := 0; next_poll := Some 3000 |}).
Proof.
  intros Hdue Hne Hall.
  pose proof (poll_loop_in_progress cycles statuses [] st Hdue Hne Hall) as Hrun.
  rewrite app_nil_r, poll_loop_nil in Hrun. cbn [fst snd] in Hrun.
  rewrite app_nil_r in Hrun. exact Hrun.
Qed.

(** One cycle, for [consecutiveErrors]: from a value between 0 and 9 it ends
    between 0 and 10; with a timer set it is at most 9; at 10 the cycle was a
    failed status check reported with the message of its [ApiClientError]. *)
Lemma poll_counter (cy : Cycle) (c : Z) :
  0 <= c <= 9 ->
  let r := poll cy {| consecutiveErrors := c; next_poll := None |} in
  0 <= consecutiveErrors (snd (fst r)) <= 10
  /\ (next_poll (snd (fst r)) <> None -> consecutiveErrors (snd (fst r)) <= 9)
  /\ (consecutiveErrors (snd (fst r)) = 10 ->
      next_poll (snd (fst r)) = None
      /\ exists a,
           getPipelineStatus this (net cy) pipelineId = Throws (Thrown_ApiClientError a)
           /\ fst (fst r)
              = [CallGetPipelineStatus pipelineId;
                 CallOnError ("Too many consecutive errors: " ++ message a)]).
Proof.
  intros Hc. run_poll. unfold maxConsecutiveErrors, pollInterval.
  split_cases; cbn -[Z.mul Z.add Z.sub Z.min Z.ltb Z.leb];
    repeat match goal with
           | H : (_ <=? _) = false |- _ => apply Z.leb_gt in H
           | H : (_ <=? _) = true |- _ => apply Z.leb_le in H
           | H : getPipelineStatus _ _ _ = Throws (Thrown_Error _ _) |- _ =>
               apply request_throws_ApiClientError in H; destruct H as [? H];
               discriminate H
           | H : getPipelineStatus _ _ _ = Throws Thrown_value |- _ =>
               apply request_throws_ApiClientError in H; destruct H as [? H];
               discriminate H
           end;
    (split; [lia|]); (split; [intros; try congruence; lia|]);
    intros H10; try lia;
    (split; [reflexivity|]); eexists; split; first [eassumption | reflexivity].
Qed.

Lemma poll_loop_counter (env : list Cycle) (st : PollState) :
  0 <= consecutiveErrors st <= 9 ->
  let r := poll_loop st env in
  0 <= consecutiveErrors (snd r) <= 10
  /\ (consecutiveErrors (snd r) = 10 ->
      next_poll (snd r) = None
      /\ exists pre cy post a,
           env = (pre ++ cy :: post)%list
           /\ getPipelineStatus this (net cy) pipelineId
              = Throws (Thrown_ApiClientError a)
           /\ fst r
              = (fst (poll_loop st pre)
                 ++ [CallGetPipelineStatus pipelineId;
                     CallOnError ("Too many consecutive errors: " ++ message a)])%list).
Proof.
  revert st. induction env as [| cy env IH]; intros st Hc.
  - rewrite poll_loop_nil. cbn [fst snd]. split; [lia | intros; lia].
  - destruct (next_poll st) eqn:Hdue.
    + assert (Hd : next_poll st <> None) by congruence.
      cbn zeta. rewrite poll_loop_cons by exact Hd. cbn [fst snd].
      destruct (poll_counter cy (consecutiveErrors st) Hc) as [Hrange [Hlive Hten]].
      cbn zeta in Hrange, Hlive, Hten.
      set (r1 := poll cy {| consecutiveErrors := consecutiveErrors st; next_poll := None |})
        in *.
      destruct (next_poll (snd (fst r1))) eqn:Hdue1.
      * destruct (IH (snd (fst r1)) ltac:(split; [lia | apply Hlive; congruence]))
          as [Hrange' Hten'].
        split; [exact Hrange'|]. intros H10.
        destruct (Hten' H10) as [Hs [pre [cy' [post [a [Henv [Hget Ht]]]]]]].
        split; [exact Hs|]. exists (cy :: pre), cy', post, a.
        split; [rewrite Henv; reflexivity|]. split; [exact Hget|].
        rewrite (poll_loop_cons _ _ _ _ st cy pre Hd). cbn [fst snd]. fold r1.
        rewrite Ht, app_assoc. reflexivity.
      * rewrite (poll_loop_stopped _ _ _ _ _ env Hdue1). cbn [fst snd].
        rewrite app_nil_r. split; [exact Hrange|]. intros H10.
        destruct (Hten H10) as [Hs [a [Hget Ht]]].
        split; [exact Hdue1|]. exists [], cy, env, a.
        split; [reflexivity|]. split; [exact Hget|].
        rewrite poll_loop_nil. exact Ht.
    + cbn zeta. rewrite poll_loop_stopped by exact Hdue. cbn [fst snd].
      split; [lia | intros; lia].
Qed.

(** X18: in every run, whatever the callbacks do, [consecutiveErrors] stays
    between 0 and 10, and it is 10 only when the run has ended with a failed
    status check that was reported as ["Too many consecutive errors: "]
    followed by the message of the [ApiClientError] that this very check
    threw: the run is what came before that cycle, the request and this call
    of [onError].  The other message of the code, for a caught value that is
    not an [ApiClientError], is not the one of a run that gives up. *)
Theorem gives_up_with_the_last_error (env : list Cycle) :
  let run := pollPipelineStatus env in
  0 <= consecutiveErrors (snd run) <= 10
  /\ (consecutiveErrors (snd run) = 10 ->
      next_poll (snd run) = None
      /\ exists pre cy post a,
           env = (pre ++ cy :: post)%list
           /\ getPipelineStatus this (net cy) pipelineId
              = Throws (Thrown_ApiClientError a)
           /\ fst run
              = (fst (pollPipelineStatus pre)
                 ++ [CallGetPipelineStatus pipelineId;
                     CallOnError ("Too many consecutive errors: " ++ message a)])%list).
Proof.
  cbn zeta. rewrite !pollPipelineStatus_poll_loop.
  pose proof (poll_loop_counter env {| consecutiveErrors := 0; next_poll := Some 0 |}
                ltac:(simpl; lia)) as [Hrange Hten].
  split; [exact Hrange|]. intros H10.
  destruct (Hten H10) as [Hs [pre [cy [post [a [Henv [Hget Ht]]]]]]].
  split; [exact Hs|]. exists pre, cy, post, a.
  rewrite pollPipelineStatus_poll_loop. repeat split; assumption.
Qed.

(** One cycle makes at most one status request, and calls [onUpdate] at most
    once and only after the request. *)
Lemma poll_requests (cy : Cycle) (st : PollState) :
  let r := poll cy st in
  (count is_CallGetPipelineStatus (fst (fst r)) <= 1)%nat
  /\ (count is_CallOnUpdate (fst (fst r))
      <= count is_CallGetPipelineStatus (fst (fst r)))%nat.
Proof.
  run_poll. split_cases; cbn; lia.
Qed.

(** X19: a run makes at most one status request per cycle, and calls
    [onUpdate] at most once per request, whatever the callbacks do. *)
Theorem one_request_per_cycle (env : list Cycle) :
  let run := pollPipelineStatus env in
  (count is_CallGetPipelineStatus (fst run) <= List.length env)%nat
  /\ (count is_CallOnUpdate (fst run) <= count is_CallGetPipelineStatus (fst run))%nat.
Proof.
  cbn zeta. rewrite pollPipelineStatus_poll_loop.
  generalize {| consecutiveErrors := 0; next_poll := Some 0 |}.
  induction env as [| cy env IH]; intros st.
  - rewrite poll_loop_nil. unfold count. simpl. lia.
  - destruct (next_poll st) eqn:Hdue.
    + assert (Hd : next_poll st <> None) by congruence.
      rewrite poll_loop_cons by exact Hd. cbn [fst snd].
      rewrite !count_app.
      pose proof (poll_requests cy {| consecutiveErrors := consecutiveErrors st;
                                      next_poll := None |}) as Hcy.
      cbn zeta in Hcy.
      specialize (IH (snd (fst (poll cy {| consecutiveErrors := consecutiveErrors st;
                                           next_poll := None |})))).
      simpl List.length. lia.
    + rewrite poll_loop_stopped by exact Hdue. unfold count. simpl. lia.
Qed.

End PollFurther.

(** ** The page: timers and typed texts *)

Lemma substring_next (text : string) (i : nat) :
  (i < String.length text)%nat ->
  substring 0 i text ++ char_at text i = substring 0 (S i) text.
Proof.
  revert i. induction text as [| c text IH]; intros i Hi; simpl in Hi; [lia|].
  destruct i as [| i].
  - unfold char_at. simpl. destruct text; reflexivity.
  - unfold char_at in *. simpl. rewrite <- IH by lia. reflexivity.
Qed.

Lemma substring_all (text : string) : substring 0 (String.length text) text = text.
Proof. induction text as [| c text IH]; simpl; [reflexivity | rewrite IH; reflexivity]. Qed.

Lemma substring_none (text : string) : substring 0 0 text = "".
Proof. destruct text; reflexivity. Qed.

(** *** Lists of timers *)

Lemma In_without (h : nat) (u : Timer) (ts : list Timer) :
  In u (filter (fun u => negb (Nat.eqb (timer_handle u) h)) ts)
  <-> In u ts /\ timer_handle u <> h.
Proof.
  rewrite filter_In. split; intros [Hin Hh]; (split; [exact Hin|]).
  - apply negb_true_iff, Nat.eqb_neq in Hh. exact Hh.
  - apply negb_true_iff, Nat.eqb_neq. exact Hh.
Qed.

Lemma NoDup_handles_without (h : nat) (ts : list Timer) :
  NoDup (map timer_handle ts) ->
  NoDup (map timer_handle (filter (fun u => negb (Nat.eqb (timer_handle u) h)) ts)).
Proof.
  induction ts as [| t ts IH]; simpl; intros Hnd; [constructor|].
  inversion Hnd as [| ? ? Hnotin Hnd']; subst.
  destruct (negb (Nat.eqb (timer_handle t) h)); simpl; [|apply IH, Hnd'].
  constructor; [|apply IH, Hnd'].
  intros Hin. apply Hnotin. apply in_map_iff in Hin. destruct Hin as [u [Hu Hin]].
  apply filter_In in Hin. apply in_map_iff. exists u. tauto.
Qed.

Lemma same_handle_same_timer (ts : list Timer) (u v : Timer) :
  NoDup (map timer_handle ts) -> In u ts -> In v ts ->
  timer_handle u = timer_handle v -> u = v.
Proof.
  induction ts as [| t ts IH]; simpl; intros Hnd Hu Hv Heq; [contradiction|].
  inversion Hnd as [| ? ? Hnotin Hnd']; subst.
  destruct Hu as [-> | Hu], Hv as [-> | Hv].
  - reflexivity.
  - exfalso. apply Hnotin. rewrite Heq. apply in_map, Hv.
  - exfalso. apply Hnotin. rewrite <- Heq. apply in_map, Hu.
  - apply IH; assumption.
Qed.

Lemma earliest_none (ts : list Timer) : earliest ts = None -> ts = [].
Proof.
  destruct ts as [| a ts]; [reflexivity|]. simpl.
  destruct (earliest ts) as [m |]; [destruct (runs_before a m)|]; discriminate.
Qed.

Lemma earliest_spec (ts : list Timer) (t : Timer) :
  earliest ts = Some t ->
  In t ts /\ forall u, In u ts -> timer_due t <= timer_due u.
Proof.
  revert t. induction ts as [| a ts IH]; simpl; intros t Hearliest; [discriminate|].
  destruct (earliest ts) as [m |] eqn:Em.
  - destruct (IH m eq_refl) as [Hin Hle].
    destruct (runs_before a m) eqn:Hb; injection Hearliest as <-.
    + split; [left; reflexivity|]. intros u [<- | Hu]; [lia|].
      specialize (Hle u Hu). unfold runs_before in Hb. apply Z.leb_le in Hb. lia.
    + split; [right; exact Hin|]. intros u [<- | Hu]; [|apply Hle, Hu].
      unfold runs_before in Hb. apply Z.leb_gt in Hb. lia.
  - injection Hearliest as <-. split; [left; reflexivity|].
    intros u [<- | Hu]; [lia|]. rewrite (earliest_none ts Em) in Hu. contradiction.
Qed.

Lemma earliest_runs_first (t : Timer) (b : Browser) :
  earliest (timers b) = Some t -> runs_first t b.
Proof. apply earliest_spec. Qed.

(** *** Timers that stay valid *)

Lemma timer_ok_frame (b b' : Browser) (t : Timer) :
  timer_ok b t ->
  clock b' <= timer_due t ->
  (next_handle b <= next_handle b')%nat ->
  (forall isLeft text i,
      timer_callback t = typing isLeft text i ->
      typingInterval isLeft (page b') = typingInterval isLeft (page b)
      /\ typedText isLeft (page b') = typedText isLeft (page b)) ->
  timer_ok b' t.
Proof.
  intros [Hdue [Hh Hcb]] Hdue' Hnext Hside. split; [exact Hdue'|]. split; [lia|].
  destruct (timer_callback t) as [| | | | | | isLeft text i]; try exact Hcb.
  destruct (Hside isLeft text i eq_refl) as [-> ->]. exact Hcb.
Qed.

Lemma timers_ok_set_page (f : Page -> Page) (b : Browser) :
  (forall isLeft, typingInterval isLeft (f (page b)) = typingInterval isLeft (page b)) ->
  (forall isLeft, typedText isLeft (f (page b)) = typedText isLeft (page b)) ->
  timers_ok b -> timers_ok (set_page f b).
Proof.
  intros Hint Htxt [Hall [Hnd [Hlive Htext]]]. unfold timers_ok, set_page. cbn [page timers].
  split; [|split; [exact Hnd|split]].
  - rewrite Forall_forall in *. intros t Ht.
    apply (timer_ok_frame b); [apply Hall, Ht | apply Hall, Ht | simpl; lia |].
    intros isLeft text i _. simpl. split; [apply Hint | apply Htxt].
  - intros isLeft h. rewrite Hint. apply Hlive.
  - intros isLeft. rewrite Htxt. apply Htext.
Qed.

Lemma timers_ok_add_timer (cb : Callback) (delay : Z) (b : Browser) :
  is_typing cb = false -> 0 <= delay ->
  timers_ok b -> timers_ok (add_timer None cb delay b).
Proof.
  intros Hcb Hdelay [Hall [Hnd [Hlive Htext]]]. unfold timers_ok, add_timer.
  cbn [page timers]. split; [|split; [|split]].
  - apply Forall_app. split.
    + rewrite Forall_forall in *. intros t Ht.
      apply (timer_ok_frame b); [apply Hall, Ht | apply Hall, Ht | simpl; lia |].
      intros isLeft text i _. split; reflexivity.
    + constructor; [|constructor]. unfold timer_ok. simpl. split; [lia|]. split; [lia|].
      destruct cb; try reflexivity. discriminate Hcb.
  - rewrite map_app. simpl. apply NoDup_app; [exact Hnd | repeat constructor; simpl; tauto |].
    intros h Hin [<- | []]. apply in_map_iff in Hin. destruct Hin as [t [Hh Ht]].
    rewrite Forall_forall in Hall. destruct (Hall t Ht) as [_ [Hlt _]]. lia.
  - intros isLeft h Hh. destruct (Hlive isLeft h Hh) as [t [i [Ht Hrest]]].
    exists t, i. split; [apply in_or_app; left; exact Ht | exact Hrest].
  - exact Htext.
Qed.

Lemma pending_add_timer (cb : Callback) (period : option Z) (delay : Z) (b : Browser) :
  pending cb delay (add_timer period cb delay b).
Proof.
  unfold pending, add_timer. cbn [timers clock]. eexists. split.
  - apply in_or_app. right. left. reflexivity.
  - simpl. split; [reflexivity | lia].
Qed.

Lemma pending_add_other (c cb : Callback) (bound : Z) (period : option Z) (delay : Z)
    (b : Browser) :
  pending c bound b -> pending c bound (add_timer period cb delay b).
Proof.
  intros [t [Ht Hrest]]. exists t. split; [|exact Hrest].
  unfold add_timer. cbn [timers]. apply in_or_app. left. exact Ht.
Qed.

Lemma pending_set_page (c : Callback) (bound : Z) (f : Page -> Page) (b : Browser) :
  pending c bound b -> pending c bound (set_page f b).
Proof. intros H. exact H. Qed.

Lemma timers_ok_at_time (time : Z) (b : Browser) :
  Forall (fun t => time <= timer_due t) (timers b) ->
  timers_ok b -> timers_ok (at_time time b).
Proof.
  intros Hdue [Hall [Hnd [Hlive Htext]]]. unfold timers_ok, at_time. cbn [page timers].
  split; [|split; [exact Hnd | split; [exact Hlive | exact Htext]]].
  rewrite Forall_forall in *. intros t Ht.
  apply (timer_ok_frame b); [apply Hall, Ht | apply Hdue, Ht | simpl; lia |].
  intros isLeft text i _. split; reflexivity.
Qed.

Lemma pending_at_time (c : Callback) (bound time : Z) (b : Browser) :
  clock b <= time -> pending c bound b -> pending c bound (at_time time b).
Proof.
  intros Hle [t [Ht [Hc Hdue]]]. exists t. unfold at_time. cbn [timers clock].
  split; [exact Ht|]. split; [exact Hc | lia].
Qed.

(** *** [startTypingText] *)

Lemma startTypingText_effect (isLeft : bool) (b : Browser) :
  let b' := startTypingText isLeft b in
  timers b'
  = (without (typingInterval isLeft (page b)) (timers b)
     ++ [{| timer_handle := next_handle b; timer_due := clock b + 50;
            timer_repeat := Some 50;
            timer_callback := typing isLeft (fullText isLeft) 0 |}])%list
  /\ typedText isLeft (page b') = ""
  /\ typingInterval isLeft (page b') = Some (next_handle b)
  /\ typedText (negb isLeft) (page b') = typedText (negb isLeft) (page b)
  /\ typingInterval (negb isLeft) (page b') = typingInterval (negb isLeft) (page b)
  /\ clock b' = clock b
  /\ next_handle b' = S (next_handle b)
  /\ showComingSoon (page b') = showComingSoon (page b)
  /\ logoFlickering (page b') = logoFlickering (page b).
Proof.
  destruct isLeft; unfold startTypingText, typingInterval, typedText, fullText, without;
    cbn [negb].
  - destruct (leftTypingInterval (page b)); repeat split.
  - destruct (rightTypingInterval (page b)); repeat split.
Qed.

Lemma In_without_opt (h : option nat) (u : Timer) (ts : list Timer) :
  In u (without h ts) <-> In u ts /\ h <> Some (timer_handle u).
Proof.
  destruct h as [h |]; simpl.
  - rewrite In_without. split; intros [H1 H2]; (split; [exact H1|]); congruence.
  - split; [intros H; split; [exact H | discriminate] | tauto].
Qed.

Lemma NoDup_without_opt (h : option nat) (ts : list Timer) :
  NoDup (map timer_handle ts) -> NoDup (map timer_handle (without h ts)).
Proof. destruct h; simpl; [apply NoDup_handles_without | tauto]. Qed.

Lemma side_of (isLeft other : bool) : other <> isLeft -> other = negb isLeft.
Proof. destruct isLeft, other; simpl; congruence. Qed.

Lemma timers_ok_startTypingText (isLeft : bool) (b : Browser) :
  timers_ok b -> timers_ok (startTypingText isLeft b).
Proof.
  intros [Hall [Hnd [Hlive Htext]]].
  destruct (startTypingText_effect isLeft b)
    as [Htimers [Htyped [Hint [Hotyped [Hoint [Hclock [Hnext _]]]]]]].
  rewrite Forall_forall in Hall.
  unfold timers_ok. rewrite Htimers. split; [|split; [|split]].
  - apply Forall_app. split.
    + rewrite Forall_forall. intros u Hu. apply In_without_opt in Hu.
      destruct Hu as [Hu Hh]. pose proof (Hall u Hu) as Hok.
      apply (timer_ok_frame b); [exact Hok | rewrite Hclock; apply Hok | lia |].
      intros side text i Hcb. destruct Hok as [_ [_ Hside]]. rewrite Hcb in Hside.
      destruct Hside as [Hside _].
      assert (Hother : side = negb isLeft).
      { apply side_of. intros ->. congruence. }
      subst side. split; assumption.
    + constructor; [|constructor]. unfold timer_ok. cbn [timer_due timer_handle
        timer_callback timer_repeat]. rewrite Hclock, Hnext, Hint, Htyped.
      split; [lia|]. split; [lia|]. repeat split; try lia.
      symmetry. apply substring_none.
  - rewrite map_app. simpl.
    apply NoDup_app; [apply NoDup_without_opt, Hnd | repeat constructor; simpl; tauto |].
    intros h Hin [<- | []]. apply in_map_iff in Hin. destruct Hin as [u [Hh Hu]].
    apply In_without_opt in Hu. destruct (Hall u (proj1 Hu)) as [_ [Hlt _]]. lia.
  - intros side h Hh. destruct (Bool.bool_dec side isLeft) as [-> | Hne].
    + rewrite Hint in Hh. injection Hh as <-. eexists _, 0%nat. split.
      * apply in_or_app. right. left. reflexivity.
      * split; reflexivity.
    + apply side_of in Hne. subst side. rewrite Hoint in Hh.
      destruct (Hlive _ h Hh) as [u [i [Hu [Hhu Hcb]]]].
      exists u, i. split; [|split; assumption].
      apply in_or_app. left. apply In_without_opt. split; [exact Hu|].
      intros Hsame. destruct (Hlive isLeft _ Hsame) as [v [j [Hv [Hhv Hcbv]]]].
      assert (u = v) by (apply (same_handle_same_timer (timers b)); congruence).
      subst v. rewrite Hcb in Hcbv. destruct isLeft; discriminate.
  - intros side. destruct (Bool.bool_dec side isLeft) as [-> | Hne].
    + exists 0%nat. rewrite Htyped. split; [lia | symmetry; apply substring_none].
    + apply side_of in Hne. subst side. rewrite Hotyped. apply Htext.
Qed.

Lemma pending_startTypingText (c : Callback) (bound : Z) (isLeft : bool) (b : Browser) :
  is_typing c = false ->
  timers_ok b -> pending c bound b -> pending c bound (startTypingText isLeft b).
Proof.
  intros Hc [Hall [Hnd [Hlive Htext]]] [t [Ht [Hcb Hdue]]].
  destruct (startTypingText_effect isLeft b) as [Htimers [_ [_ [_ [_ [Hclock _]]]]]].
  exists t. rewrite Htimers, Hclock. split; [|split; assumption].
  apply in_or_app. left. apply In_without_opt. split; [exact Ht|].
  intros Hsame. destruct (Hlive isLeft _ Hsame) as [v [j [Hv [Hhv Hcbv]]]].
  assert (t = v) by (apply (same_handle_same_timer (timers b)); congruence).
  subst v. rewrite Hcbv in Hcb. subst c. discriminate Hc.
Qed.

(** *** A timer that runs *)

Lemma clock_rearm (t : Timer) (b : Browser) :
  clock b <= timer_due t -> clock (rearm t b) = timer_due t.
Proof. intros H. unfold rearm. cbn [clock]. lia. Qed.

Lemma In_rearm (t u : Timer) (b : Browser) :
  In u (timers (rearm t b))
  <-> (In u (timers b) /\ timer_handle u <> timer_handle t)
      \/ (exists period, timer_repeat t = Some period
                         /\ u = {| timer_handle := timer_handle t;
                                   timer_due := timer_due t + period;
                                   timer_repeat := timer_repeat t;
                                   timer_callback := timer_callback t |}).
Proof.
  unfold rearm. cbn [timers]. destruct (timer_repeat t) as [period |].
  - rewrite in_app_iff, In_without. simpl. split.
    + intros [H | [<- | []]]; [left; exact H | right; exists period; split; reflexivity].
    + intros [H | [p [[= <-] ->]]]; [left; exact H | right; left; reflexivity].
  - rewrite In_without. split; [intros H; left; exact H|].
    intros [H | [p [H _]]]; [exact H | discriminate H].
Qed.

Lemma timers_ok_rearm (t : Timer) (b : Browser) :
  timers_ok b -> runs_first t b -> timers_ok (rearm t b).
Proof.
  intros [Hall [Hnd [Hlive Htext]]] [Ht Hfirst].
  rewrite Forall_forall in Hall.
  pose proof (Hall t Ht) as [Hdue [Hlt Hcb]].
  assert (Hclock : clock (rearm t b) = timer_due t) by (apply clock_rearm, Hdue).
  unfold timers_ok. split; [|split; [|split]].
  - rewrite Forall_forall. intros u Hu. apply In_rearm in Hu.
    destruct Hu as [[Hu Hne] | [period [Hp ->]]].
    + apply (timer_ok_frame b); [apply Hall, Hu | rewrite Hclock; apply Hfirst, Hu
                                 | simpl; lia |].
      intros; split; reflexivity.
    + assert (Hper : 0 <= period).
      { destruct (timer_callback t); rewrite Hp in Hcb; try discriminate Hcb.
        destruct Hcb as [_ [_ [_ [_ [= ->]]]]]. lia. }
      unfold timer_ok. cbn [timer_due timer_handle timer_callback timer_repeat].
      rewrite Hclock. split; [lia|]. split; [exact Hlt|]. exact Hcb.
  - unfold rearm. cbn [timers]. destruct (timer_repeat t) as [period |].
    + rewrite map_app. simpl.
      apply NoDup_app; [apply NoDup_handles_without, Hnd | repeat constructor; simpl; tauto|].
      intros h Hin [<- | []]. apply in_map_iff in Hin. destruct Hin as [u [Hh Hu]].
      apply In_without in Hu. tauto.
    + apply NoDup_handles_without, Hnd.
  - intros side h Hh. destruct (Hlive side h Hh) as [u [i [Hu [Hhu Hcbu]]]].
    destruct (Nat.eq_dec (timer_handle u) (timer_handle t)) as [Heq | Hne].
    + assert (u = t) by (apply (same_handle_same_timer (timers b)); assumption).
      subst u. rewrite Hcbu in Hcb. destruct Hcb as [_ [_ [_ [_ Hrep]]]].
      eexists _, i. split; [apply In_rearm; right; exists 50; split; [exact Hrep | reflexivity]|].
      cbn [timer_handle timer_callback]. split; assumption.
    + exists u, i. split; [apply In_rearm; left; split; assumption|]. split; assumption.
  - exact Htext.
Qed.

Lemma pending_rearm (c : Callback) (bound : Z) (t : Timer) (b : Browser) :
  timers_ok b -> In t (timers b) -> timer_callback t <> c ->
  pending c bound b -> pending c bound (rearm t b).
Proof.
  intros [Hall [Hnd _]] Ht Hc [u [Hu [Hcb Hdue]]].
  exists u. split; [|split; [exact Hcb | unfold rearm; cbn [clock]; lia]].
  apply In_rearm. left. split; [exact Hu|]. intros Heq.
  assert (u = t) by (apply (same_handle_same_timer (timers b)); assumption).
  subst u. contradiction.
Qed.

Lemma handle_spent_rearm (t : Timer) (b : Browser) :
  timers_ok b -> In t (timers b) -> is_typing (timer_callback t) = false ->
  handle_spent (timer_handle t) (rearm t b).
Proof.
  intros [Hall _] Ht Hcb. rewrite Forall_forall in Hall.
  destruct (Hall t Ht) as [_ [Hlt Hrep]]. split; [|exact Hlt].
  rewrite Forall_forall. intros u Hu. apply In_rearm in Hu.
  destruct Hu as [[_ Hne] | [period [Hp _]]]; [exact Hne|].
  destruct (timer_callback t); try (rewrite Hp in Hrep; discriminate Hrep).
  discriminate Hcb.
Qed.

Lemma keep_closure_spent (h : nat) (closure : Callback) (b : Browser) :
  handle_spent h b -> keep_closure h closure b = b.
Proof.
  intros [Hall _]. unfold keep_closure, set_timers. destruct b as [p ts c n v].
  cbn [page timers clock next_handle visited] in *. f_equal.
  induction Hall as [| u ts Hu Hall IH]; [reflexivity|]. simpl.
  apply Nat.eqb_neq in Hu. rewrite Hu, IH. reflexivity.
Qed.

Lemma handle_spent_add_timer (h : nat) (period : option Z) (cb : Callback) (delay : Z)
    (b : Browser) :
  handle_spent h b -> handle_spent h (add_timer period cb delay b).
Proof.
  intros [Hall Hlt]. split; [|simpl; lia]. unfold add_timer. cbn [timers].
  apply Forall_app. split; [exact Hall|]. constructor; [simpl; lia | constructor].
Qed.

Lemma handle_spent_set_page (h : nat) (f : Page -> Page) (b : Browser) :
  handle_spent h b -> handle_spent h (set_page f b).
Proof. intros H. exact H. Qed.

Lemma handle_spent_startTypingText (h : nat) (isLeft : bool) (b : Browser) :
  handle_spent h b -> handle_spent h (startTypingText isLeft b).
Proof.
  intros [Hall Hlt].
  destruct (startTypingText_effect isLeft b) as [Htimers [_ [_ [_ [_ [_ [Hnext _]]]]]]].
  split; [|lia]. rewrite Htimers. apply Forall_app. split.
  - rewrite Forall_forall in *. intros u Hu. apply In_without_opt in Hu. apply Hall, Hu.
  - constructor; [simpl; lia | constructor].
Qed.

(** *** The callback of a typing interval *)

Lemma typing_tick_effect (isLeft : bool) (text : string) (i : nat) (b : Browser) :
  let r := typing_tick isLeft text i b in
  typedText (negb isLeft) (page (fst r)) = typedText (negb isLeft) (page b)
  /\ typingInterval (negb isLeft) (page (fst r)) = typingInterval (negb isLeft) (page b)
  /\ clock (fst r) = clock b
  /\ next_handle (fst r) = next_handle b
  /\ showComingSoon (page (fst r)) = showComingSoon (page b)
  /\ logoFlickering (page (fst r)) = logoFlickering (page b)
  /\ if (i <? String.length text)%nat
     then snd r = typing isLeft text (S i)
          /\ timers (fst r) = timers b
          /\ typedText isLeft (page (fst r)) = typedText isLeft (page b) ++ char_at text i
          /\ typingInterval isLeft (page (fst r)) = typingInterval isLeft (page b)
     else snd r = typing isLeft text i
          /\ timers (fst r) = without (typingInterval isLeft (page b)) (timers b)
          /\ typedText isLeft (page (fst r)) = typedText isLeft (page b)
          /\ typingInterval isLeft (page (fst r)) = None.
Proof.
  destruct isLeft; unfold typing_tick, typingInterval, typedText, without; cbn [negb];
    destruct (i <? String.length text)%nat; cbn [fst snd].
  - repeat split.
  - destruct (leftTypingInterval (page b)); repeat split.
  - repeat split.
  - destruct (rightTypingInterval (page b)); repeat split.
Qed.

Lemma timers_keep_closure (h : nat) (closure : Callback) (b : Browser) (u : Timer) :
  In u (timers (keep_closure h closure b))
  <-> exists v, In v (timers b)
                /\ u = if Nat.eqb (timer_handle v) h
                       then {| timer_handle := timer_handle v; timer_due := timer_due v;
                               timer_repeat := timer_repeat v; timer_callback := closure |}
                       else v.
Proof.
  unfold keep_closure, set_timers. cbn [timers]. rewrite in_map_iff.
  split; intros [v [H1 H2]]; exists v; split; auto.
Qed.

Lemma handles_keep_closure (h : nat) (closure : Callback) (b : Browser) :
  map timer_handle (timers (keep_closure h closure b)) = map timer_handle (timers b).
Proof.
  unfold keep_closure, set_timers. cbn [timers]. rewrite map_map.
  apply map_ext. intros u. destruct (Nat.eqb (timer_handle u) h); reflexivity.
Qed.

Lemma timers_ok_tick (b : Browser) (t : Timer) (isLeft : bool) (text : string) (i : nat) :
  timers_ok b -> In t (timers b) -> timer_callback t = typing isLeft text i ->
  timers_ok (keep_closure (timer_handle t) (snd (typing_tick isLeft text i b))
                          (fst (typing_tick isLeft text i b))).
Proof.
  intros [Hall [Hnd [Hlive Htext]]] Ht Hcb.
  rewrite Forall_forall in Hall.
  pose proof (Hall t Ht) as [Hdue [Hlt Hside]]. rewrite Hcb in Hside.
  destruct Hside as [Hint [Htxt [Hi [Htyped Hrep]]]].
  destruct (typing_tick_effect isLeft text i b)
    as [Hotyped [Hoint [Hclock [Hnext [_ [_ Hcase]]]]]].
  set (r := typing_tick isLeft text i b) in *.
  assert (Hothers : forall u, In u (timers b) -> timer_handle u <> timer_handle t ->
                              forall text' j, timer_callback u <> typing isLeft text' j).
  { intros u Hu Hne text' j Hcbu. destruct (Hall u Hu) as [_ [_ Hsideu]].
    rewrite Hcbu in Hsideu. destruct Hsideu as [Hintu _]. congruence. }
  destruct (Nat.ltb_spec i (String.length text)) as [Hlt_i | Hge_i].
  - destruct Hcase as [Hclosure [Htimers [Htyped' Hint']]].
    unfold timers_ok. split; [|split; [|split]].
    + rewrite Forall_forall. intros u Hu. apply timers_keep_closure in Hu.
      destruct Hu as [v [Hv ->]]. rewrite Htimers in Hv.
      destruct (Nat.eqb_spec (timer_handle v) (timer_handle t)) as [Heq | Hne].
      * assert (v = t) by (apply (same_handle_same_timer (timers b)); assumption).
        subst v. unfold timer_ok.
        cbn [timer_due timer_handle timer_callback timer_repeat keep_closure set_timers
             clock next_handle page].
        rewrite Hclosure, Hclock, Hnext, Hint', Htyped', Htyped.
        split; [exact Hdue|]. split; [exact Hlt|].
        split; [exact Hint|]. split; [exact Htxt|]. split; [lia|].
        split; [apply substring_next; exact Hlt_i | exact Hrep].
      * apply (timer_ok_frame b); [apply Hall, Hv | simpl; rewrite Hclock; apply Hall, Hv
                                   | simpl; lia |].
        intros side text' j Hcbv. assert (Hside : side = negb isLeft).
        { apply side_of. intros ->. exact (Hothers v Hv Hne text' j Hcbv). }
        subst side. cbn [keep_closure set_timers page]. split; assumption.
    + rewrite handles_keep_closure, Htimers. exact Hnd.
    + intros side h Hh. cbn [keep_closure set_timers page] in Hh.
      destruct (Bool.bool_dec side isLeft) as [-> | Hne].
      * rewrite Hint', Hint in Hh. injection Hh as <-.
        eexists _, (S i). split.
        -- apply timers_keep_closure. exists t. rewrite Htimers. split; [exact Ht|].
           rewrite Nat.eqb_refl. reflexivity.
        -- cbn [timer_handle timer_callback]. rewrite Hclosure, Htxt. split; reflexivity.
      * apply side_of in Hne. subst side. rewrite Hoint in Hh.
        destruct (Hlive _ h Hh) as [u [j [Hu [Hhu Hcbu]]]].
        exists u, j. split; [|split; assumption].
        apply timers_keep_closure. exists u. rewrite Htimers. split; [exact Hu|].
        destruct (Nat.eqb_spec (timer_handle u) (timer_handle t)) as [Heq | _];
          [|reflexivity].
        assert (u = t) by (apply (same_handle_same_timer (timers b)); assumption).
        subst u. rewrite Hcb in Hcbu. destruct isLeft; discriminate.
    + intros side. cbn [keep_closure set_timers page].
      destruct (Bool.bool_dec side isLeft) as [-> | Hne].
      * exists (S i). rewrite Htyped', Htyped, <- Htxt.
        split; [lia | apply substring_next; exact Hlt_i].
      * apply side_of in Hne. subst side. rewrite Hotyped. apply Htext.
  - destruct Hcase as [Hclosure [Htimers [Htyped' Hint']]].
    rewrite Hint in Htimers. cbn [without] in Htimers.
    assert (Hspent : handle_spent (timer_handle t) (fst r)).
    { split; [|rewrite Hnext; exact Hlt]. rewrite Htimers, Forall_forall.
      intros u Hu. apply In_without in Hu. tauto. }
    rewrite (keep_closure_spent _ _ _ Hspent).
    unfold timers_ok. rewrite Htimers. split; [|split; [|split]].
    + rewrite Forall_forall. intros u Hu. apply In_without in Hu. destruct Hu as [Hu Hne].
      apply (timer_ok_frame b); [apply Hall, Hu | rewrite Hclock; apply Hall, Hu | lia |].
      intros side text' j Hcbu. assert (Hside : side = negb isLeft).
      { apply side_of. intros ->. exact (Hothers u Hu Hne text' j Hcbu). }
      subst side. split; assumption.
    + apply NoDup_handles_without, Hnd.
    + intros side h Hh. destruct (Bool.bool_dec side isLeft) as [-> | Hne].
      * rewrite Hint' in Hh. discriminate Hh.
      * apply side_of in Hne. subst side. rewrite Hoint in Hh.
        destruct (Hlive _ h Hh) as [u [j [Hu [Hhu Hcbu]]]].
        exists u, j. split; [|split; assumption].
        apply In_without. split; [exact Hu|]. intros Heq.
        assert (u = t) by (apply (same_handle_same_timer (timers b)); assumption).
        subst u. rewrite Hcb in Hcbu. destruct isLeft; discriminate.
    + intros side. destruct (Bool.bool_dec side isLeft) as [-> | Hne].
      * exists i. rewrite Htyped', Htyped, <- Htxt. split; [lia | reflexivity].
      * apply side_of in Hne. subst side. rewrite Hotyped. apply Htext.
Qed.

Lemma pending_tick (c : Callback) (bound : Z) (b : Browser) (t : Timer)
    (isLeft : bool) (text : string) (i : nat) :
  is_typing c = false ->
  timers_ok b -> In t (timers b) -> timer_callback t = typing isLeft text i ->
  pending c bound b ->
  pending c bound (keep_closure (timer_handle t) (snd (typing_tick isLeft text i b))
                                (fst (typing_tick isLeft text i b))).
Proof.
  intros Hc [Hall [Hnd _]] Ht Hcb [u [Hu [Hcbu Hdue]]].
  rewrite Forall_forall in Hall.
  pose proof (Hall t Ht) as [_ [_ Hside]]. rewrite Hcb in Hside.
  destruct Hside as [Hint _].
  destruct (typing_tick_effect isLeft text i b) as [_ [_ [Hclock [_ [_ [_ Hcase]]]]]].
  assert (Hne : timer_handle u <> timer_handle t).
  { intros Heq. assert (u = t) by (apply (same_handle_same_timer (timers b)); assumption).
    subst u. rewrite Hcb in Hcbu. subst c. discriminate Hc. }
  exists u. split; [|split; [exact Hcbu | cbn [keep_closure set_timers clock]; lia]].
  apply timers_keep_closure. exists u. apply Nat.eqb_neq in Hne as Hneb. rewrite Hneb.
  split; [|reflexivity].
  destruct (i <? String.length text)%nat; destruct Hcase as [_ [-> _]]; [exact Hu|].
  rewrite Hint. apply In_without. split; assumption.
Qed.

(** *** The invariant of the page *)

Lemma page_invariant_fire (t : Timer) (b : Browser) :
  page_invariant b -> runs_first t b -> page_invariant (fire t b).
Proof.
  intros [Hok [Hbanner Hflicker]] Hearliest.
  pose proof Hearliest as [Ht _].
  pose proof (timers_ok_rearm t b Hok Hearliest) as Hok1.
  assert (Hpage1 : page (rearm t b) = page b) by reflexivity.
  unfold fire.
  destruct (is_typing (timer_callback t)) eqn:Htyping.
  - (* a typing interval *)
    destruct (timer_callback t) as [| | | | | | isLeft text i] eqn:Hcb;
      try discriminate Htyping.
    cbn [run_callback].
    assert (Hrep : timer_repeat t = Some 50).
    { destruct Hok as [Hall _]. rewrite Forall_forall in Hall.
      destruct (Hall t Ht) as [_ [_ Hside]]. rewrite Hcb in Hside. tauto. }
    set (t1 := {| timer_handle := timer_handle t; timer_due := timer_due t + 50;
                  timer_repeat := timer_repeat t; timer_callback := timer_callback t |}).
    assert (Ht1 : In t1 (timers (rearm t b))).
    { apply In_rearm. right. exists 50. split; [exact Hrep | reflexivity]. }
    assert (Hcb1 : timer_callback t1 = typing isLeft text i) by exact Hcb.
    destruct (typing_tick_effect isLeft text i (rearm t b))
      as [_ [_ [_ [_ [Hshow [Hlogo _]]]]]].
    destruct (typing_tick isLeft text i (rearm t b)) as [b2 closure] eqn:Etick.
    pose proof (timers_ok_tick (rearm t b) t1 isLeft text i Hok1 Ht1 Hcb1) as Hok2.
    rewrite Etick in Hok2. cbn [fst snd timer_handle t1] in Hok2, Hshow, Hlogo.
    split; [exact Hok2|]. cbn [keep_closure set_timers page].
    rewrite Hshow, Hlogo, Hpage1. split; intros Hon.
    + pose proof (pending_tick coming_soon_off 5000 (rearm t b) t1 isLeft text i
                    eq_refl Hok1 Ht1 Hcb1) as Hp.
      rewrite Etick in Hp. apply Hp.
      apply pending_rearm; [exact Hok | exact Ht | rewrite Hcb; discriminate | auto].
    + pose proof (pending_tick flicker_off 3000 (rearm t b) t1 isLeft text i
                    eq_refl Hok1 Ht1 Hcb1) as Hp.
      rewrite Etick in Hp. apply Hp.
      apply pending_rearm; [exact Hok | exact Ht | rewrite Hcb; discriminate | auto].
  - (* a timeout *)
    pose proof (handle_spent_rearm t b Hok Ht Htyping) as Hspent.
    assert (Hkeep1 : forall c, timer_callback t <> c -> pending c 5000 b ->
                               pending c 5000 (rearm t b))
      by (intros c Hc; apply pending_rearm; assumption).
    assert (Hkeep2 : forall c, timer_callback t <> c -> pending c 3000 b ->
                               pending c 3000 (rearm t b))
      by (intros c Hc; apply pending_rearm; assumption).
    destruct (timer_callback t) eqn:Hcb; try discriminate Htyping; cbn [run_callback].
    + (* mount_loaded *)
      rewrite keep_closure_spent
        by (apply handle_spent_add_timer, handle_spent_set_page, Hspent).
      split; [|split; intros Hon].
      * apply timers_ok_add_timer; [reflexivity | lia |].
        apply timers_ok_set_page; [sides | sides | exact Hok1].
      * apply pending_add_other, pending_set_page, Hkeep1; [discriminate | auto].
      * apply pending_add_other, pending_set_page, Hkeep2; [discriminate | auto].
    + (* auto_typing *)
      unfold startAutoTyping.
      rewrite keep_closure_spent
        by (apply handle_spent_add_timer, handle_spent_startTypingText, Hspent).
      destruct (startTypingText_effect true (rearm t b))
        as [_ [_ [_ [_ [_ [_ [_ [Hshow Hlogo]]]]]]]].
      split; [|split; intros Hon].
      * apply timers_ok_add_timer; [reflexivity | lia |].
        apply timers_ok_startTypingText, Hok1.
      * apply pending_add_other, pending_startTypingText; [reflexivity | exact Hok1 |].
        apply Hkeep1; [discriminate|]. apply Hbanner.
        cbn [setTimeout add_timer page] in Hon. rewrite Hshow in Hon. exact Hon.
      * apply pending_add_other, pending_startTypingText; [reflexivity | exact Hok1 |].
        apply Hkeep2; [discriminate|]. apply Hflicker.
        cbn [setTimeout add_timer page] in Hon. rewrite Hlogo in Hon. exact Hon.
    + (* mount_flicker *)
      unfold startLogoFlickering.
      rewrite keep_closure_spent
        by (apply handle_spent_add_timer, handle_spent_set_page, Hspent).
      split; [|split; intros Hon].
      * apply timers_ok_add_timer; [reflexivity | lia |].
        apply timers_ok_set_page; [sides | sides | exact Hok1].
      * apply pending_add_other, pending_set_page, Hkeep1; [discriminate | auto].
      * apply pending_add_timer.
    + (* flicker_off *)
      rewrite keep_closure_spent by (apply handle_spent_set_page, Hspent).
      split; [|split; intros Hon].
      * apply timers_ok_set_page; [sides | sides | exact Hok1].
      * apply pending_set_page, Hkeep1; [discriminate | auto].
      * discriminate Hon.
    + (* coming_soon_off *)
      rewrite keep_closure_spent by (apply handle_spent_set_page, Hspent).
      split; [|split; intros Hon].
      * apply timers_ok_set_page; [sides | sides | exact Hok1].
      * discriminate Hon.
      * apply pending_set_page, Hkeep2; [discriminate | auto].
    + (* type_right *)
      rewrite keep_closure_spent by (apply handle_spent_startTypingText, Hspent).
      destruct (startTypingText_effect false (rearm t b))
        as [_ [_ [_ [_ [_ [_ [_ [Hshow Hlogo]]]]]]]].
      split; [|split; intros Hon].
      * apply timers_ok_startTypingText, Hok1.
      * apply pending_startTypingText; [reflexivity | exact Hok1 |].
        apply Hkeep1; [discriminate|]. apply Hbanner. rewrite Hshow in Hon. exact Hon.
      * apply pending_startTypingText; [reflexivity | exact Hok1 |].
        apply Hkeep2; [discriminate|]. apply Hflicker. rewrite Hlogo in Hon. exact Hon.
Qed.

Lemma page_invariant_dispatch (ev : UserEvent) (time : Z) (b : Browser) :
  clock b <= time ->
  Forall (fun t => time <= timer_due t) (timers b) ->
  page_invariant b -> page_invariant (dispatch ev (at_time time b)).
Proof.
  intros Hclock Hdue [Hok [Hbanner Hflicker]].
  pose proof (timers_ok_at_time time b Hdue Hok) as Hok1.
  assert (Hb1 : showComingSoon (page b) = true -> pending coming_soon_off 5000 (at_time time b))
    by (intros H; apply pending_at_time; auto).
  assert (Hf1 : logoFlickering (page b) = true -> pending flicker_off 3000 (at_time time b))
    by (intros H; apply pending_at_time; auto).
  assert (Hsync : page_invariant (handleSyncClick (at_time time b))).
  { unfold handleSyncClick. split; [|split; intros Hon].
    - apply timers_ok_add_timer; [reflexivity | lia |].
      apply timers_ok_set_page; [sides | sides | exact Hok1].
    - apply pending_add_timer.
    - apply pending_add_other, pending_set_page, Hf1. exact Hon. }
  assert (Hdub : page_invariant (handleDubClick (at_time time b))).
  { split; [exact Hok1 | split; assumption]. }
  assert (Hsame : page_invariant (at_time time b)).
  { split; [exact Hok1 | split; assumption]. }
  destruct ev; cbn [dispatch]; try assumption;
    try (destruct (String.eqb key "Enter"); assumption);
    (split; [apply timers_ok_set_page; [sides | sides | exact Hok1]
            | split; intros Hon; [apply pending_set_page, Hb1, Hon
                                 | apply pending_set_page, Hf1, Hon]]).
Qed.

Lemma page_invariant_opened (t0 : Z) : page_invariant (opened t0).
Proof.
  assert (Hempty : timers_ok {| page := initial_page; timers := []; clock := t0;
                                next_handle := 1; visited := [] |}).
  { split; [constructor | split; [constructor | split]].
    - intros side h Hh. destruct side; discriminate Hh.
    - intros side. exists 0%nat. split; [lia|]. destruct side; reflexivity. }
  unfold opened, onMount. split; [|split; intros Hon; discriminate Hon].
  apply timers_ok_add_timer; [reflexivity | lia |].
  apply timers_ok_add_timer; [reflexivity | lia | exact Hempty].
Qed.

Lemma page_invariant_step (b b' : Browser) :
  page_invariant b -> page_step b b' -> page_invariant b'.
Proof.
  intros Hinv Hstep. destruct Hstep as [b t Hearliest | b ev time Hclock Hdue].
  - apply page_invariant_fire; assumption.
  - apply page_invariant_dispatch; assumption.
Qed.

Lemma page_invariant_reaches (t0 : Z) (b : Browser) :
  page_reaches t0 b -> page_invariant b.
Proof.
  induction 1 as [| b b' _ IH Hstep].
  - apply page_invariant_opened.
  - apply (page_invariant_step b); assumption.
Qed.

Lemma length_substring (n : nat) (s : string) :
  (n <= String.length s)%nat -> String.length (substring 0 n s) = n.
Proof.
  revert n. induction s as [| c s IH]; intros n Hn; simpl in Hn.
  - assert (n = 0)%nat by lia. subst n. reflexivity.
  - destruct n as [| n]; [reflexivity|]. simpl. rewrite IH by lia. reflexivity.
Qed.

Lemma substring_is_prefix (n : nat) (s : string) :
  (n <= String.length s)%nat -> String.prefix (substring 0 n s) s = true.
Proof.
  intros Hn. apply prefix_correct. rewrite length_substring by exact Hn. reflexivity.
Qed.

(** X20: whatever the visitor does and whenever the timers run, the text
    that a half of the page shows is a beginning of the full text of that
    half: the typing never shows another character, and never goes past the
    end of the text. *)
Theorem typed_text_is_a_beginning (t0 : Z) (b : Browser) :
  page_reaches t0 b ->
  String.prefix (leftTypedText (page b)) leftFullText = true
  /\ String.prefix (rightTypedText (page b)) rightFullText = true.
Proof.
  intros Hreach.
  destruct (page_invariant_reaches t0 b Hreach) as [[_ [_ [_ Htext]]] _].
  destruct (Htext true) as [n [Hn Hleft]]. destruct (Htext false) as [m [Hm Hright]].
  cbn [typedText fullText] in *. rewrite Hleft, Hright.
  split; apply substring_is_prefix; assumption.
Qed.

(** X21: in every state of the page, a half has at most one typing interval
    pending; the variable of the half holds a handle exactly when that
    interval is pending, and the handle is the one of the interval; what the
    half shows are the first [currentIndex] characters of its text. *)
Theorem one_typing_interval_per_side (t0 : Z) (b : Browser) (isLeft : bool) :
  page_reaches t0 b ->
  (forall t u text i text' j,
      In t (timers b) -> In u (timers b) ->
      timer_callback t = typing isLeft text i ->
      timer_callback u = typing isLeft text' j ->
      t = u)
  /\ (forall t text i,
         In t (timers b) -> timer_callback t = typing isLeft text i ->
         typingInterval isLeft (page b) = Some (timer_handle t)
         /\ text = fullText isLeft
         /\ typedText isLeft (page b) = substring 0 i text)
  /\ (forall h,
         typingInterval isLeft (page b) = Some h ->
         exists t i, In t (timers b) /\ timer_handle t = h
                     /\ timer_callback t = typing isLeft (fullText isLeft) i).
Proof.
  intros Hreach.
  destruct (page_invariant_reaches t0 b Hreach) as [[Hall [Hnd [Hlive _]]] _].
  rewrite Forall_forall in Hall.
  assert (Hside : forall t text i,
             In t (timers b) -> timer_callback t = typing isLeft text i ->
             typingInterval isLeft (page b) = Some (timer_handle t)
             /\ text = fullText isLeft
             /\ typedText isLeft (page b) = substring 0 i text).
  { intros t text i Ht Hcb. destruct (Hall t Ht) as [_ [_ H]]. rewrite Hcb in H. tauto. }
  split; [|split; [exact Hside | apply Hlive]].
  intros t u text i text' j Ht Hu Hcbt Hcbu.
  destruct (Hside t text i Ht Hcbt) as [Hht _].
  destruct (Hside u text' j Hu Hcbu) as [Hhu _].
  apply (same_handle_same_timer (timers b)); congruence.
Qed.

(** X22: the notice and the flicker of the logo are never left on: in every
    state of the page in which the notice "coming soon" is shown, a timer
    that hides it is pending and due within 5000 milliseconds, and in every
    state in which the logo flickers a timer that stops it is pending and due
    within 3000 milliseconds; neither of them is overdue. *)
Theorem shown_for_a_while_only (t0 : Z) (b : Browser) :
  page_reaches t0 b ->
  (showComingSoon (page b) = true ->
   exists t, In t (timers b) /\ timer_callback t = coming_soon_off
             /\ clock b <= timer_due t <= clock b + 5000)
  /\ (logoFlickering (page b) = true ->
      exists t, In t (timers b) /\ timer_callback t = flicker_off
                /\ clock b <= timer_due t <= clock b + 3000).
Proof.
  intros Hreach.
  destruct (page_invariant_reaches t0 b Hreach) as [[Hall _] [Hbanner Hflicker]].
  rewrite Forall_forall in Hall.
  split; intros Hon; [destruct (Hbanner Hon) as [t [Ht [Hcb Hdue]]]
                     | destruct (Hflicker Hon) as [t [Ht [Hcb Hdue]]]];
    exists t; (split; [exact Ht|]); (split; [exact Hcb|]);
    destruct (Hall t Ht) as [Hclock _]; lia.
Qed.

(** ** The page: what happens when *)

Lemma handle_spent_run (h : nat) (c : Callback) (b : Browser) :
  is_typing c = false -> handle_spent h b -> handle_spent h (fst (run_callback c b)).
Proof.
  intros Hc Hspent. destruct c; try discriminate Hc; cbn [run_callback fst].
  - apply handle_spent_add_timer, handle_spent_set_page, Hspent.
  - apply handle_spent_add_timer, handle_spent_startTypingText, Hspent.
  - apply handle_spent_add_timer, handle_spent_set_page, Hspent.
  - apply handle_spent_set_page, Hspent.
  - apply handle_spent_set_page, Hspent.
  - apply handle_spent_startTypingText, Hspent.
Qed.

Lemma timer_of (b : Browser) (t : Timer) :
  timers_ok b -> In t (timers b) -> timer_ok b t.
Proof. intros [Hall _] Ht. rewrite Forall_forall in Hall. apply Hall, Ht. Qed.

Lemma timeout_repeat (b : Browser) (t : Timer) :
  timers_ok b -> In t (timers b) -> is_typing (timer_callback t) = false ->
  timer_repeat t = None.
Proof.
  intros Hok Ht Hc. destruct (timer_of b t Hok Ht) as [_ [_ H]].
  destruct (timer_callback t); try discriminate Hc; exact H.
Qed.

Lemma other_timer (b : Browser) (t u : Timer) :
  timers_ok b -> In t (timers b) -> In u (timers b) ->
  (timer_handle u <> timer_handle t <-> u <> t).
Proof.
  intros [_ [Hnd _]] Ht Hu. split; intros H E.
  - subst u. apply H. reflexivity.
  - apply H. apply (same_handle_same_timer (timers b)); assumption.
Qed.

(** A timeout runs: it is spent, then its callback runs. *)
Lemma fire_timeout (t : Timer) (b : Browser) :
  timers_ok b -> In t (timers b) -> is_typing (timer_callback t) = false ->
  fire t b = fst (run_callback (timer_callback t) (rearm t b))
  /\ (forall u, In u (timers (rearm t b)) <-> In u (timers b) /\ u <> t)
  /\ clock (rearm t b) = timer_due t
  /\ page (rearm t b) = page b
  /\ next_handle (rearm t b) = next_handle b
  /\ visited (rearm t b) = visited b.
Proof.
  intros Hok Ht Hc.
  pose proof (handle_spent_rearm t b Hok Ht Hc) as Hspent.
  split; [|split; [|split; [|split; [|split]]]]; try reflexivity.
  - unfold fire.
    pose proof (handle_spent_run (timer_handle t) _ (rearm t b) Hc Hspent) as Hrun.
    destruct (run_callback (timer_callback t) (rearm t b)) as [b2 closure].
    cbn [fst] in *. apply keep_closure_spent, Hrun.
  - intros u. rewrite In_rearm. rewrite (timeout_repeat b t Hok Ht Hc). split.
    + intros [[Hu Hh] | [period [Hp _]]]; [|discriminate Hp].
      split; [exact Hu|]. apply (other_timer b t u Hok Ht Hu), Hh.
    + intros [Hu Hneq]. left. split; [exact Hu|].
      apply (other_timer b t u Hok Ht Hu), Hneq.
  - apply clock_rearm. apply (timer_of b t Hok Ht).
Qed.

Lemma typing_tick_rest (isLeft : bool) (text : string) (i : nat) (b : Browser) :
  isLoaded (page (fst (typing_tick isLeft text i b))) = isLoaded (page b)
  /\ visited (fst (typing_tick isLeft text i b)) = visited b.
Proof.
  unfold typing_tick.
  destruct isLeft, (i <? String.length text)%nat; cbn [fst]; try (split; reflexivity).
  - destruct (leftTypingInterval (page b)); split; reflexivity.
  - destruct (rightTypingInterval (page b)); split; reflexivity.
Qed.

(** A typing interval runs: it is set again 50 milliseconds later, then it
    types the next character, or it clears itself at the end of the text. *)
Lemma fire_typing (t : Timer) (b : Browser) (isLeft : bool) (text : string) (i : nat) :
  timers_ok b -> In t (timers b) -> timer_callback t = typing isLeft text i ->
  let b' := fire t b in
  clock b' = timer_due t
  /\ typedText (negb isLeft) (page b') = typedText (negb isLeft) (page b)
  /\ typingInterval (negb isLeft) (page b') = typingInterval (negb isLeft) (page b)
  /\ isLoaded (page b') = isLoaded (page b)
  /\ showComingSoon (page b') = showComingSoon (page b)
  /\ logoFlickering (page b') = logoFlickering (page b)
  /\ visited b' = visited b
  /\ if (i <? String.length text)%nat
     then (forall u, In u (timers b')
                     <-> (In u (timers b) /\ u <> t)
                         \/ u = new_timer (timer_handle t) (timer_due t + 50) (Some 50)
                                          (typing isLeft text (S i)))
          /\ typedText isLeft (page b') = substring 0 (S i) text
          /\ typingInterval isLeft (page b') = Some (timer_handle t)
     else (forall u, In u (timers b') <-> In u (timers b) /\ u <> t)
          /\ typedText isLeft (page b') = text
          /\ typingInterval isLeft (page b') = None.
Proof.
  intros Hok Ht Hcb b'.
  destruct (timer_of b t Hok Ht) as [Hdue [_ Hside]]. rewrite Hcb in Hside.
  destruct Hside as [Hint [Htext [Hi [Htyped Hrep]]]].
  assert (Hrearm : forall u, In u (timers (rearm t b))
                             <-> (In u (timers b) /\ u <> t)
                                 \/ u = new_timer (timer_handle t) (timer_due t + 50)
                                                  (Some 50) (typing isLeft text i)).
  { intros u. rewrite In_rearm. rewrite Hrep, Hcb. split.
    - intros [[Hu Hh] | [period [Hp ->]]].
      + left. split; [exact Hu|]. apply (other_timer b t u Hok Ht Hu), Hh.
      + right. injection Hp as <-. reflexivity.
    - intros [[Hu Hneq] | ->].
      + left. split; [exact Hu|]. apply (other_timer b t u Hok Ht Hu), Hneq.
      + right. exists 50. split; reflexivity. }
  assert (Hothers : forall u, In u (timers b) -> u <> t ->
                              Nat.eqb (timer_handle u) (timer_handle t) = false).
  { intros u Hu Hneq. apply Nat.eqb_neq. apply (other_timer b t u Hok Ht Hu), Hneq. }
  subst b'. unfold fire. rewrite Hcb. cbn [run_callback].
  pose proof (typing_tick_effect isLeft text i (rearm t b)) as Heff.
  pose proof (typing_tick_rest isLeft text i (rearm t b)) as [Hloaded Hvisited].
  cbn zeta in Heff.
  destruct (typing_tick isLeft text i (rearm t b)) as [b2 closure].
  cbn [fst snd] in Heff, Hloaded, Hvisited.
  destruct Heff as [Hot [Hoi [Hclock [_ [Hshow [Hlogo Hcase]]]]]].
  cbn [keep_closure set_timers page clock visited].
  split; [rewrite Hclock; apply clock_rearm, Hdue|].
  split; [exact Hot|]. split; [exact Hoi|]. split; [exact Hloaded|].
  split; [exact Hshow|]. split; [exact Hlogo|]. split; [exact Hvisited|].
  destruct (i <? String.length text)%nat eqn:Hlt.
  - destruct Hcase as [-> [Htimers [Htyped2 Hint2]]].
    split; [|split].
    + intros u.
      change (In u (timers (keep_closure (timer_handle t) (typing isLeft text (S i)) b2))
              <-> (In u (timers b) /\ u <> t)
                  \/ u = new_timer (timer_handle t) (timer_due t + 50) (Some 50)
                                   (typing isLeft text (S i))).
      rewrite timers_keep_closure. split.
      * intros [v [Hv ->]]. rewrite Htimers in Hv. apply Hrearm in Hv.
        destruct Hv as [[Hv Hneq] | ->].
        -- rewrite (Hothers v Hv Hneq). left. split; assumption.
        -- cbn [new_timer timer_handle]. rewrite Nat.eqb_refl. right. reflexivity.
      * intros [[Hu Hneq] | ->].
        -- exists u. rewrite Htimers. split; [apply Hrearm; left; split; assumption|].
           rewrite (Hothers u Hu Hneq). reflexivity.
        -- exists (new_timer (timer_handle t) (timer_due t + 50) (Some 50)
                             (typing isLeft text i)).
           rewrite Htimers. split; [apply Hrearm; right; reflexivity|].
           cbn [new_timer timer_handle]. rewrite Nat.eqb_refl. reflexivity.
    + rewrite Htyped2. change (page (rearm t b)) with (page b). rewrite Htyped.
      apply substring_next. apply Nat.ltb_lt, Hlt.
    + rewrite Hint2. exact Hint.
  - destruct Hcase as [-> [Htimers [Htyped2 Hint2]]].
    apply Nat.ltb_ge in Hlt. assert (i = String.length text) by lia. subst i.
    split; [|split].
    + intros u.
      change (In u (timers (keep_closure (timer_handle t)
                                         (typing isLeft text (String.length text)) b2))
              <-> In u (timers b) /\ u <> t).
      rewrite timers_keep_closure. rewrite Htimers.
      change (page (rearm t b)) with (page b). rewrite Hint. split.
      * intros [v [Hv ->]]. apply In_without_opt in Hv. destruct Hv as [Hv Hh].
        apply Hrearm in Hv. destruct Hv as [[Hv Hneq] | ->].
        -- rewrite (Hothers v Hv Hneq). split; assumption.
        -- exfalso. apply Hh. reflexivity.
      * intros [Hu Hneq]. exists u. rewrite (Hothers u Hu Hneq).
        split; [|reflexivity]. apply In_without_opt.
        split; [apply Hrearm; left; split; assumption|].
        intros E. injection E as E. apply Nat.eqb_neq in E; [exact E|].
        rewrite Nat.eqb_sym. apply Hothers; assumption.
    + rewrite Htyped2. change (page (rearm t b)) with (page b). rewrite Htyped.
      apply substring_all.
    + exact Hint2.
Qed.

Lemma In_snoc (u a : Timer) (ts : list Timer) : In u (ts ++ [a])%list <-> In u ts \/ u = a.
Proof.
  rewrite in_app_iff. simpl. split.
  - intros [H | [H | []]]; [left; exact H | right; symmetry; exact H].
  - intros [H | H]; [left; exact H | right; left; symmetry; exact H].
Qed.

(** What a timeout leaves when it has run. *)
Lemma fire_timeout_effect (t : Timer) (b : Browser) :
  timers_ok b -> In t (timers b) ->
  match timer_callback t with
  | mount_loaded =>
      (forall u, In u (timers (fire t b))
                 <-> (In u (timers b) /\ u <> t)
                     \/ u = new_timer (next_handle b) (timer_due t + 2000) None auto_typing)
      /\ page (fire t b) = with_isLoaded true (page b)
  | auto_typing =>
      (forall u, In u (timers (fire t b))
                 <-> (In u (without (leftTypingInterval (page b)) (timers b)) /\ u <> t)
                     \/ u = new_timer (next_handle b) (timer_due t + 50) (Some 50)
                                      (typing true leftFullText 0)
                     \/ u = new_timer (S (next_handle b)) (timer_due t + 500) None
                                      type_right)
      /\ page (fire t b)
         = with_leftTypingInterval (Some (next_handle b))
                                   (with_leftTypedText "" (page b))
  | mount_flicker =>
      (forall u, In u (timers (fire t b))
                 <-> (In u (timers b) /\ u <> t)
                     \/ u = new_timer (next_handle b) (timer_due t + 3000) None flicker_off)
      /\ page (fire t b) = with_logoFlickering true (page b)
  | flicker_off =>
      (forall u, In u (timers (fire t b)) <-> In u (timers b) /\ u <> t)
      /\ page (fire t b) = with_logoFlickering false (page b)
  | coming_soon_off =>
      (forall u, In u (timers (fire t b)) <-> In u (timers b) /\ u <> t)
      /\ page (fire t b) = with_showComingSoon false (page b)
  | type_right =>
      (forall u, In u (timers (fire t b))
                 <-> (In u (without (rightTypingInterval (page b)) (timers b)) /\ u <> t)
                     \/ u = new_timer (next_handle b) (timer_due t + 50) (Some 50)
                                      (typing false rightFullText 0))
      /\ page (fire t b)
         = with_rightTypingInterval (Some (next_handle b))
                                    (with_rightTypedText "" (page b))
  | typing _ _ _ => True
  end.
Proof.
  intros Hok Ht.
  destruct (is_typing (timer_callback t)) eqn:Hc.
  { destruct (timer_callback t); try discriminate Hc. exact I. }
  destruct (fire_timeout t b Hok Ht Hc) as [Hfire [Hrearm [Hclock [Hpage [Hnext _]]]]].
  rewrite Hfire.
  destruct (timer_callback t); try discriminate Hc; cbn [run_callback fst].
  - (* mount_loaded *)
    cbn [setTimeout add_timer set_page timers page clock next_handle].
    rewrite Hclock, Hpage, Hnext. split; [|reflexivity].
    intros u. rewrite In_snoc, Hrearm. reflexivity.
  - (* auto_typing *)
    unfold startAutoTyping, startTypingText.
    rewrite Hpage.
    destruct (leftTypingInterval (page b)) as [h |];
      cbn [setTimeout setInterval add_timer set_page set_timers clearInterval timers page
           clock next_handle without];
      rewrite ?Hclock, ?Hpage, ?Hnext; (split; [|reflexivity]); intros u;
      rewrite !In_snoc, ?In_without, ?Hrearm; unfold new_timer; tauto.
  - (* mount_flicker *)
    unfold startLogoFlickering.
    cbn [setTimeout add_timer set_page timers page clock next_handle].
    rewrite Hclock, Hpage, Hnext. split; [|reflexivity].
    intros u. rewrite In_snoc, Hrearm. reflexivity.
  - cbn [set_page timers page]. rewrite Hpage. split; [exact Hrearm | reflexivity].
  - cbn [set_page timers page]. rewrite Hpage. split; [exact Hrearm | reflexivity].
  - (* type_right *)
    unfold startTypingText.
    rewrite Hpage.
    destruct (rightTypingInterval (page b)) as [h |];
      cbn [setTimeout setInterval add_timer set_page set_timers clearInterval timers page
           clock next_handle without];
      rewrite ?Hclock, ?Hpage, ?Hnext; (split; [|reflexivity]); intros u;
      rewrite !In_snoc, ?In_without, ?Hrearm; unfold new_timer; tauto.
Qed.

Lemma fire_timeout_clock (t : Timer) (b : Browser) :
  timers_ok b -> In t (timers b) -> is_typing (timer_callback t) = false ->
  clock (fire t b) = timer_due t.
Proof.
  intros Hok Ht Hc.
  destruct (fire_timeout t b Hok Ht Hc) as [Hfire [_ [Hclock _]]]. rewrite Hfire.
  destruct (timer_callback t); try discriminate Hc; cbn [run_callback fst]; try exact Hclock.
  - unfold startAutoTyping, startTypingText.
    destruct (leftTypingInterval (page (rearm t b))); exact Hclock.
  - unfold startTypingText.
    destruct (rightTypingInterval (page (rearm t b))); exact Hclock.
Qed.

(** *** What stays when timers are replaced *)

Lemma only_keeps (c : Callback) (due : Z) (b b' : Browser) :
  keeps (eq c) b b' -> only c due b -> only c due b'.
Proof.
  intros Hk [t [Ht [Hc [Hd Hu]]]]. exists t.
  split; [apply Hk; [symmetry; exact Hc | exact Ht]|].
  split; [exact Hc|]. split; [exact Hd|].
  intros u Hin Hcu. apply Hu; [|exact Hcu]. apply Hk; [symmetry; exact Hcu | exact Hin].
Qed.

Lemma lacks_keeps (c : Callback) (b b' : Browser) :
  keeps (eq c) b b' -> lacks c b -> lacks c b'.
Proof.
  intros Hk Hl u Hin Hcu. apply (Hl u); [|exact Hcu].
  apply Hk; [symmetry; exact Hcu | exact Hin].
Qed.

Lemma not_started_frame (isLeft : bool) (b b' : Browser) :
  typingInterval isLeft (page b') = typingInterval isLeft (page b) ->
  typedText isLeft (page b') = typedText isLeft (page b) ->
  not_started isLeft b -> not_started isLeft b'.
Proof. unfold not_started. intros -> ->. tauto. Qed.

Lemma types_keeps (start : Z) (isLeft : bool) (b b' : Browser) :
  keeps (on_side isLeft) b b' -> clock b <= clock b' ->
  typingInterval isLeft (page b') = typingInterval isLeft (page b) ->
  typedText isLeft (page b') = typedText isLeft (page b) ->
  types start isLeft b -> types start isLeft b'.
Proof.
  intros Hk Hclock Hint Htyped [[t [i [Ht [Hc [Hd Hlow]]]]] | [Hnone [Hfull Hlow]]].
  - left. exists t, i. split; [|repeat split; try assumption; lia].
    apply Hk; [|exact Ht]. rewrite Hc. exists (fullText isLeft), i. reflexivity.
  - right. rewrite Hint, Htyped. repeat split; try assumption. lia.
Qed.

Lemma keeps_weaken (K K' : Callback -> Prop) (b b' : Browser) :
  (forall k, K' k -> K k) -> keeps K b b' -> keeps K' b b'.
Proof. intros Hsub Hk u Hu. apply Hk, Hsub, Hu. Qed.

Lemma replaced_keeps (K : Callback -> Prop) (t : Timer) (new : Timer -> Prop)
    (b b' : Browser) :
  replaced t new b b' -> ~ K (timer_callback t) ->
  (forall u, new u -> ~ K (timer_callback u)) ->
  keeps K b b'.
Proof.
  intros Hr Ht Hnew u Hu. rewrite (Hr u). split.
  - intros [[Hin _] | Hn]; [exact Hin | exfalso; apply (Hnew u Hn), Hu].
  - intros Hin. left. split; [exact Hin|]. intros ->. apply Ht, Hu.
Qed.

(** The timer that ran was the only one with its callback: none is left. *)
Lemma replaced_spent (c : Callback) (due : Z) (t : Timer) (new : Timer -> Prop)
    (b b' : Browser) :
  replaced t new b b' -> only c due b -> In t (timers b) -> timer_callback t = c ->
  (forall u, new u -> timer_callback u <> c) ->
  lacks c b' /\ timer_due t = due.
Proof.
  intros Hr [t1 [Ht1 [Hc1 [Hd1 Hu1]]]] Ht Hc Hnew.
  assert (t = t1) by (apply Hu1; assumption). subst t1.
  split; [|exact Hd1].
  intros u Hin Hcu. apply Hr in Hin. destruct Hin as [[Hin Hneq] | Hn].
  - apply Hneq. apply Hu1; assumption.
  - apply (Hnew u Hn), Hcu.
Qed.

(** A callback that no timer had, and that one new timer has. *)
Lemma replaced_set (c : Callback) (n t : Timer) (new : Timer -> Prop) (b b' : Browser) :
  replaced t new b b' -> lacks c b -> new n -> timer_callback n = c ->
  (forall u, new u -> timer_callback u = c -> u = n) ->
  only c (timer_due n) b'.
Proof.
  intros Hr Hl Hn Hc Hone. exists n.
  split; [apply Hr; right; exact Hn|]. split; [exact Hc|]. split; [reflexivity|].
  intros u Hin Hcu. apply Hr in Hin. destruct Hin as [[Hin _] | Hnu].
  - exfalso. apply (Hl u Hin Hcu).
  - apply Hone; assumption.
Qed.

Lemma typing_timer_unique (b : Browser) (t u : Timer) (isLeft : bool)
    (text text' : string) (i j : nat) :
  timers_ok b -> In t (timers b) -> In u (timers b) ->
  timer_callback t = typing isLeft text i -> timer_callback u = typing isLeft text' j ->
  u = t.
Proof.
  intros Hok Ht Hu Hct Hcu.
  destruct (timer_of b t Hok Ht) as [_ [_ Hst]]. rewrite Hct in Hst.
  destruct (timer_of b u Hok Hu) as [_ [_ Hsu]]. rewrite Hcu in Hsu.
  destruct Hok as [_ [Hnd _]].
  apply (same_handle_same_timer (timers b)); try assumption.
  destruct Hst as [Hst _], Hsu as [Hsu _]. congruence.
Qed.

Lemma not_started_no_typing (isLeft : bool) (b : Browser) (t : Timer) (text : string) (i : nat) :
  timers_ok b -> typingInterval isLeft (page b) = None -> In t (timers b) ->
  timer_callback t <> typing isLeft text i.
Proof.
  intros Hok Hnone Ht Hc.
  destruct (timer_of b t Hok Ht) as [_ [_ Hs]]. rewrite Hc in Hs.
  destruct Hs as [Hs _]. congruence.
Qed.

Lemma loading_frame (t0 : Z) (b b' : Browser) :
  keeps in_loading b b' -> clock b <= clock b' ->
  isLoaded (page b') = isLoaded (page b) ->
  (forall isLeft, typingInterval isLeft (page b') = typingInterval isLeft (page b)) ->
  (forall isLeft, typedText isLeft (page b') = typedText isLeft (page b)) ->
  loading t0 b -> loading t0 b'.
Proof.
  intros Hk Hclock Hloaded Hint Htyped Hl.
  assert (K1 : keeps (eq mount_loaded) b b')
    by (apply (keeps_weaken in_loading); [intros k <-; left; reflexivity | exact Hk]).
  assert (K2 : keeps (eq auto_typing) b b')
    by (apply (keeps_weaken in_loading);
        [intros k <-; right; left; reflexivity | exact Hk]).
  assert (K3 : keeps (eq type_right) b b')
    by (apply (keeps_weaken in_loading);
        [intros k <-; right; right; left; reflexivity | exact Hk]).
  assert (K4 : forall isLeft, keeps (on_side isLeft) b b').
  { intros isLeft. apply (keeps_weaken in_loading); [|exact Hk].
    intros k [text [i ->]]. right; right; right. reflexivity. }
  assert (Q : forall isLeft, not_started isLeft b -> not_started isLeft b')
    by (intros isLeft; apply not_started_frame; [apply Hint | apply Htyped]).
  assert (T : forall start isLeft, types start isLeft b -> types start isLeft b')
    by (intros start isLeft; apply types_keeps; [apply K4 | exact Hclock | apply Hint
                                                | apply Htyped]).
  unfold loading. rewrite Hloaded.
  destruct Hl as [[H1 [H2 [H3 [H4 [H5 H6]]]]]
                 | [[H1 [H2 [H3 [H4 [H5 [H6 H7]]]]]]
                   | [H1 [H2 [H3 [H4 [H5 H6]]]]]]].
  - left. repeat split; try assumption.
    + apply (only_keeps _ _ b); assumption.
    + apply (lacks_keeps _ b); assumption.
    + apply (lacks_keeps _ b); assumption.
    + apply Q, H5.
    + apply Q, H5.
    + apply Q, H6.
    + apply Q, H6.
  - right; left.
    split; [apply (lacks_keeps _ b); assumption|].
    split; [apply (only_keeps _ _ b); assumption|].
    split; [apply (lacks_keeps _ b); assumption|].
    split; [exact H4|]. split; [apply Q, H5|]. split; [apply Q, H6 | lia].
  - right; right.
    split; [apply (lacks_keeps _ b); assumption|].
    split; [apply (lacks_keeps _ b); assumption|].
    split; [exact H3|]. split; [lia|]. split; [apply T, H5|].
    destruct H6 as [[H6 H7] | [H6 [H7 H8]]].
    + left. split; [apply (only_keeps _ _ b); assumption | apply Q, H7].
    + right. split; [apply (lacks_keeps _ b); assumption|]. split; [lia | apply T, H8].
Qed.

Lemma flickering_frame (t0 : Z) (b b' : Browser) :
  keeps in_flickering b b' -> clock b <= clock b' ->
  logoFlickering (page b') = logoFlickering (page b) ->
  flickering t0 b -> flickering t0 b'.
Proof.
  intros Hk Hclock Hlogo Hf.
  assert (K1 : keeps (eq mount_flicker) b b')
    by (apply (keeps_weaken in_flickering); [intros k <-; left; reflexivity | exact Hk]).
  assert (K2 : keeps (eq flicker_off) b b')
    by (apply (keeps_weaken in_flickering); [intros k <-; right; reflexivity | exact Hk]).
  unfold flickering. rewrite Hlogo.
  destruct Hf as [[H1 [H2 H3]] | [[H1 [H2 [H3 H4]]] | [H1 [H2 [H3 H4]]]]].
  - left. split; [apply (only_keeps _ _ b); assumption|].
    split; [apply (lacks_keeps _ b); assumption | exact H3].
  - right; left. split; [apply (lacks_keeps _ b); assumption|].
    split; [apply (only_keeps _ _ b); assumption|]. split; [exact H3 | lia].
  - right; right. split; [apply (lacks_keeps _ b); assumption|].
    split; [apply (lacks_keeps _ b); assumption|]. split; [exact H3 | lia].
Qed.

Lemma timeline_mount_loaded (t0 : Z) (t : Timer) (b : Browser) :
  timers_ok b -> In t (timers b) -> timer_callback t = mount_loaded ->
  loading t0 b -> flickering t0 b ->
  loading t0 (fire t b) /\ flickering t0 (fire t b).
Proof.
  intros Hok Ht Hcb Hl Hf.
  pose proof (timer_of b t Hok Ht) as [Hdue _].
  pose proof (fire_timeout_effect t b Hok Ht) as Heff. rewrite Hcb in Heff.
  destruct Heff as [Hr Hpage].
  pose proof (fire_timeout_clock t b Hok Ht) as Hclock. rewrite Hcb in Hclock.
  specialize (Hclock eq_refl).
  change (replaced t (fun u => u = new_timer (next_handle b) (timer_due t + 2000) None
                                             auto_typing) b (fire t b)) in Hr.
  split.
  - destruct Hl as [[H1 [H2 [H3 [H4 [H5 H6]]]]] | [[H1 _] | [H1 _]]];
      [| exfalso; apply (H1 t Ht Hcb) | exfalso; apply (H1 t Ht Hcb)].
    destruct (replaced_spent mount_loaded _ t _ b _ Hr H1 Ht Hcb) as [Hlacks Hd].
    { intros u ->. other_kind. }
    right; left. split; [exact Hlacks|].
    split.
    { replace (t0 + 2500)
        with (timer_due (new_timer (next_handle b) (timer_due t + 2000) None auto_typing))
        by (cbn [new_timer timer_due]; lia).
      apply (replaced_set auto_typing _ t _ b _ Hr H2); [reflexivity | reflexivity|].
      intros u -> _. reflexivity. }
    split.
    { apply (lacks_keeps _ b); [|exact H3].
      apply (replaced_keeps _ t _ b _ Hr); [rewrite Hcb; other_kind|].
      intros u ->. other_kind. }
    unfold not_started. rewrite Hpage. split; [reflexivity|].
    split; [exact H5|]. split; [exact H6 | lia].
  - apply (flickering_frame t0 b); [| lia | rewrite Hpage; reflexivity | exact Hf].
    apply (replaced_keeps _ t _ b _ Hr); [rewrite Hcb; other_kind|].
    intros u ->. other_kind.
Qed.

Lemma timeline_mount_flicker (t0 : Z) (t : Timer) (b : Browser) :
  timers_ok b -> In t (timers b) -> timer_callback t = mount_flicker ->
  loading t0 b -> flickering t0 b ->
  loading t0 (fire t b) /\ flickering t0 (fire t b).
Proof.
  intros Hok Ht Hcb Hl Hf.
  pose proof (timer_of b t Hok Ht) as [Hdue _].
  pose proof (fire_timeout_effect t b Hok Ht) as Heff. rewrite Hcb in Heff.
  destruct Heff as [Hr Hpage].
  pose proof (fire_timeout_clock t b Hok Ht) as Hclock. rewrite Hcb in Hclock.
  specialize (Hclock eq_refl).
  change (replaced t (fun u => u = new_timer (next_handle b) (timer_due t + 3000) None
                                             flicker_off) b (fire t b)) in Hr.
  split.
  - apply (loading_frame t0 b); [| lia | rewrite Hpage; reflexivity
                                 | intros side; rewrite Hpage; destruct side; reflexivity
                                 | intros side; rewrite Hpage; destruct side; reflexivity
                                 | exact Hl].
    apply (replaced_keeps _ t _ b _ Hr); [rewrite Hcb; other_kind|].
    intros u ->. other_kind.
  - destruct Hf as [[H1 [H2 H3]] | [[H1 _] | [H1 _]]];
      [| exfalso; apply (H1 t Ht Hcb) | exfalso; apply (H1 t Ht Hcb)].
    destruct (replaced_spent mount_flicker _ t _ b _ Hr H1 Ht Hcb) as [Hlacks Hd].
    { intros u ->. other_kind. }
    right; left. split; [exact Hlacks|].
    split.
    { replace (t0 + 4000)
        with (timer_due (new_timer (next_handle b) (timer_due t + 3000) None flicker_off))
        by (cbn [new_timer timer_due]; lia).
      apply (replaced_set flicker_off _ t _ b _ Hr H2); [reflexivity | reflexivity|].
      intros u -> _. reflexivity. }
    rewrite Hpage. split; [reflexivity | lia].
Qed.

Lemma replaced_none (t : Timer) (b b' : Browser) :
  (forall u, In u (timers b') <-> In u (timers b) /\ u <> t) ->
  replaced t (fun _ => False) b b'.
Proof. intros H u. rewrite (H u). tauto. Qed.

Lemma timeline_flicker_off (t0 : Z) (t : Timer) (b : Browser) :
  timers_ok b -> In t (timers b) -> timer_callback t = flicker_off ->
  loading t0 b -> flickering t0 b ->
  loading t0 (fire t b) /\ flickering t0 (fire t b).
Proof.
  intros Hok Ht Hcb Hl Hf.
  pose proof (timer_of b t Hok Ht) as [Hdue _].
  pose proof (fire_timeout_effect t b Hok Ht) as Heff. rewrite Hcb in Heff.
  destruct Heff as [Hr Hpage]. apply replaced_none in Hr.
  pose proof (fire_timeout_clock t b Hok Ht) as Hclock. rewrite Hcb in Hclock.
  specialize (Hclock eq_refl).
  split.
  - apply (loading_frame t0 b); [| lia | rewrite Hpage; reflexivity
                                 | intros side; rewrite Hpage; destruct side; reflexivity
                                 | intros side; rewrite Hpage; destruct side; reflexivity
                                 | exact Hl].
    apply (replaced_keeps _ t _ b _ Hr); [rewrite Hcb; other_kind|].
    intros u [].
  - destruct Hf as [[_ [H2 _]] | [[H1 [H2 [H3 H4]]] | [_ [H2 _]]]];
      [exfalso; apply (H2 t Ht Hcb) | | exfalso; apply (H2 t Ht Hcb)].
    destruct (replaced_spent flicker_off _ t _ b _ Hr H2 Ht Hcb) as [Hlacks Hd].
    { intros u []. }
    right; right. split.
    { apply (lacks_keeps _ b); [|exact H1].
      apply (replaced_keeps _ t _ b _ Hr); [rewrite Hcb; other_kind|]. intros u []. }
    split; [exact Hlacks|]. rewrite Hpage. split; [reflexivity | lia].
Qed.

Lemma timeline_coming_soon_off (t0 : Z) (t : Timer) (b : Browser) :
  timers_ok b -> In t (timers b) -> timer_callback t = coming_soon_off ->
  loading t0 b -> flickering t0 b ->
  loading t0 (fire t b) /\ flickering t0 (fire t b).
Proof.
  intros Hok Ht Hcb Hl Hf.
  pose proof (timer_of b t Hok Ht) as [Hdue _].
  pose proof (fire_timeout_effect t b Hok Ht) as Heff. rewrite Hcb in Heff.
  destruct Heff as [Hr Hpage]. apply replaced_none in Hr.
  pose proof (fire_timeout_clock t b Hok Ht) as Hclock. rewrite Hcb in Hclock.
  specialize (Hclock eq_refl).
  split.
  - apply (loading_frame t0 b); [| lia | rewrite Hpage; reflexivity
                                 | intros side; rewrite Hpage; destruct side; reflexivity
                                 | intros side; rewrite Hpage; destruct side; reflexivity
                                 | exact Hl].
    apply (replaced_keeps _ t _ b _ Hr); [rewrite Hcb; other_kind|].
    intros u [].
  - apply (flickering_frame t0 b); [| lia | rewrite Hpage; reflexivity | exact Hf].
    apply (replaced_keeps _ t _ b _ Hr); [rewrite Hcb; other_kind|].
    intros u [].
Qed.

Lemma timeline_auto_typing (t0 : Z) (t : Timer) (b : Browser) :
  timers_ok b -> In t (timers b) -> timer_callback t = auto_typing ->
  loading t0 b -> flickering t0 b ->
  loading t0 (fire t b) /\ flickering t0 (fire t b).
Proof.
  intros Hok Ht Hcb Hl Hf.
  pose proof (timer_of b t Hok Ht) as [Hdue _].
  pose proof (fire_timeout_effect t b Hok Ht) as Heff. rewrite Hcb in Heff.
  destruct Heff as [Hr Hpage].
  pose proof (fire_timeout_clock t b Hok Ht) as Hclock. rewrite Hcb in Hclock.
  specialize (Hclock eq_refl).
  destruct Hl as [[_ [H2 _]] | [[H1 [H2 [H3 [H4 [H5 [H6 H7]]]]]] | [_ [H2 _]]]];
    [exfalso; apply (H2 t Ht Hcb) | | exfalso; apply (H2 t Ht Hcb)].
  destruct H5 as [Hnone Hempty]. cbn [typingInterval] in Hnone.
  rewrite Hnone in Hr. cbn [without] in Hr.
  set (n1 := new_timer (next_handle b) (timer_due t + 50) (Some 50)
                       (typing true leftFullText 0)) in *.
  set (n2 := new_timer (S (next_handle b)) (timer_due t + 500) None type_right) in *.
  change (replaced t (fun u => u = n1 \/ u = n2) b (fire t b)) in Hr.
  destruct (replaced_spent auto_typing _ t _ b _ Hr H2 Ht Hcb) as [Hlacks Hd].
  { intros u [-> | ->]; other_kind. }
  split.
  - right; right.
    split.
    { apply (lacks_keeps _ b); [|exact H1].
      apply (replaced_keeps _ t _ b _ Hr); [rewrite Hcb; other_kind|].
      intros u [-> | ->]; other_kind. }
    split; [exact Hlacks|]. rewrite Hpage. split; [exact H4|]. split; [lia|].
    split.
    { left. exists n1, 0%nat. split; [apply Hr; right; left; reflexivity|].
      split; [reflexivity|]. cbn [n1 new_timer timer_due]. lia. }
    left. split.
    { replace (t0 + 3000) with (timer_due n2) by (cbn [n2 new_timer timer_due]; lia).
      apply (replaced_set type_right _ t _ b _ Hr H3); [right; reflexivity | reflexivity|].
      intros u [-> | ->] Hc; [discriminate Hc | reflexivity]. }
    unfold not_started. rewrite Hpage. exact H6.
  - apply (flickering_frame t0 b); [| lia | rewrite Hpage; reflexivity | exact Hf].
    apply (replaced_keeps _ t _ b _ Hr); [rewrite Hcb; other_kind|].
    intros u [-> | ->]; other_kind.
Qed.

Lemma timeline_type_right (t0 : Z) (t : Timer) (b : Browser) :
  timers_ok b -> In t (timers b) -> timer_callback t = type_right ->
  loading t0 b -> flickering t0 b ->
  loading t0 (fire t b) /\ flickering t0 (fire t b).
Proof.
  intros Hok Ht Hcb Hl Hf.
  pose proof (timer_of b t Hok Ht) as [Hdue _].
  pose proof (fire_timeout_effect t b Hok Ht) as Heff. rewrite Hcb in Heff.
  destruct Heff as [Hr Hpage].
  pose proof (fire_timeout_clock t b Hok Ht) as Hclock. rewrite Hcb in Hclock.
  specialize (Hclock eq_refl).
  destruct Hl as [[_ [_ [H3 _]]] | [[_ [_ [H3 _]]] | [H1 [H2 [H3 [H4 [H5 H6]]]]]]];
    [exfalso; apply (H3 t Ht Hcb) | exfalso; apply (H3 t Ht Hcb) |].
  destruct H6 as [[H6 [Hnone Hempty]] | [H6 _]]; [| exfalso; apply (H6 t Ht Hcb)].
  cbn [typingInterval] in Hnone. rewrite Hnone in Hr. cbn [without] in Hr.
  set (n1 := new_timer (next_handle b) (timer_due t + 50) (Some 50)
                       (typing false rightFullText 0)) in *.
  change (replaced t (fun u => u = n1) b (fire t b)) in Hr.
  destruct (replaced_spent type_right _ t _ b _ Hr H6 Ht Hcb) as [Hlacks Hd].
  { intros u ->. other_kind. }
  split.
  - right; right.
    split.
    { apply (lacks_keeps _ b); [|exact H1].
      apply (replaced_keeps _ t _ b _ Hr); [rewrite Hcb; other_kind|].
      intros u ->. other_kind. }
    split.
    { apply (lacks_keeps _ b); [|exact H2].
      apply (replaced_keeps _ t _ b _ Hr); [rewrite Hcb; other_kind|].
      intros u ->. other_kind. }
    rewrite Hpage. split; [exact H3|]. split; [lia|].
    split.
    { apply (types_keeps _ _ b); [| lia | rewrite Hpage; reflexivity
                                  | rewrite Hpage; reflexivity | exact H5].
      apply (replaced_keeps _ t _ b _ Hr); [rewrite Hcb; other_kind|].
      intros u ->. other_kind. }
    right. split; [exact Hlacks|]. split; [lia|].
    left. exists n1, 0%nat. split; [apply Hr; right; reflexivity|].
    split; [reflexivity|]. cbn [n1 new_timer timer_due]. lia.
  - apply (flickering_frame t0 b); [| lia | rewrite Hpage; reflexivity | exact Hf].
    apply (replaced_keeps _ t _ b _ Hr); [rewrite Hcb; other_kind|].
    intros u ->. other_kind.
Qed.

Lemma fire_typing_keeps (K : Callback -> Prop) (t : Timer) (b : Browser)
    (isLeft : bool) (text : string) (i : nat) :
  timers_ok b -> In t (timers b) -> timer_callback t = typing isLeft text i ->
  (forall text' j, ~ K (typing isLeft text' j)) ->
  keeps K b (fire t b).
Proof.
  intros Hok Ht Hcb HK.
  destruct (fire_typing t b isLeft text i Hok Ht Hcb) as [_ [_ [_ [_ [_ [_ [_ Hcase]]]]]]].
  destruct (i <? String.length text)%nat.
  - destruct Hcase as [Hr _].
    apply (replaced_keeps K t _ b _ Hr); [rewrite Hcb; apply HK|].
    intros u ->. apply HK.
  - destruct Hcase as [Hr _]. apply replaced_none in Hr.
    apply (replaced_keeps K t _ b _ Hr); [rewrite Hcb; apply HK|].
    intros u [].
Qed.

(** A typing interval that runs types the next character on time. *)
Lemma types_tick (start : Z) (t : Timer) (b : Browser) (isLeft : bool) (text : string)
    (i : nat) :
  timers_ok b -> In t (timers b) -> timer_callback t = typing isLeft text i ->
  types start isLeft b -> types start isLeft (fire t b).
Proof.
  intros Hok Ht Hcb Hty.
  destruct (timer_of b t Hok Ht) as [_ [_ Hside]]. rewrite Hcb in Hside.
  destruct Hside as [_ [Htext [Hi _]]].
  destruct (fire_typing t b isLeft text i Hok Ht Hcb)
    as [Hclock [_ [_ [_ [_ [_ [_ Hcase]]]]]]].
  destruct Hty as [[t1 [i1 [Ht1 [Hc1 [Hd1 Hlow]]]]] | [Hnone _]];
    [| exfalso; apply (not_started_no_typing isLeft b t text i Hok Hnone Ht Hcb)].
  assert (t1 = t)
    by (apply (typing_timer_unique b t t1 isLeft text (fullText isLeft) i i1);
        assumption).
  subst t1. assert (i1 = i) by congruence. subst i1.
  destruct (i <? String.length text)%nat eqn:Hlt.
  - destruct Hcase as [Hr _]. left.
    exists (new_timer (timer_handle t) (timer_due t + 50) (Some 50)
                      (typing isLeft text (S i))), (S i).
    split; [apply Hr; right; reflexivity|].
    split; [rewrite Htext; reflexivity|].
    cbn [new_timer timer_due]. lia.
  - destruct Hcase as [_ [Htyped Hint]]. apply Nat.ltb_ge in Hlt.
    assert (i = String.length text) by lia. subst i. right.
    split; [exact Hint|]. split; [congruence|]. rewrite <- Htext. lia.
Qed.

Lemma timeline_typing (t0 : Z) (t : Timer) (b : Browser) (isLeft : bool) (text : string)
    (i : nat) :
  timers_ok b -> In t (timers b) -> timer_callback t = typing isLeft text i ->
  loading t0 b -> flickering t0 b ->
  loading t0 (fire t b) /\ flickering t0 (fire t b).
Proof.
  intros Hok Ht Hcb Hl Hf.
  pose proof (timer_of b t Hok Ht) as [Hdue _].
  destruct (fire_typing t b isLeft text i Hok Ht Hcb)
    as [Hclock [Hot [Hoi [Hloaded [_ [Hlogo _]]]]]].
  assert (Hquiet : ~ not_started isLeft b).
  { intros [Hnone _]. apply (not_started_no_typing isLeft b t text i Hok Hnone Ht Hcb). }
  assert (Hkeep : forall K, (forall text' j, ~ K (typing isLeft text' j)) ->
                            keeps K b (fire t b))
    by (intros K; apply (fire_typing_keeps K t b isLeft text i); assumption).
  split.
  - destruct Hl as [[_ [_ [_ [_ [H5 H6]]]]] | [[_ [_ [_ [_ [H5 [H6 _]]]]]]
                                              | [H1 [H2 [H3 [H4 [H5 H6]]]]]]];
      [destruct isLeft; contradiction | destruct isLeft; contradiction |].
    right; right.
    split; [apply (lacks_keeps _ b); [apply Hkeep; intros; other_kind | exact H1]|].
    split; [apply (lacks_keeps _ b); [apply Hkeep; intros; other_kind | exact H2]|].
    rewrite Hloaded. split; [exact H3|]. split; [lia|].
    destruct isLeft; cbn [negb] in Hot, Hoi.
    + split; [apply (types_tick _ t b true text i); assumption|].
      destruct H6 as [[H6 H7] | [H6 [H7 H8]]].
      * left. split; [apply (only_keeps _ _ b); [apply Hkeep; intros; other_kind
                                                | exact H6]|].
        apply (not_started_frame false b); assumption.
      * right. split; [apply (lacks_keeps _ b); [apply Hkeep; intros; other_kind
                                                 | exact H6]|].
        split; [lia|].
        apply (types_keeps _ _ b); [apply Hkeep; intros; other_kind | lia | assumption
                                   | assumption | exact H8].
    + split.
      { apply (types_keeps _ _ b); [apply Hkeep; intros; other_kind | lia | assumption
                                   | assumption | exact H5]. }
      destruct H6 as [[_ H7] | [H6 [H7 H8]]]; [contradiction|].
      right. split; [apply (lacks_keeps _ b); [apply Hkeep; intros; other_kind
                                               | exact H6]|].
      split; [lia|]. apply (types_tick _ t b false text i); assumption.
  - apply (flickering_frame t0 b); [| lia | exact Hlogo | exact Hf].
    apply Hkeep. intros. other_kind.
Qed.

Lemma timeline_fire (t0 : Z) (t : Timer) (b : Browser) :
  timers_ok b -> In t (timers b) -> loading t0 b -> flickering t0 b ->
  loading t0 (fire t b) /\ flickering t0 (fire t b).
Proof.
  intros Hok Ht Hl Hf. destruct (timer_callback t) eqn:Hcb.
  - apply timeline_mount_loaded; assumption.
  - apply timeline_auto_typing; assumption.
  - apply timeline_mount_flicker; assumption.
  - apply timeline_flicker_off; assumption.
  - apply timeline_coming_soon_off; assumption.
  - apply timeline_type_right; assumption.
  - apply (timeline_typing t0 t b isLeft text currentIndex); assumption.
Qed.

Lemma dispatch_keeps (K : Callback -> Prop) (ev : UserEvent) (time : Z) (b : Browser) :
  ~ K coming_soon_off -> keeps K b (dispatch ev (at_time time b)).
Proof.
  intros HK.
  assert (Hsame : forall b', timers b' = timers b -> keeps K b b')
    by (intros b' E u _; rewrite E; reflexivity).
  assert (Hsync : keeps K b (handleSyncClick (at_time time b))).
  { intros u Hu. unfold handleSyncClick.
    cbn [setTimeout add_timer set_page at_time timers]. rewrite In_snoc.
    split; [|tauto]. intros [Hin | ->]; [exact Hin | contradiction]. }
  destruct ev; cbn [dispatch]; try (apply Hsame; reflexivity); try exact Hsync;
    destruct (String.eqb key "Enter"); try (apply Hsame; reflexivity); exact Hsync.
Qed.

Lemma dispatch_page (ev : UserEvent) (time : Z) (b : Browser) :
  let b' := dispatch ev (at_time time b) in
  clock b' = time
  /\ isLoaded (page b') = isLoaded (page b)
  /\ logoFlickering (page b') = logoFlickering (page b)
  /\ (forall isLeft, typingInterval isLeft (page b') = typingInterval isLeft (page b))
  /\ (forall isLeft, typedText isLeft (page b') = typedText isLeft (page b)).
Proof.
  destruct ev; cbn [dispatch]; try destruct (String.eqb key "Enter");
    (split; [reflexivity|]); (split; [reflexivity|]); (split; [reflexivity|]);
    split; intros side; destruct side; reflexivity.
Qed.

Lemma timeline_dispatch (t0 : Z) (ev : UserEvent) (time : Z) (b : Browser) :
  clock b <= time -> loading t0 b -> flickering t0 b ->
  loading t0 (dispatch ev (at_time time b))
  /\ flickering t0 (dispatch ev (at_time time b)).
Proof.
  intros Hclock Hl Hf.
  destruct (dispatch_page ev time b) as [Hc [Hloaded [Hlogo [Hint Htyped]]]].
  split.
  - apply (loading_frame t0 b); try assumption; [|lia].
    apply dispatch_keeps. other_kind.
  - apply (flickering_frame t0 b); try assumption; [|lia].
    apply dispatch_keeps. other_kind.
Qed.

Lemma timeline_opened (t0 : Z) : loading t0 (opened t0) /\ flickering t0 (opened t0).
Proof.
  set (m1 := new_timer 1 (t0 + 500) None mount_loaded).
  set (m2 := new_timer 2 (t0 + 1000) None mount_flicker).
  assert (Htimers : timers (opened t0) = [m1; m2]) by reflexivity.
  assert (Hlacks : forall c, c <> mount_loaded -> c <> mount_flicker ->
                             lacks c (opened t0)).
  { intros c H1 H2 u Hu Hc. rewrite Htimers in Hu.
    destruct Hu as [<- | [<- | []]]; [apply H1 | apply H2]; symmetry; exact Hc. }
  split.
  - left. split.
    { exists m1. rewrite Htimers. split; [left; reflexivity|].
      split; [reflexivity|]. split; [reflexivity|].
      intros u [<- | [<- | []]] Hc; [reflexivity | discriminate Hc]. }
    split; [apply Hlacks; discriminate|]. split; [apply Hlacks; discriminate|].
    repeat split.
  - left. split.
    { exists m2. rewrite Htimers. split; [right; left; reflexivity|].
      split; [reflexivity|]. split; [reflexivity|].
      intros u [<- | [<- | []]] Hc; [discriminate Hc | reflexivity]. }
    split; [apply Hlacks; discriminate | reflexivity].
Qed.

Lemma timeline_reaches (t0 : Z) (b : Browser) :
  page_reaches t0 b -> loading t0 b /\ flickering t0 b.
Proof.
  induction 1 as [| b b' Hreach [Hl Hf] Hstep].
  - apply timeline_opened.
  - destruct (page_invariant_reaches t0 b Hreach) as [Hok _].
    destruct Hstep as [b t [Ht _] | b ev time Hclock _].
    + apply timeline_fire; assumption.
    + apply timeline_dispatch; assumption.
Qed.

Lemma run_timers_reaches (t0 : Z) (n : nat) (b : Browser) :
  page_reaches t0 b -> page_reaches t0 (run_timers n b).
Proof.
  revert b. induction n as [| n IH]; intros b Hreach; [exact Hreach|].
  cbn [run_timers]. destruct (earliest (timers b)) as [t |] eqn:E; [|exact Hreach].
  apply IH. apply (reaches_step t0 b); [exact Hreach|].
  apply step_timer, earliest_runs_first, E.
Qed.

Lemma only_not_overdue (c : Callback) (due : Z) (b : Browser) :
  timers_ok b -> only c due b -> clock b <= due.
Proof.
  intros Hok [t [Ht [_ [Hd _]]]]. destruct (timer_of b t Hok Ht) as [H _]. lia.
Qed.

(** X23: a page that was mounted at [t0] is not loaded before [t0 + 500] and
    is loaded after it, whatever the visitor does: the first [onMount]
    callback sets [isLoaded] 500 milliseconds after the mount and nothing
    resets it. *)
Theorem loaded_after_half_a_second (t0 : Z) (b : Browser) :
  page_reaches t0 b ->
  (clock b < t0 + 500 -> isLoaded (page b) = false)
  /\ (t0 + 500 < clock b -> isLoaded (page b) = true).
Proof.
  intros Hreach.
  destruct (page_invariant_reaches t0 b Hreach) as [Hok _].
  destruct (timeline_reaches t0 b Hreach) as [Hl _].
  destruct Hl as [[H1 [_ [_ [H4 _]]]] | [[_ [_ [_ [H4 [_ [_ H7]]]]]] | [_ [_ [H3 [H4 _]]]]]].
  - pose proof (only_not_overdue _ _ b Hok H1). split; [auto | lia].
  - split; [lia | auto].
  - split; [lia | auto].
Qed.

(** X24: the logo flickers once: [logoFlickering] is true only from 1000 to
    4000 milliseconds after the mount, and it is true all the time in
    between, whatever the visitor does. *)
Theorem logo_flickers_once (t0 : Z) (b : Browser) :
  page_reaches t0 b ->
  (logoFlickering (page b) = true -> t0 + 1000 <= clock b <= t0 + 4000)
  /\ (t0 + 1000 < clock b < t0 + 4000 -> logoFlickering (page b) = true).
Proof.
  intros Hreach.
  destruct (page_invariant_reaches t0 b Hreach) as [Hok _].
  destruct (timeline_reaches t0 b Hreach) as [_ Hf].
  destruct Hf as [[H1 [_ H3]] | [[_ [H2 [H3 H4]]] | [_ [_ [H3 H4]]]]].
  - pose proof (only_not_overdue _ _ b Hok H1). split; [congruence | lia].
  - pose proof (only_not_overdue _ _ b Hok H2). split; [lia | auto].
  - split; [congruence | lia].
Qed.

Lemma not_started_text (isLeft : bool) (b : Browser) (k : nat) :
  not_started isLeft b -> (k = 0)%nat ->
  typedText isLeft (page b) = substring 0 k (fullText isLeft).
Proof. intros [_ H] ->. rewrite H. destruct (fullText isLeft); reflexivity. Qed.

Lemma types_text (start : Z) (isLeft : bool) (b : Browser) (k : nat) :
  timers_ok b -> types start isLeft b ->
  (k <= String.length (fullText isLeft))%nat ->
  ((0 < k)%nat -> start + 50 * Z.of_nat k < clock b) ->
  ((k < String.length (fullText isLeft))%nat -> clock b < start + 50 * (Z.of_nat k + 1)) ->
  typedText isLeft (page b) = substring 0 k (fullText isLeft).
Proof.
  intros Hok [[t [i [Ht [Hc [Hd Hlow]]]]] | [_ [Hfull Hlow]]] Hk Hafter Hbefore.
  - destruct (timer_of b t Hok Ht) as [Hdue [_ Hside]]. rewrite Hc in Hside.
    destruct Hside as [_ [_ [Hi [Htyped _]]]].
    rewrite Htyped. f_equal.
    assert (k <= i)%nat
      by (destruct (Nat.eq_dec k 0) as [E |]; [|specialize (Hafter ltac:(lia))]; lia).
    assert (i <= k)%nat
      by (destruct (Nat.eq_dec k (String.length (fullText isLeft))) as [E |];
          [|specialize (Hbefore ltac:(lia))]; lia).
    lia.
  - rewrite Hfull.
    destruct (Nat.eq_dec k (String.length (fullText isLeft))) as [E |].
    + rewrite E. symmetry. apply substring_all.
    + specialize (Hbefore ltac:(lia)). lia.
Qed.

(** X25: what a half of the page shows at a given time: the typing starts
    2500 milliseconds after the mount on the left and 3000 milliseconds
    after it on the right, and types one character every 50 milliseconds.
    Later than [50 * k] and earlier than [50 * (k + 1)] milliseconds after
    the start, the half shows the first [k] characters of its text; it shows
    nothing before, and the whole text after the last character.  The
    visitor cannot change this. *)
Theorem typed_text_by_time (t0 : Z) (b : Browser) (isLeft : bool) (k : nat) :
  page_reaches t0 b ->
  (k <= String.length (fullText isLeft))%nat ->
  ((0 < k)%nat -> typing_starts t0 isLeft + 50 * Z.of_nat k < clock b) ->
  ((k < String.length (fullText isLeft))%nat ->
   clock b < typing_starts t0 isLeft + 50 * (Z.of_nat k + 1)) ->
  typedText isLeft (page b) = substring 0 k (fullText isLeft).
Proof.
  intros Hreach Hk Hafter Hbefore.
  destruct (page_invariant_reaches t0 b Hreach) as [Hok _].
  destruct (timeline_reaches t0 b Hreach) as [Hl _].
  assert (Hearly : clock b <= typing_starts t0 isLeft -> (k = 0)%nat).
  { intros Hc. destruct (Nat.eq_dec k 0) as [E |]; [exact E|].
    specialize (Hafter ltac:(lia)). lia. }
  destruct Hl as [[H1 [_ [_ [_ [H5 H6]]]]] | [[_ [H2 [_ [_ [H5 [H6 _]]]]]]
                                             | [_ [_ [_ [H4 [H5 H6]]]]]]].
  - pose proof (only_not_overdue _ _ b Hok H1).
    destruct isLeft; apply not_started_text; try assumption; apply Hearly;
      unfold typing_starts; lia.
  - pose proof (only_not_overdue _ _ b Hok H2).
    destruct isLeft; apply not_started_text; try assumption; apply Hearly;
      unfold typing_starts; lia.
  - destruct isLeft.
    + apply (types_text (t0 + 2500)); assumption.
    + destruct H6 as [[H6 H7] | [_ [_ H8]]].
      * pose proof (only_not_overdue _ _ b Hok H6).
        apply not_started_text; [assumption|]. apply Hearly. unfold typing_starts. lia.
      * apply (types_text (t0 + 3000)); assumption.
Qed.

Lemma types_done (start : Z) (isLeft : bool) (b : Browser) :
  timers_ok b -> types start isLeft b ->
  start + 50 * (Z.of_nat (String.length (fullText isLeft)) + 1) < clock b ->
  typingInterval isLeft (page b) = None
  /\ typedText isLeft (page b) = fullText isLeft.
Proof.
  intros Hok [[t [i [Ht [Hc [Hd Hlow]]]]] | [Hnone [Hfull _]]] Hlate; [|tauto].
  destruct (timer_of b t Hok Ht) as [Hdue [_ Hside]]. rewrite Hc in Hside.
  destruct Hside as [_ [_ [Hi _]]]. lia.
Qed.

(** X26: the page comes to rest: later than 4650 milliseconds after the
    mount the page is loaded, the logo does not flicker, both texts are
    complete, no typing interval is held, and the only timers left are those
    that hide the notice after a click on the right half. *)
Theorem page_at_rest (t0 : Z) (b : Browser) :
  page_reaches t0 b -> t0 + 4650 < clock b ->
  isLoaded (page b) = true
  /\ logoFlickering (page b) = false
  /\ leftTypedText (page b) = leftFullText
  /\ rightTypedText (page b) = rightFullText
  /\ leftTypingInterval (page b) = None
  /\ rightTypingInterval (page b) = None
  /\ forall t, In t (timers b) -> timer_callback t = coming_soon_off.
Proof.
  intros Hreach Hlate.
  destruct (page_invariant_reaches t0 b Hreach) as [Hok _].
  destruct (timeline_reaches t0 b Hreach) as [Hl Hf].
  destruct Hl as [[H1 _] | [[_ [H2 _]] | [M1 [M2 [H3 [H4 [H5 H6]]]]]]];
    [pose proof (only_not_overdue _ _ b Hok H1); lia
    | pose proof (only_not_overdue _ _ b Hok H2); lia |].
  destruct H6 as [[H6 _] | [M3 [_ H8]]];
    [pose proof (only_not_overdue _ _ b Hok H6); lia |].
  destruct Hf as [[F1 _] | [[_ [F2 _]] | [M4 [M5 [F3 _]]]]];
    [pose proof (only_not_overdue _ _ b Hok F1); lia
    | pose proof (only_not_overdue _ _ b Hok F2); lia |].
  destruct (types_done _ true b Hok H5) as [Hli Hlt]; [cbn; lia|].
  destruct (types_done _ false b Hok H8) as [Hri Hrt]; [cbn; lia|].
  repeat (split; [assumption|]).
  intros t Ht. destruct (timer_callback t) as [| | | | | | side text i] eqn:Hc;
    try reflexivity; exfalso.
  - apply (M1 t Ht Hc).
  - apply (M2 t Ht Hc).
  - apply (M4 t Ht Hc).
  - apply (M5 t Ht Hc).
  - apply (M3 t Ht Hc).
  - destruct side; [apply (not_started_no_typing true b t text i Hok Hli Ht Hc)
                   | apply (not_started_no_typing false b t text i Hok Hri Ht Hc)].
Qed.

Lemma ticks_typing (isLeft : bool) (text : string) (b : Browser) (h : option nat) (k : nat) :
  typingInterval isLeft (page b) = h ->
  typedText isLeft (page b) = "" ->
  (k <= String.length text)%nat ->
  let r := ticks k (typing isLeft text 0) b in
  snd r = typing isLeft text k
  /\ typedText isLeft (page (fst r)) = substring 0 k text
  /\ typingInterval isLeft (page (fst r)) = h
  /\ timers (fst r) = timers b.
Proof.
  intros Hh Hempty. induction k as [| k IH]; intros Hk r.
  - subst r. simpl. rewrite Hempty. destruct text; repeat split; assumption.
  - subst r. cbn [ticks].
    destruct (ticks k (typing isLeft text 0) b) as [b' cb'] eqn:E.
    destruct (IH ltac:(lia)) as [Hcb [Htyped [Hint Htimers]]].
    cbn [fst snd] in *. subst cb'. cbn [run_callback].
    pose proof (typing_tick_effect isLeft text k b') as Heff. cbn zeta in Heff.
    assert (Hlt : (k <? String.length text)%nat = true) by (apply Nat.ltb_lt; lia).
    rewrite Hlt in Heff.
    destruct Heff as [_ [_ [_ [_ [_ [_ [H1 [H2 [H3 H4]]]]]]]]].
    split; [exact H1|]. split; [rewrite H3, Htyped; apply substring_next; lia|].
    split; congruence.
Qed.

(** X27: the typing of a side, call by call: after [startTypingText] and
    [k] calls of the callback of its interval, the side shows the first [k]
    characters of its text and still holds the interval; one more call after
    the last character leaves the whole text, clears the interval and
    resets the variable that held it.  This holds from any state of the
    page, and does not depend on when the calls happen. *)
Theorem typing_types_the_text (isLeft : bool) (b : Browser) (k : nat) :
  (k <= String.length (fullText isLeft))%nat ->
  let r := ticks k (typing isLeft (fullText isLeft) 0) (startTypingText isLeft b) in
  typedText isLeft (page (fst r)) = substring 0 k (fullText isLeft)
  /\ typingInterval isLeft (page (fst r)) = Some (next_handle b)
  /\ (k = String.length (fullText isLeft) ->
      let done := fst (run_callback (snd r) (fst r)) in
      typedText isLeft (page done) = fullText isLeft
      /\ typingInterval isLeft (page done) = None
      /\ forall u, In u (timers done) -> timer_handle u <> next_handle b).
Proof.
  intros Hk r.
  destruct (startTypingText_effect isLeft b) as [_ [Hempty [Hint _]]].
  destruct (ticks_typing isLeft (fullText isLeft) _ _ k Hint Hempty Hk)
    as [Hcb [Htyped [Hint2 Htimers]]].
  fold r in Hcb, Htyped, Hint2, Htimers.
  split; [exact Htyped|]. split; [exact Hint2|].
  intros -> done. subst done. rewrite Hcb. cbn [run_callback].
  pose proof (typing_tick_effect isLeft (fullText isLeft)
                                 (String.length (fullText isLeft)) (fst r)) as Heff.
  cbn zeta in Heff. rewrite Nat.ltb_irrefl in Heff.
  destruct Heff as [_ [_ [_ [_ [_ [_ [_ [H2 [H3 H4]]]]]]]]].
  split; [rewrite H3, Htyped; apply substring_all|]. split; [exact H4|].
  intros u Hu. rewrite H2, Hint2 in Hu. apply In_without_opt in Hu.
  destruct Hu as [_ Hu]. congruence.
Qed.

(** X28: a second click does not prolong the notice.  On a page with no
    pending timer, a click on the right half at [c1] and the next one at
    [c2], less than 5000 milliseconds later, show the notice; the timeout of
    the first click runs next, at [c1 + 5000], and hides it, although the
    second click is less than 5000 milliseconds old; the timeout of the
    second click is still pending. *)
Theorem second_click_does_not_prolong (b : Browser) (c1 c2 : Z) :
  timers b = [] -> clock b <= c1 -> c1 <= c2 < c1 + 5000 ->
  let b1 := dispatch click_right (at_time c1 b) in
  let b2 := dispatch click_right (at_time c2 b1) in
  page_step b b1 /\ page_step b1 b2
  /\ showComingSoon (page b2) = true
  /\ exists t, page_step b2 (fire t b2)
               /\ clock (fire t b2) = c1 + 5000
               /\ showComingSoon (page (fire t b2)) = false
               /\ exists u, timers (fire t b2) = [u]
                            /\ timer_callback u = coming_soon_off
                            /\ timer_due u = c2 + 5000.
Proof.
  intros Hnone Hclock Hc b1 b2.
  pose (t1 := new_timer (next_handle b) (c1 + 5000) None coming_soon_off).
  pose (t2 := new_timer (S (next_handle b)) (c2 + 5000) None coming_soon_off).
  assert (Htimers1 : timers b1 = [t1]).
  { subst b1. cbn [dispatch handleSyncClick setTimeout add_timer set_page at_time
                   timers clock next_handle]. rewrite Hnone. reflexivity. }
  assert (Htimers : timers b2 = [t1; t2]).
  { subst b2. cbn [dispatch handleSyncClick setTimeout add_timer set_page at_time
                   timers clock next_handle]. rewrite Htimers1. reflexivity. }
  assert (Hneq : Nat.eqb (S (next_handle b)) (next_handle b) = false)
    by (apply Nat.eqb_neq; lia).
  assert (Hfire : timers (fire t1 b2) = [t2] /\ clock (fire t1 b2) = c1 + 5000
                  /\ showComingSoon (page (fire t1 b2)) = false).
  { unfold fire, rearm, keep_closure, set_timers. rewrite Htimers. unfold t1, t2.
    cbn [new_timer timer_callback timer_handle timer_repeat timer_due run_callback
         set_page page timers clock filter map].
    rewrite Nat.eqb_refl, Hneq.
    cbn [negb map timers clock page set_page with_showComingSoon showComingSoon
         timer_handle new_timer].
    rewrite Hneq.
    split; [reflexivity|]. split; [|reflexivity].
    subst b2 b1. cbn [dispatch handleSyncClick setTimeout add_timer set_page at_time clock].
    lia. }
  destruct Hfire as [Hleft [Hclock2 Hoff]].
  split; [apply step_user; [exact Hclock | rewrite Hnone; constructor]|].
  split.
  { apply step_user; [subst b1; cbn; lia|]. rewrite Htimers1.
    constructor; [cbn [t1 new_timer timer_due]; lia | constructor]. }
  split; [reflexivity|].
  exists t1. split.
  { apply step_timer. split; [rewrite Htimers; left; reflexivity|].
    intros u Hu. rewrite Htimers in Hu.
    destruct Hu as [<- | [<- | []]]; cbn [t1 t2 new_timer timer_due]; lia. }
  split; [exact Hclock2|]. split; [exact Hoff|].
  exists t2. split; [exact Hleft | split; reflexivity].
Qed.

Lemma visited_run (c : Callback) (b : Browser) :
  visited (fst (run_callback c b)) = visited b.
Proof.
  destruct c as [| | | | | | isLeft text i]; cbn [run_callback fst]; try reflexivity.
  - unfold startAutoTyping, startTypingText.
    destruct (leftTypingInterval (page b)); reflexivity.
  - unfold startTypingText. destruct (rightTypingInterval (page b)); reflexivity.
  - apply typing_tick_rest.
Qed.

Lemma visited_fire (t : Timer) (b : Browser) : visited (fire t b) = visited b.
Proof.
  unfold fire. pose proof (visited_run (timer_callback t) (rearm t b)) as H.
  destruct (run_callback (timer_callback t) (rearm t b)) as [b2 closure].
  exact H.
Qed.

(** X29: the page goes nowhere but to [/dubbing]: in every state of the
    page, whatever the visitor has done and whichever timers have run, every
    path it has navigated to is ["/dubbing"]. *)
Theorem only_dubbing_is_visited (t0 : Z) (b : Browser) (path : string) :
  page_reaches t0 b -> In path (visited b) -> path = "/dubbing".
Proof.
  intros Hreach. revert path.
  induction Hreach as [| b b' Hreach IH Hstep]; intros path Hin; [destruct Hin|].
  destruct Hstep as [b t _ | b ev time _ _].
  - rewrite visited_fire in Hin. apply IH, Hin.
  - assert (Hdub : In path (visited (handleDubClick (at_time time b))) ->
                   path = "/dubbing").
    { cbn [handleDubClick goto visited at_time]. rewrite in_app_iff.
      intros [H | [H | []]]; [apply IH, H | symmetry; exact H]. }
    destruct ev; cbn [dispatch] in Hin; try (apply IH, Hin); try (apply Hdub, Hin);
      destruct (String.eqb key "Enter"); try (apply IH, Hin); apply Hdub, Hin.
Qed.

(** ** The further properties on concrete inputs *)

Lemma request_rejected_fetch_witness :
  request apiClient unreachable "/api/uniframe/dubbing/pipeline-1/status" GET
  = Throws (Thrown_ApiClientError
              (new_ApiClientError "NETWORK_ERROR" "Network error: Failed to fetch" None)).
Proof.
  apply (proj1 (request_rejected_fetch apiClient unreachable
                  "/api/uniframe/dubbing/pipeline-1/status" GET
                  (Thrown_Error "TypeError" "Failed to fetch")
                  ltac:(simpl; lia) eq_refl) "TypeError" "Failed to fetch" eq_refl).
  discriminate.
Defined.

Lemma request_ok_with_unreadable_body_witness :
  request apiClient garbled "/api/uniframe/dubbing/pipeline-1/status" GET
  = Throws (Thrown_ApiClientError
              (new_ApiClientError "NETWORK_ERROR"
                                  "Network error: Unexpected end of JSON input" None)).
Proof.
  apply (request_ok_with_unreadable_body apiClient garbled
           "/api/uniframe/dubbing/pipeline-1/status" GET 200 "OK" "SyntaxError"
           "Unexpected end of JSON input"); [simpl; lia | reflexivity | discriminate].
Defined.

Lemma upload_failure_codes_witness :
  settled (uploadFile "https://storage.example/upload" a_file true a_refused_transfer)
  = Some (Throws (Thrown_ApiClientError
                    (new_ApiClientError "UPLOAD_FAILED" "Upload failed: Forbidden" None)))
  /\ settled (uploadFile "https://storage.example/upload" a_file true a_broken_transfer)
     = Some (Throws (Thrown_ApiClientError
                       (new_ApiClientError "UPLOAD_ERROR" "Upload network error" None))).
Proof.
  split.
  - apply (proj1 (upload_failure_codes "https://storage.example/upload" a_file true
                    a_refused_transfer ltac:(simpl; lia)) 403 "Forbidden" eq_refl).
    right. lia.
  - apply (proj2 (upload_failure_codes "https://storage.example/upload" a_file true
                    a_broken_transfer ltac:(simpl; lia)) eq_refl).
Defined.

Lemma percentage_endpoints_witness :
  percentage 3000 3000 = Num 100 /\ percentage 0 3000 = Num 0.
Proof. apply (percentage_endpoints 3000). lia. Defined.

Lemma percentage_nearest_witness :
  exists p, percentage 435 3000 = Num p /\ Z.abs (2 * (p * 3000 - 100 * 435)) <= 3000.
Proof. apply (percentage_nearest 435 3000); [lia | split; [lia | reflexivity]]. Defined.

Lemma polls_until_24_hours_witness :
  let pre := [at_ 1000 (answers (a_status "pending" None))] in
  let cy := at_ 86401000 unreachable in
  exists events,
    fst (pollPipelineStatus apiClient "pipeline-1" quiet 1000
           (pre ++ cy :: [at_ 86404100 unreachable]))
    = (fst (pollPipelineStatus apiClient "pipeline-1" quiet 1000 pre)
       ++ CallGetPipelineStatus "pipeline-1" :: events)%list.
Proof.
  intros pre cy.
  apply (polls_until_24_hours apiClient "pipeline-1" quiet 1000 pre cy);
    [simpl; discriminate | simpl; lia].
Defined.

Lemma reports_at_most_once_witness :
  let run := pollPipelineStatus apiClient "pipeline-1" quiet 1000
               [at_ 1000 (answers (a_status "pending" None));
                at_ 4100 (answers (a_status "failed" (Some "no audio track")));
                at_ 7200 (answers (a_status "completed" None))] in
  (count is_report (fst run) <= 1)%nat
  /\ (count is_report (fst run) = 1%nat ->
      next_poll (snd run) = None
      /\ exists t ev, fst run = (t ++ [ev])%list /\ is_report ev = true).
Proof.
  exact (reports_at_most_once apiClient "pipeline-1" quiet 1000 _ quiet_returns_normally).
Defined.

Lemma throwing_callback_keeps_polling_witness :
  let s := a_status "completed" None in
  let cycles := [at_ 1000 (answers s); at_ 4100 (answers s); at_ 7200 (answers s)] in
  let r := poll_loop apiClient "pipeline-1" failing_onComplete 1000
             {| consecutiveErrors := 0; next_poll := Some 0 |} cycles in
  snd r = {| consecutiveErrors := 1; next_poll := Some 3000 |}
  /\ count is_CallGetPipelineStatus (fst r) = 3%nat
  /\ count is_CallOnUpdate (fst r) = 3%nat.
Proof.
  intros s cycles.
  apply (throwing_callback_keeps_polling apiClient "pipeline-1" failing_onComplete 1000
           cycles {| consecutiveErrors := 0; next_poll := Some 0 |});
    [simpl; discriminate | discriminate |].
  unfold cycles.
  repeat (apply Forall_cons;
          [split; [apply within_time_at; lia|];
           exists s; split; [reflexivity|]; right; left;
           split; [reflexivity|]; split; [reflexivity|]; eexists; reflexivity|]).
  apply Forall_nil.
Defined.

Lemma failures_do_not_add_up_witness :
  let fails1 := repeat (at_ 2000 unreachable) 9 in
  let fails2 := repeat (at_ 90000 unreachable) 9 in
  let s := a_status "processing" None in
  poll_loop apiClient "pipeline-1" quiet 1000
    {| consecutiveErrors := 0; next_poll := Some 0 |}
    (fails1 ++ at_ 60000 (answers s) :: fails2)
  = ((failed_rounds "pipeline-1" 0 9
      ++ [CallGetPipelineStatus "pipeline-1"; CallOnUpdate s; SetTimeout 3000]
      ++ failed_rounds "pipeline-1" 0 9)%list,
     after_failures {| consecutiveErrors := 0; next_poll := Some 3000 |} 9).
Proof.
  intros fails1 fails2 s.
  apply (failures_do_not_add_up apiClient "pipeline-1" quiet 1000 fails1 fails2
           (at_ 60000 (answers s)) s {| consecutiveErrors := 0; next_poll := Some 0 |});
    [reflexivity | simpl; discriminate | simpl; lia | simpl; lia | |
     apply within_time_at; lia | reflexivity | repeat split; simpl; discriminate
     | reflexivity].
  unfold fails1, fails2. cbn [repeat app].
  repeat (apply Forall_cons;
          [split; [apply within_time_at; lia | eexists; reflexivity]|]).
  apply Forall_nil.
Defined.

Lemma in_progress_keeps_polling_witness :
  let s1 := a_status "pending" None in
  let s2 := a_status "processing" (Some "") in
  poll_loop apiClient "pipeline-1" quiet 1000
    {| consecutiveErrors := 0; next_poll := Some 0 |}
    [at_ 1000 (answers s1); at_ 4100 (answers s2)]
  = (in_progress_rounds "pipeline-1" [s1; s2],
     {| consecutiveErrors := 0; next_poll := Some 3000 |}).
Proof.
  intros s1 s2.
  apply (in_progress_keeps_polling apiClient "pipeline-1" quiet 1000);
    [simpl; discriminate | discriminate |].
  repeat (apply Forall2_cons;
          [split; [apply within_time_at; lia|]; split; [reflexivity|];
           split; [repeat split; simpl; discriminate | reflexivity]|]).
  apply Forall2_nil.
Defined.

(** *** States of the page that is mounted at 0 *)

Lemma a_page_while_typing_reaches : page_reaches 0 a_page_while_typing.
Proof.
  apply (reaches_step 0 (run_timers 7 (opened 0)));
    [apply run_timers_reaches, reaches_opened | user_step].
Qed.

Lemma a_page_after_a_click_reaches : page_reaches 0 a_page_after_a_click.
Proof.
  apply (reaches_step 0 (run_timers 70 (opened 0)));
    [apply run_timers_reaches, reaches_opened | user_step].
Qed.

Lemma a_page_left_for_dubbing_reaches : page_reaches 0 a_page_left_for_dubbing.
Proof. apply (reaches_step 0 (opened 0)); [apply reaches_opened | user_step]. Qed.

Lemma typed_text_is_a_beginning_witness :
  String.prefix (leftTypedText (page a_page_while_typing)) leftFullText = true
  /\ String.prefix (rightTypedText (page a_page_while_typing)) rightFullText = true.
Proof. exact (typed_text_is_a_beginning 0 _ a_page_while_typing_reaches). Defined.

Lemma one_typing_interval_per_side_witness :
  exists t i, In t (timers a_page_while_typing) /\ timer_handle t = 5%nat
              /\ timer_callback t = typing true (fullText true) i.
Proof.
  apply (proj2 (proj2 (one_typing_interval_per_side 0 a_page_while_typing true
                         a_page_while_typing_reaches))).
  reflexivity.
Defined.

Lemma shown_for_a_while_only_witness :
  exists t, In t (timers a_page_after_a_click) /\ timer_callback t = coming_soon_off
            /\ clock a_page_after_a_click <= timer_due t
               <= clock a_page_after_a_click + 5000.
Proof.
  apply (proj1 (shown_for_a_while_only 0 a_page_after_a_click
                  a_page_after_a_click_reaches)).
  reflexivity.
Defined.

Lemma loaded_after_half_a_second_witness :
  isLoaded (page a_page_left_for_dubbing) = false
  /\ isLoaded (page a_page_while_typing) = true.
Proof.
  split.
  - apply (proj1 (loaded_after_half_a_second 0 _ a_page_left_for_dubbing_reaches)).
    reflexivity.
  - apply (proj2 (loaded_after_half_a_second 0 _ a_page_while_typing_reaches)).
    reflexivity.
Defined.

Lemma logo_flickers_once_witness :
  logoFlickering (page a_page_while_typing) = true
  /\ 1000 <= clock a_page_while_typing <= 4000.
Proof.
  assert (H : logoFlickering (page a_page_while_typing) = true).
  { apply (proj2 (logo_flickers_once 0 _ a_page_while_typing_reaches)).
    split; reflexivity. }
  split; [exact H|].
  exact (proj1 (logo_flickers_once 0 _ a_page_while_typing_reaches) H).
Defined.

Lemma typed_text_by_time_witness :
  leftTypedText (page a_page_while_typing) = "AI-p"
  /\ rightTypedText (page a_page_while_typing) = ""
  /\ rightTypedText (page a_page_after_a_click) = rightFullText.
Proof.
  split; [|split].
  - apply (typed_text_by_time 0 a_page_while_typing true 4 a_page_while_typing_reaches);
      [simpl; lia | intros _; reflexivity | intros _; reflexivity].
  - apply (typed_text_by_time 0 a_page_while_typing false 0 a_page_while_typing_reaches);
      [simpl; lia | intros H; inversion H | intros _; reflexivity].
  - apply (typed_text_by_time 0 a_page_after_a_click false 32
             a_page_after_a_click_reaches);
      [simpl; lia | intros _; reflexivity | simpl; lia].
Defined.

Lemma page_at_rest_witness :
  isLoaded (page a_page_after_a_click) = true
  /\ logoFlickering (page a_page_after_a_click) = false
  /\ leftTypedText (page a_page_after_a_click) = leftFullText
  /\ rightTypedText (page a_page_after_a_click) = rightFullText
  /\ leftTypingInterval (page a_page_after_a_click) = None
  /\ rightTypingInterval (page a_page_after_a_click) = None
  /\ forall t, In t (timers a_page_after_a_click) -> timer_callback t = coming_soon_off.
Proof.
  apply (page_at_rest 0 a_page_after_a_click a_page_after_a_click_reaches). reflexivity.
Defined.

Lemma typing_types_the_text_witness :
  let r := ticks 7 (typing false rightFullText 0) (startTypingText false (opened 0)) in
  rightTypedText (page (fst r)) = "Cutting"
  /\ rightTypingInterval (page (fst r)) = Some 3%nat.
Proof.
  intros r.
  destruct (typing_types_the_text false (opened 0) 7 ltac:(simpl; lia)) as [H1 [H2 _]].
  split; [exact H1 | exact H2].
Defined.

Lemma second_click_does_not_prolong_witness :
  let b := run_timers 70 (opened 0) in
  let b2 := dispatch click_right (at_time 8000 (dispatch click_right (at_time 6000 b))) in
  showComingSoon (page b2) = true
  /\ exists t, page_step b2 (fire t b2)
               /\ clock (fire t b2) = 11000
               /\ showComingSoon (page (fire t b2)) = false.
Proof.
  intros b b2.
  destruct (second_click_does_not_prolong b 6000 8000 eq_refl ltac:(vm_compute; discriminate)
              ltac:(lia))
    as [_ [_ [Hshown [t [Hstep [Hclock [Hhidden _]]]]]]].
  split; [exact Hshown|]. exists t. split; [exact Hstep|]. split; [exact Hclock|].
  exact Hhidden.
Defined.

Lemma only_dubbing_is_visited_witness :
  hd "" (visited a_page_left_for_dubbing) = "/dubbing".
Proof.
  apply (only_dubbing_is_visited 0 a_page_left_for_dubbing _
           a_page_left_for_dubbing_reaches).
  left. reflexivity.
Defined.
